(** * corso-portal: the real-time telemetry session layer

    A shallow embedding of the hooks that make up the session layer of the
    portal, and what is proved of them.

    The program comes first:

    - [Binary64]: the doubles of the runtime, their rounding, rendering
      and reading;
    - [UseWebSocket]: [src/hooks/useWebSocket.ts], the connection hook;
    - [UseAgentStatus]: the agent-status hook ([useAgentStatus]);
    - [JSON]: [JSON.stringify(_, null, 2)] and [JSON.parse] of the runtime;
    - [UseRealTimeUsage]: the real-time usage hook ([useRealTimeUsage]).

    The facts follow, one module per hook.

    React state, refs and the socket are made explicit: every callback of a
    hook becomes a function from the hook's cells to the hook's cells, and
    what it does to the outside world (socket emits, timers, user
    callbacks) is appended to an effect trace.

    A callback created by [useCallback] reads [connectionState] from the
    render in which it was created.  That render snapshot is the explicit
    argument [r] of the functions below; the state updater
    [setConnectionState(prev => ...)] on the other hand acts on the current
    cell of the hook. *)

From Stdlib Require Import ZArith Zpow_facts Znumtheory.
From Stdlib Require Import List ZArith QArith String Ascii Bool Lia DecimalString.
From Stdlib Require Import Permutation Sorted Lqa Qabs Qround Qpower.
Import ListNotations.

(** Decimal rendering of an integer, as a template literal renders an
    integral number. *)
Definition string_of_Z (z : Z) : string :=
  NilZero.string_of_int (Z.to_int z).

(** JavaScript truthiness of a string. *)
Definition truthy (s : string) : bool :=
  match s with
  | EmptyString => false
  | String _ _ => true
  end.

(** [a || b] on an optional string. *)
Definition or_else (a : option string) (b : string) : string :=
  match a with
  | Some s => if truthy s then s else b
  | None => b
  end.

(** A JavaScript number: a finite one, [NaN], or an infinity.  A finite
    number is the rational it stands for.  [js_div] and [js_times] give
    the exact quotient and product; the operations further down round
    their result to a double, as the runtime does. *)
Inductive number : Set :=
| Finite (q : Q)
| NaN
| Infinity (negative : bool).

Definition Qltb (a b : Q) : bool := negb (Qle_bool b a).

(** [a / b] on finite numbers. *)
Definition js_div (a b : Q) : number :=
  if Qeq_bool b 0 then
    if Qeq_bool a 0 then NaN else Infinity (Qltb a 0)
  else Finite (a / b).

(** [x * c] for a finite [c]. *)
Definition js_times (x : number) (c : Q) : number :=
  match x with
  | Finite q => Finite (q * c)
  | NaN => NaN
  | Infinity neg =>
      if Qeq_bool c 0 then NaN else Infinity (xorb neg (Qltb c 0))
  end.

(** [Math.pow(2, k)] for a count [k]: the power itself up to 2^1023, and
    [Infinity] from 2^1024 on, which is beyond the largest double. *)
Definition Math_pow2 (k : nat) : number :=
  if (Z.of_nat k <? 1024)%Z then Finite (inject_Z (2 ^ Z.of_nat k))
  else Infinity false.

(** A product that is exact unless it leaves the range of the doubles:
    from 2^1024 on it is an infinity. *)
Definition overflow (p : Q) : number :=
  if Qle_bool (inject_Z (2 ^ 1024)) (Qabs p) then Infinity (Qltb p 0)
  else Finite p.

(** [a * x] for an integer [a] and a power of two [x] as [Math_pow2]
    gives it: the product of the two is exact up to overflow, and zero
    times [Infinity] is [NaN]. *)
Definition times_pow2 (a : Z) (x : number) : number :=
  match x with
  | Finite q => overflow (inject_Z a * q)
  | NaN => NaN
  | Infinity neg =>
      if (a =? 0)%Z then NaN else Infinity (xorb neg (a <? 0)%Z)
  end.

(** [Math.min(x, y)]: [NaN] as soon as one argument is. *)
Definition Math_min (x y : number) : number :=
  match x, y with
  | NaN, _ | _, NaN => NaN
  | Infinity true, _ | _, Infinity true => Infinity true
  | Infinity false, z | z, Infinity false => z
  | Finite a, Finite b => if Qle_bool a b then Finite a else Finite b
  end.

(** ** Arithmetic on doubles

    [fl] stands for the rounding of the runtime: [fl q] is the double
    nearest to the exact result [q], or an infinity when [q] is out of
    range.  It is a parameter; the operations below apply it to the exact
    result of two finite operands and follow the rules of the language
    for [NaN] and the infinities.  The two zeros are not told apart: they
    differ only in the sign of a quotient by zero. *)

Definition js_neg (x : number) : number :=
  match x with
  | Finite a => Finite (- a)
  | NaN => NaN
  | Infinity neg => Infinity (negb neg)
  end.

Definition js_add (fl : Q -> number) (x y : number) : number :=
  match x, y with
  | NaN, _ | _, NaN => NaN
  | Finite a, Finite b => fl (a + b)
  | Infinity s, Infinity t => if Bool.eqb s t then Infinity s else NaN
  | Infinity s, Finite _ | Finite _, Infinity s => Infinity s
  end.

Definition js_sub (fl : Q -> number) (x y : number) : number :=
  js_add fl x (js_neg y).

Definition js_mul (fl : Q -> number) (x y : number) : number :=
  match x, y with
  | NaN, _ | _, NaN => NaN
  | Finite a, Finite b => fl (a * b)
  | Infinity s, Infinity t => Infinity (xorb s t)
  | Infinity s, Finite b | Finite b, Infinity s =>
      if Qeq_bool b 0 then NaN else Infinity (xorb s (Qltb b 0))
  end.

Definition js_quot (fl : Q -> number) (x y : number) : number :=
  match x, y with
  | NaN, _ | _, NaN => NaN
  | Finite a, Finite b =>
      if Qeq_bool b 0 then
        if Qeq_bool a 0 then NaN else Infinity (Qltb a 0)
      else fl (a / b)
  | Finite _, Infinity _ => Finite 0
  | Infinity s, Finite b => Infinity (xorb s (Qltb b 0))
  | Infinity _, Infinity _ => NaN
  end.

(** [x > c] for a finite [c]. *)
Definition js_gt (x : number) (c : Q) : bool :=
  match x with
  | Finite a => Qltb c a
  | NaN => false
  | Infinity neg => negb neg
  end.

(** The order of the numbers that are not [NaN]. *)
Definition num_le (x y : number) : Prop :=
  match x, y with
  | NaN, _ | _, NaN => False
  | Infinity true, _ | _, Infinity false => True
  | Finite a, Finite b => (a <= b)%Q
  | _, _ => False
  end.

(** What the rounding of the runtime is known to do: it keeps the order,
    and it is exact on a number that is a double. *)
Definition monotone (fl : Q -> number) : Prop :=
  forall a b : Q, (a <= b)%Q -> num_le (fl a) (fl b).

Definition exact_at (fl : Q -> number) (q : Q) : Prop :=
  exists q', fl q = Finite q' /\ (q' == q)%Q.

(** What the rounding of the runtime does on the integers: one of at
    most 53 bits is a double, so it is kept as it is. *)
Definition exact_on_integers (fl : Q -> number) : Prop :=
  forall (q : Q) (z : Z),
    (q == inject_Z z)%Q -> (Z.abs z <= 2 ^ 53)%Z -> exact_at fl q.

(** * The doubles of the runtime

    The rounding of a rational to the nearest double (IEEE 754 binary64,
    ties to the even significand), the rendering of a double as
    [Number::toString] defines it, and the reading of a JSON number.  A
    finite double is the rational it stands for, written in lowest terms;
    the two zeros are not told apart. *)
Module Binary64.

Local Open Scope Z_scope.

(** [b ^ e] as a rational, for any integer [e]. *)
Definition power (b e : Z) : Q := (inject_Z b ^ e)%Q.

(** [floor (log2 q)] for [q > 0]. *)
Definition ilog2 (q : Q) : Z :=
  let e := Z.log2 (Qnum q) - Z.log2 (Zpos (Qden q)) in
  if Qle_bool (power 2 e) q then e else e - 1.

(** The nearest integer; of two at the same distance, the even one. *)
Definition round_half_even (q : Q) : Z :=
  let f := Qfloor q in
  match Qcompare (q - inject_Z f) (1 # 2) with
  | Lt => f
  | Gt => f + 1
  | Eq => if Z.even f then f else f + 1
  end.

(** The nearest multiple of the unit in the last place of [q > 0]: 53
    bits of significand, exponents from -1022 on (below, the numbers are
    subnormal and the unit stays 2^-1074). *)
Definition rounded (q : Q) : Q :=
  let e := Z.max (ilog2 q) (-1022) in
  (inject_Z (round_half_even (q / power 2 (e - 52))) * power 2 (e - 52))%Q.

(** From 2^1024 on the result is an infinity. *)
Definition round_positive (q : Q) : number :=
  let r := Qred (rounded q) in
  if Qle_bool (power 2 1024) r then Infinity false else Finite r.

Definition binary64 (q : Q) : number :=
  match Qcompare q 0 with
  | Eq => Finite 0
  | Gt => round_positive (Qred q)
  | Lt => js_neg (round_positive (Qred (- q)))
  end.

(** The rationals that are doubles, and the double nearest to a rational
    within range. *)
Definition representable (q : Q) : Prop := binary64 q = Finite q.

Definition nearest (q : Q) : Q :=
  match binary64 q with
  | Finite r => r
  | _ => 0%Q
  end.

(** ** [Number::toString] *)

Definition digit (d : Z) : ascii := ascii_of_nat (Z.to_nat (48 + d)).

(** The decimal digits of an integer [z >= 0], without leading zeros. *)
Fixpoint natural_aux (fuel : nat) (z : Z) : list ascii :=
  match fuel with
  | O => []
  | S f =>
      if z <? 10 then [digit z]
      else natural_aux f (z / 10) ++ [digit (z mod 10)]
  end.

Definition natural (z : Z) : list ascii :=
  natural_aux (S (Z.to_nat (Z.log2 z))) z.

(** The number of decimal digits of [z]: the [k] of [Number::toString]. *)
Definition places (z : Z) : Z := Z.of_nat (List.length (natural z)).

(** The digits [s] and the position [n] of the decimal point stand for
    [s * 10 ^ (n - k)], where [k] is the number of digits of [s]. *)
Definition denotes (c : Z * Z) : Q :=
  (inject_Z (fst c) * power 10 (snd c - places (fst c)))%Q.

(** The four shapes of the rendering: the digits followed by zeros; the
    digits with a point among them; a zero, a point, zeros and the
    digits; the exponent form. *)
Definition render (s n : Z) : list ascii :=
  let ds := natural s in
  let k := places s in
  if (k <=? n) && (n <=? 21) then ds ++ repeat "0"%char (Z.to_nat (n - k))
  else if (0 <? n) && (n <=? 21) then
    firstn (Z.to_nat n) ds ++ "."%char :: skipn (Z.to_nat n) ds
  else if (-6 <? n) && (n <=? 0) then
    "0"%char :: "."%char :: repeat "0"%char (Z.to_nat (- n)) ++ ds
  else
    let e := n - 1 in
    let exponent :=
      "e"%char :: (if e <? 0 then "-"%char else "+"%char) :: natural (Z.abs e) in
    if k =? 1 then ds ++ exponent
    else firstn 1 ds ++ "."%char :: skipn 1 ds ++ exponent.

(** Whether the decimal that [c] stands for rounds to the double [q]. *)
Definition rounds_to (q : Q) (c : Z * Z) : bool :=
  (0 <? fst c)
  && match binary64 (denotes c) with
     | Finite r => Qeq_bool r q
     | _ => false
     end.

(** The [n] with [10 ^ (n - 1) <= q < 10 ^ n], for [q > 0]. *)
Definition magnitude (q : Q) : Z :=
  if Qle_bool 1 q then places (Qfloor q)
  else 1 - places (Qceiling (/ q) - 1).

(** The two decimals of [k] digits next to [q], the nearer one first (of
    two at the same distance, the even one first). *)
Definition candidates (q : Q) (n k : Z) : list (Z * Z) :=
  let scaled := (q / power 10 (n - k))%Q in
  let below := Qfloor scaled in
  let above := below + 1 in
  let carry := fun s => if s =? 10 ^ k then (10 ^ (k - 1), n + 1) else (s, n) in
  List.map carry
    match Qcompare (scaled - inject_Z below) (1 # 2) with
    | Lt => [below; above]
    | Gt => [above; below]
    | Eq => if Z.even below then [below; above] else [above; below]
    end.

(** The shortest decimal that rounds to [q]: with as few digits as
    possible, from one digit on. *)
Fixpoint shortest (fuel : nat) (q : Q) (n k : Z) : option (Z * Z) :=
  match fuel with
  | O => None
  | S f =>
      match find (rounds_to q) (candidates q n k) with
      | Some c => Some c
      | None => shortest f q n (k + 1)
      end
  end.

(** The decimal expansion of a double in full. *)
Definition exact (q : Q) : Z * Z :=
  let j := Z.log2 (Zpos (Qden q)) in
  let s := Qnum q * 5 ^ j in
  (s, places s - j).

(** Seventeen digits tell any two doubles apart, so the search ends by
    then; the expansion in full stands behind it. *)
Definition digits (q : Q) : Z * Z :=
  match shortest 17 q (magnitude q) 1 with
  | Some c => c
  | None => exact q
  end.

Definition Number_toString (q : Q) : string :=
  string_of_list_ascii
    match Qcompare q 0 with
    | Eq => ["0"%char]
    | Gt => let '(s, n) := digits q in render s n
    | Lt => "-"%char :: let '(s, n) := digits (- q) in render s n
    end.

(** ** Reading a JSON number *)

Definition digit_value (c : ascii) : option Z :=
  let n := Z.of_nat (nat_of_ascii c) in
  if (48 <=? n) && (n <=? 57) then Some (n - 48) else None.

Fixpoint digits_value (acc : Z) (l : list ascii) : option Z :=
  match l with
  | [] => Some acc
  | c :: r =>
      match digit_value c with
      | Some d => digits_value (acc * 10 + d) r
      | None => None
      end
  end.

Definition is_digit (c : ascii) : bool :=
  match digit_value c with
  | Some _ => true
  | None => false
  end.

Fixpoint span_digits (l : list ascii) : list ascii * list ascii :=
  match l with
  | [] => ([], [])
  | c :: r =>
      if is_digit c then let '(ds, rest) := span_digits r in (c :: ds, rest)
      else ([], l)
  end.

Definition some_digits (l : list ascii) : option Z :=
  match l with
  | [] => None
  | _ => digits_value 0 l
  end.

(** The integer part: one digit, or several that do not start with 0. *)
Definition integer_part (ds : list ascii) : bool :=
  match ds with
  | [] => false
  | [_] => true
  | c :: _ => negb (Ascii.eqb c "0")
  end.

(** The fraction, when there is a point: at least one digit. *)
Definition fraction_part (l : list ascii) : option (list ascii * list ascii) :=
  match l with
  | c :: r =>
      if Ascii.eqb c "." then
        match span_digits r with
        | ([], _) => None
        | (fs, rest) => Some (fs, rest)
        end
      else Some ([], l)
  | [] => Some ([], [])
  end.

(** The exponent, when there is one, up to the end of the token. *)
Definition exponent_part (l : list ascii) : option Z :=
  match l with
  | [] => Some 0
  | c :: r =>
      if Ascii.eqb c "e" || Ascii.eqb c "E" then
        match r with
        | s :: ds =>
            if Ascii.eqb s "-" then option_map Z.opp (some_digits ds)
            else if Ascii.eqb s "+" then some_digits ds
            else some_digits r
        | [] => None
        end
      else None
  end.

(** The decimal that an unsigned JSON number spells. *)
Definition decimal (l : list ascii) : option Q :=
  let '(ds, r1) := span_digits l in
  if integer_part ds then
    match fraction_part r1 with
    | Some (fs, r2) =>
        match exponent_part r2, digits_value 0 (ds ++ fs) with
        | Some e, Some m =>
            Some (inject_Z m * power 10 (e - Z.of_nat (List.length fs)))%Q
        | _, _ => None
        end
    | None => None
    end
  else None.

Definition finite (x : number) : option Q :=
  match x with
  | Finite q => Some q
  | _ => None
  end.

(** The double that a JSON number reads as: the one nearest to the
    decimal it spells.  [None] for what is not a JSON number.  A numeral
    beyond the range of the doubles reads as an infinity in the runtime;
    the JSON values of the model have no place for one, and it is [None]
    here as well ([JSON.stringify] never writes such a numeral). *)
Definition StringToNumber (tok : string) : option Q :=
  match list_ascii_of_string tok with
  | c :: r =>
      if Ascii.eqb c "-" then
        match decimal r with
        | Some v => finite (js_neg (binary64 v))
        | None => None
        end
      else
        match decimal (c :: r) with
        | Some v => finite (binary64 v)
        | None => None
        end
  | [] => None
  end.

(** *** What a rendering is made of

    The tail of a token after its digits is nothing or an exponent; a
    token is an integer part, an optional fraction and that tail, and it
    spells a decimal. *)
Inductive exponent_of : list ascii -> Z -> Prop :=
| no_exponent : exponent_of [] 0
| positive_exponent a :
    0 <= a -> exponent_of ("e"%char :: "+"%char :: natural a) a
| negative_exponent a :
    0 <= a -> exponent_of ("e"%char :: "-"%char :: natural a) (- a).

Inductive spells : list ascii -> Q -> Prop :=
| spells_plain ds tail e m :
    Forall (fun c => is_digit c = true) ds -> integer_part ds = true ->
    exponent_of tail e -> digits_value 0 ds = Some m ->
    spells (ds ++ tail) (inject_Z m * power 10 e)%Q
| spells_point ds fs tail e m :
    Forall (fun c => is_digit c = true) ds -> integer_part ds = true ->
    Forall (fun c => is_digit c = true) fs -> fs <> [] ->
    exponent_of tail e -> digits_value 0 (ds ++ fs) = Some m ->
    spells (ds ++ "."%char :: fs ++ tail)
           (inject_Z m * power 10 (e - Z.of_nat (List.length fs)))%Q.

End Binary64.

Module UseWebSocket.

Local Open Scope Z_scope.

(** ** Message vocabulary *)

Inductive MessageType : Set :=
| MT_auth | MT_subscribe | MT_unsubscribe | MT_ping | MT_get_usage
| MT_get_agent_status | MT_auth_result | MT_pong | MT_usage_update
| MT_agent_status | MT_quota_warning | MT_license_change
| MT_activity_feed | MT_layer_routing | MT_alert | MT_error.

Inductive SubscriptionType : Set :=
| usage_updates | agent_status | quota_warnings | license_changes
| activity_feed | layer_routing | alerts.

Definition SubscriptionType_eq_dec (a b : SubscriptionType) : {a = b} + {a <> b}.
Proof. decide equality. Defined.

(** The [data] of an [auth_result] message, as the handler reads it:
    [ad_success] is the truthiness of [data.success]. *)
Record AuthData : Set := {
  ad_success : bool;
  ad_user_id : option string;
  ad_role : option string;
  ad_tier : option string;
  ad_permissions : option (list string);
  ad_error : option string
}.

(** [data] is [any] in the source; these are the shapes the hook itself
    builds or inspects, every other payload is opaque. *)
Inductive Payload : Set :=
| PAuth (api_key : string) (user_id : option string)
| PSubscriptions (subscriptions : list SubscriptionType)
| PAuthResult (a : AuthData)
| POpaque (raw : string).

Record WebSocketMessage : Set := {
  msg_type : option MessageType;
  msg_id : option string;
  msg_timestamp : string;
  msg_data : option Payload;
  msg_error : option string;
  msg_success : option bool
}.

(** [Partial<WebSocketMessage>]: [None] is an absent property. *)
Record PartialMessage : Set := {
  p_type : option MessageType;
  p_id : option string;
  p_timestamp : option string;
  p_data : option Payload;
  p_error : option string;
  p_success : option bool
}.

Definition partial (t : MessageType) (d : option Payload) : PartialMessage :=
  {| p_type := Some t; p_id := None; p_timestamp := None; p_data := d;
     p_error := None; p_success := None |}.

(** ** Connection state *)

Record UserInfo : Set := {
  userId : option string;
  role : option string;
  tier : option string;
  permissions : option (list string)
}.

Record ConnectionState : Set := {
  connected : bool;
  authenticated : bool;
  connecting : bool;
  error : option string;
  lastPong : option Z;
  retryCount : nat;
  userInfo : option UserInfo
}.

Definition initialState : ConnectionState :=
  {| connected := false; authenticated := false; connecting := false;
     error := None; lastPong := None; retryCount := 0%nat; userInfo := None |}.

Record UseWebSocketOptions : Set := {
  url : string;
  apiKey : string;
  opt_userId : option string;
  autoConnect : bool;
  reconnectInterval : Z;
  maxReconnectAttempts : Z;
  pingInterval : Z;
  subscriptions : list SubscriptionType
}.

Definition DEFAULT_OPTIONS (key : string) (uid : option string) : UseWebSocketOptions :=
  {| url := "ws://localhost:8080/ws"; apiKey := key; opt_userId := uid;
     autoConnect := true; reconnectInterval := 5000;
     maxReconnectAttempts := 10; pingInterval := 30000;
     subscriptions := [alerts] |}.

(** ** The hook's cells and its effects *)

(** A socket made by [io(...)].  [sock_connected] is the socket's own
    [connected] property; [sock_render] is the render snapshot captured by
    the handlers that [connect] registered on it. *)
Record Socket : Set := {
  sock_id : nat;
  sock_connected : bool;
  sock_render : ConnectionState
}.

Inductive Callback : Set :=
| onConnect
| onDisconnect
| onError (e : string)
| onAuthenticated (a : option Payload)
| onMessage (m : WebSocketMessage).

Inductive Effect : Set :=
| Emit (sock : nat) (m : WebSocketMessage)
| IoOpen (sock : nat) (u : string)
| SocketDisconnect (sock : nat)
| SetTimeout (timer : nat) (delay : number)
| ClearTimeout (timer : nat)
| SetInterval (timer : nat) (ms : Z)
| ClearInterval (timer : nat)
| Call (c : Callback).

Record Hook : Set := {
  connectionState : ConnectionState;
  socketRef : option Socket;
  reconnectTimeoutRef : option nat;
  pingIntervalRef : option nat;
  messageQueueRef : list WebSocketMessage;
  pendingSubscriptionsRef : list SubscriptionType;
  trace : list Effect;
  fresh : nat;
  tick : nat
}.

Definition useWebSocket_init (opts : UseWebSocketOptions) : Hook :=
  {| connectionState := initialState; socketRef := None;
     reconnectTimeoutRef := None; pingIntervalRef := None;
     messageQueueRef := []; pendingSubscriptionsRef := subscriptions opts;
     trace := []; fresh := 0%nat; tick := 0%nat |}.

(** Cell updates. *)
Definition setConnectionState (f : ConnectionState -> ConnectionState) (h : Hook) : Hook :=
  {| connectionState := f (connectionState h); socketRef := socketRef h;
     reconnectTimeoutRef := reconnectTimeoutRef h;
     pingIntervalRef := pingIntervalRef h;
     messageQueueRef := messageQueueRef h;
     pendingSubscriptionsRef := pendingSubscriptionsRef h;
     trace := trace h; fresh := fresh h; tick := tick h |}.

Definition set_socketRef (s : option Socket) (h : Hook) : Hook :=
  {| connectionState := connectionState h; socketRef := s;
     reconnectTimeoutRef := reconnectTimeoutRef h;
     pingIntervalRef := pingIntervalRef h;
     messageQueueRef := messageQueueRef h;
     pendingSubscriptionsRef := pendingSubscriptionsRef h;
     trace := trace h; fresh := fresh h; tick := tick h |}.

Definition set_reconnectTimeoutRef (t : option nat) (h : Hook) : Hook :=
  {| connectionState := connectionState h; socketRef := socketRef h;
     reconnectTimeoutRef := t;
     pingIntervalRef := pingIntervalRef h;
     messageQueueRef := messageQueueRef h;
     pendingSubscriptionsRef := pendingSubscriptionsRef h;
     trace := trace h; fresh := fresh h; tick := tick h |}.

Definition set_pingIntervalRef (t : option nat) (h : Hook) : Hook :=
  {| connectionState := connectionState h; socketRef := socketRef h;
     reconnectTimeoutRef := reconnectTimeoutRef h;
     pingIntervalRef := t;
     messageQueueRef := messageQueueRef h;
     pendingSubscriptionsRef := pendingSubscriptionsRef h;
     trace := trace h; fresh := fresh h; tick := tick h |}.

Definition set_messageQueueRef (q : list WebSocketMessage) (h : Hook) : Hook :=
  {| connectionState := connectionState h; socketRef := socketRef h;
     reconnectTimeoutRef := reconnectTimeoutRef h;
     pingIntervalRef := pingIntervalRef h;
     messageQueueRef := q;
     pendingSubscriptionsRef := pendingSubscriptionsRef h;
     trace := trace h; fresh := fresh h; tick := tick h |}.

Definition set_pendingSubscriptionsRef (p : list SubscriptionType) (h : Hook) : Hook :=
  {| connectionState := connectionState h; socketRef := socketRef h;
     reconnectTimeoutRef := reconnectTimeoutRef h;
     pingIntervalRef := pingIntervalRef h;
     messageQueueRef := messageQueueRef h;
     pendingSubscriptionsRef := p;
     trace := trace h; fresh := fresh h; tick := tick h |}.

Definition perform (e : Effect) (h : Hook) : Hook :=
  {| connectionState := connectionState h; socketRef := socketRef h;
     reconnectTimeoutRef := reconnectTimeoutRef h;
     pingIntervalRef := pingIntervalRef h;
     messageQueueRef := messageQueueRef h;
     pendingSubscriptionsRef := pendingSubscriptionsRef h;
     trace := trace h ++ [e]; fresh := fresh h; tick := tick h |}.

(** A new timer or socket handle. *)
Definition alloc (h : Hook) : nat * Hook :=
  (fresh h,
   {| connectionState := connectionState h; socketRef := socketRef h;
      reconnectTimeoutRef := reconnectTimeoutRef h;
      pingIntervalRef := pingIntervalRef h;
      messageQueueRef := messageQueueRef h;
      pendingSubscriptionsRef := pendingSubscriptionsRef h;
      trace := trace h; fresh := S (fresh h); tick := tick h |}).

(** One read of the clock (or of the random source). *)
Definition tock (h : Hook) : nat * Hook :=
  (tick h,
   {| connectionState := connectionState h; socketRef := socketRef h;
      reconnectTimeoutRef := reconnectTimeoutRef h;
      pingIntervalRef := pingIntervalRef h;
      messageQueueRef := messageQueueRef h;
      pendingSubscriptionsRef := pendingSubscriptionsRef h;
      trace := trace h; fresh := fresh h; tick := S (tick h) |}).

(** The envelopes put on the wire, in order. *)
Fixpoint emitted (t : list Effect) : list WebSocketMessage :=
  match t with
  | [] => []
  | Emit _ m :: t' => m :: emitted t'
  | _ :: t' => emitted t'
  end.

(** The delays of the reconnect timers armed, in order. *)
Fixpoint timeouts (t : list Effect) : list number :=
  match t with
  | [] => []
  | SetTimeout _ d :: t' => d :: timeouts t'
  | _ :: t' => timeouts t'
  end.

(** [[...new Set(l)]]: duplicates dropped, first occurrences kept in order. *)
Fixpoint uniq_from (seen l : list SubscriptionType) : list SubscriptionType :=
  match l with
  | [] => []
  | x :: l' =>
      if in_dec SubscriptionType_eq_dec x seen then uniq_from seen l'
      else x :: uniq_from (x :: seen) l'
  end.

Definition uniq (l : list SubscriptionType) : list SubscriptionType :=
  uniq_from [] l.

(** ** The callbacks of the hook *)

Section Callbacks.

(** [opts]: the options merged over the defaults. *)
Variable opts : UseWebSocketOptions.

(** The runtime: the n-th read of the clock, the n-th random fragment,
    ISO rendering of an instant, whether [socket.emit] throws, and whether
    [io(...)] throws (with the message the catch clause records). *)
Variable Date_now : nat -> Z.
Variable Math_random : nat -> string.
Variable toISOString : Z -> string.
Variable emit_throws : nat -> WebSocketMessage -> bool.
Variable io_throws : option string.

Definition generateMessageId (n : nat) : string :=
  "msg_" ++ string_of_Z (Date_now n) ++ "_" ++ Math_random n.

(** The object literal at the head of [sendMessage]: [message.id ||
    generateMessageId()] and a fresh timestamp, then every property that
    [message] carries written over them by the spread. *)
Definition fullMessage (message : PartialMessage) (h : Hook) : WebSocketMessage * Hook :=
  let '(gen, h1) :=
    match p_id message with
    | Some i =>
        if truthy i then (None, h)
        else let '(n, h') := tock h in (Some (generateMessageId n), h')
    | None => let '(n, h') := tock h in (Some (generateMessageId n), h')
    end in
  let '(n, h2) := tock h1 in
  ({| msg_type := p_type message;
      msg_id := match p_id message with Some i => Some i | None => gen end;
      msg_timestamp :=
        match p_timestamp message with
        | Some t => t
        | None => toISOString (Date_now n)
        end;
      msg_data := p_data message;
      msg_error := p_error message;
      msg_success := p_success message |}, h2).

Definition enqueue (m : WebSocketMessage) (h : Hook) : Hook :=
  set_messageQueueRef (messageQueueRef h ++ [m]) h.

(** [socketRef.current.emit('message', m)] inside its try/catch. *)
Definition try_emit (s : Socket) (m : WebSocketMessage) (h : Hook) : Hook :=
  if emit_throws (sock_id s) m then enqueue m h
  else perform (Emit (sock_id s) m) h.

Definition sendMessage (r : ConnectionState) (message : PartialMessage) (h : Hook) : Hook :=
  let '(m, h1) := fullMessage message h in
  match socketRef h1 with
  | Some s => if connected r then try_emit s m h1 else enqueue m h1
  | None => enqueue m h1
  end.

Definition processMessageQueue (r : ConnectionState) (h : Hook) : Hook :=
  match socketRef h with
  | Some s =>
      if connected r && (0 <? Z.of_nat (List.length (messageQueueRef h))) then
        let queue := messageQueueRef h in
        fold_left (fun acc m => try_emit s m acc) queue (set_messageQueueRef [] h)
      else h
  | None => h
  end.

Definition authenticate (r : ConnectionState) (key : string) (uid : option string) (h : Hook) : Hook :=
  sendMessage r (partial MT_auth (Some (PAuth key uid))) h.

Definition subscribe (r : ConnectionState) (subs : list SubscriptionType) (h : Hook) : Hook :=
  if authenticated r then
    sendMessage r (partial MT_subscribe (Some (PSubscriptions subs))) h
  else
    set_pendingSubscriptionsRef (uniq (pendingSubscriptionsRef h ++ subs)) h.

Definition unsubscribe (r : ConnectionState) (subs : list SubscriptionType) (h : Hook) : Hook :=
  sendMessage r (partial MT_unsubscribe (Some (PSubscriptions subs))) h.

Definition getUsage (r : ConnectionState) (h : Hook) : Hook :=
  sendMessage r (partial MT_get_usage None) h.

Definition getAgentStatus (r : ConnectionState) (h : Hook) : Hook :=
  sendMessage r (partial MT_get_agent_status None) h.

Definition ping (r : ConnectionState) (h : Hook) : Hook :=
  sendMessage r (partial MT_ping None) h.

(** [opts.maxReconnectAttempts || 10]. *)
Definition maxAttempts : Z :=
  if maxReconnectAttempts opts =? 0 then 10 else maxReconnectAttempts opts.

(** [Math.min(opts.reconnectInterval * Math.pow(2, retryCount), 30000)]:
    the value handed to [setTimeout]. *)
Definition reconnectDelay (k : nat) : number :=
  Math_min (times_pow2 (reconnectInterval opts) (Math_pow2 k)) (Finite 30000).

Definition clearReconnectTimeout (h : Hook) : Hook :=
  match reconnectTimeoutRef h with
  | Some t => set_reconnectTimeoutRef None (perform (ClearTimeout t) h)
  | None => h
  end.

Definition clearPingInterval (h : Hook) : Hook :=
  match pingIntervalRef h with
  | Some t => set_pingIntervalRef None (perform (ClearInterval t) h)
  | None => h
  end.

(** [socket.on('connect', ...)]. *)
Definition handle_connect (r : ConnectionState) (h : Hook) : Hook :=
  let h1 := setConnectionState (fun prev =>
    {| connected := true; authenticated := authenticated prev;
       connecting := false; error := None; lastPong := lastPong prev;
       retryCount := 0%nat; userInfo := userInfo prev |}) h in
  let h2 := clearReconnectTimeout h1 in
  let h3 :=
    if 0 <? pingInterval opts then
      let '(t, h') := alloc h2 in
      set_pingIntervalRef (Some t) (perform (SetInterval t (pingInterval opts)) h')
    else h2 in
  let h4 := authenticate r (apiKey opts) (opt_userId opts) h3 in
  let h5 := processMessageQueue r h4 in
  perform (Call onConnect) h5.

(** [socket.on('disconnect', reason => ...)]. *)
Definition handle_disconnect (r : ConnectionState) (reason : string) (h : Hook) : Hook :=
  let h1 := setConnectionState (fun prev =>
    {| connected := false; authenticated := false; connecting := false;
       error := error prev; lastPong := lastPong prev;
       retryCount := retryCount prev; userInfo := userInfo prev |}) h in
  let h2 := clearPingInterval h1 in
  let h3 := perform (Call onDisconnect) h2 in
  if negb (String.eqb reason "io client disconnect")
     && (Z.of_nat (retryCount r) <? maxAttempts) then
    let delay := reconnectDelay (retryCount r) in
    let '(t, h4) := alloc h3 in
    set_reconnectTimeoutRef (Some t) (perform (SetTimeout t delay) h4)
  else h3.

(** [socket.on('connect_error', error => ...)]. *)
Definition handle_connect_error (err : string) (h : Hook) : Hook :=
  let h1 := setConnectionState (fun prev =>
    {| connected := false; authenticated := authenticated prev;
       connecting := false; error := Some err; lastPong := lastPong prev;
       retryCount := retryCount prev; userInfo := userInfo prev |}) h in
  perform (Call (onError err)) h1.

Definition authDataOf (message : WebSocketMessage) : option AuthData :=
  match msg_data message with
  | Some (PAuthResult a) => Some a
  | _ => None
  end.

(** The [auth_result] branch of the message handler. *)
Definition handle_auth_result (r : ConnectionState) (message : WebSocketMessage) (h : Hook) : Hook :=
  match authDataOf message with
  | Some a =>
      if ad_success a then
        let h1 := setConnectionState (fun prev =>
          {| connected := connected prev; authenticated := true;
             connecting := connecting prev; error := error prev;
             lastPong := lastPong prev; retryCount := retryCount prev;
             userInfo := Some {| userId := ad_user_id a; role := ad_role a;
                                 tier := ad_tier a;
                                 permissions := ad_permissions a |} |}) h in
        let h2 :=
          if 0 <? Z.of_nat (List.length (pendingSubscriptionsRef h1)) then
            set_pendingSubscriptionsRef []
              (subscribe r (pendingSubscriptionsRef h1) h1)
          else h1 in
        perform (Call (onAuthenticated (msg_data message))) h2
      else
        setConnectionState (fun prev =>
          {| connected := connected prev; authenticated := false;
             connecting := connecting prev;
             error := Some (or_else (ad_error a) "Authentication failed");
             lastPong := lastPong prev; retryCount := retryCount prev;
             userInfo := userInfo prev |}) h
  | None =>
      setConnectionState (fun prev =>
        {| connected := connected prev; authenticated := false;
           connecting := connecting prev;
           error := Some "Authentication failed"%string;
           lastPong := lastPong prev; retryCount := retryCount prev;
           userInfo := userInfo prev |}) h
  end.

(** [socket.on('message', message => ...)]. *)
Definition handle_message (r : ConnectionState) (message : WebSocketMessage) (h : Hook) : Hook :=
  let h1 :=
    match msg_type message with
    | Some MT_pong =>
        let '(n, h') := tock h in
        setConnectionState (fun prev =>
          {| connected := connected prev; authenticated := authenticated prev;
             connecting := connecting prev; error := error prev;
             lastPong := Some (Date_now n); retryCount := retryCount prev;
             userInfo := userInfo prev |}) h'
    | _ => h
    end in
  let h2 :=
    match msg_type message with
    | Some MT_auth_result => handle_auth_result r message h1
    | _ => h1
    end in
  let h3 :=
    match msg_type message with
    | Some MT_error =>
        setConnectionState (fun prev =>
          {| connected := connected prev; authenticated := authenticated prev;
             connecting := connecting prev;
             error := Some (or_else (msg_error message) "Server error");
             lastPong := lastPong prev; retryCount := retryCount prev;
             userInfo := userInfo prev |}) h2
    | _ => h2
    end in
  perform (Call (onMessage message)) h3.

(** [connect]: the handlers it registers on the new socket close over the
    render [r] in which this [connect] was created. *)
Definition connect (r : ConnectionState) (h : Hook) : Hook :=
  let already :=
    match socketRef h with
    | Some s => sock_connected s
    | None => false
    end in
  if already then h
  else
    let h1 := setConnectionState (fun prev =>
      {| connected := connected prev; authenticated := authenticated prev;
         connecting := true; error := None; lastPong := lastPong prev;
         retryCount := retryCount prev; userInfo := userInfo prev |}) h in
    match io_throws with
    | None =>
        let '(s, h2) := alloc h1 in
        set_socketRef
          (Some {| sock_id := s; sock_connected := false; sock_render := r |})
          (perform (IoOpen s (url opts)) h2)
    | Some e =>
        let h2 := setConnectionState (fun prev =>
          {| connected := connected prev; authenticated := authenticated prev;
             connecting := false; error := Some e; lastPong := lastPong prev;
             retryCount := retryCount prev; userInfo := userInfo prev |}) h1 in
        perform (Call (onError e)) h2
    end.

(** The callback armed by the disconnect handler's [setTimeout]. *)
Definition reconnect_timer (r : ConnectionState) (h : Hook) : Hook :=
  connect r (setConnectionState (fun prev =>
    {| connected := connected prev; authenticated := authenticated prev;
       connecting := connecting prev; error := error prev;
       lastPong := lastPong prev; retryCount := S (retryCount prev);
       userInfo := userInfo prev |}) h).

(** [socket.disconnect()]: a connected socket reports its own closing to
    the registered disconnect handler, with reason 'io client disconnect',
    before the call returns. *)
Definition socket_disconnect (s : Socket) (h : Hook) : Hook :=
  let h1 := perform (SocketDisconnect (sock_id s)) h in
  if sock_connected s then
    handle_disconnect (sock_render s) "io client disconnect" h1
  else h1.

Definition disconnect (h : Hook) : Hook :=
  let h1 := clearReconnectTimeout h in
  let h2 := clearPingInterval h1 in
  let h3 :=
    match socketRef h2 with
    | Some s => set_socketRef None (socket_disconnect s h2)
    | None => h2
    end in
  setConnectionState (fun _ => initialState) h3.

(** The socket's own events: the library flips [connected] on the socket
    and runs the handler registered by [connect]. *)
Definition socket_connected (s : Socket) (b : bool) : Socket :=
  {| sock_id := sock_id s; sock_connected := b; sock_render := sock_render s |}.

Definition event_connect (h : Hook) : Hook :=
  match socketRef h with
  | Some s =>
      handle_connect (sock_render s) (set_socketRef (Some (socket_connected s true)) h)
  | None => h
  end.

Definition event_disconnect (reason : string) (h : Hook) : Hook :=
  match socketRef h with
  | Some s =>
      handle_disconnect (sock_render s) reason
        (set_socketRef (Some (socket_connected s false)) h)
  | None => h
  end.

Definition event_message (message : WebSocketMessage) (h : Hook) : Hook :=
  match socketRef h with
  | Some s => handle_message (sock_render s) message h
  | None => h
  end.

(** The second component of what the hook returns: the callbacks of one
    render, as an object. *)
Record WebSocketActions : Set := {
  act_connect : Hook -> Hook;
  act_disconnect : Hook -> Hook;
  act_authenticate : string -> option string -> Hook -> Hook;
  act_subscribe : list SubscriptionType -> Hook -> Hook;
  act_unsubscribe : list SubscriptionType -> Hook -> Hook;
  act_sendMessage : PartialMessage -> Hook -> Hook;
  act_getUsage : Hook -> Hook;
  act_getAgentStatus : Hook -> Hook;
  act_ping : Hook -> Hook
}.

Definition actions (r : ConnectionState) : WebSocketActions :=
  {| act_connect := connect r;
     act_disconnect := disconnect;
     act_authenticate := authenticate r;
     act_subscribe := subscribe r;
     act_unsubscribe := unsubscribe r;
     act_sendMessage := sendMessage r;
     act_getUsage := getUsage r;
     act_getAgentStatus := getAgentStatus r;
     act_ping := ping r |}.

(** A script of calls on the outbound path, each made from some render. *)
Inductive Outbound : Set :=
| call_sendMessage (r : ConnectionState) (message : PartialMessage)
| call_processMessageQueue (r : ConnectionState).

Definition outbound (c : Outbound) (h : Hook) : Hook :=
  match c with
  | call_sendMessage r message => sendMessage r message h
  | call_processMessageQueue r => processMessageQueue r h
  end.

Definition isSend (c : Outbound) : bool :=
  match c with
  | call_sendMessage _ _ => true
  | call_processMessageQueue _ => false
  end.

(** Envelopes on the wire plus envelopes waiting. *)
Definition accounted (h : Hook) : nat :=
  (List.length (emitted (trace h)) + List.length (messageQueueRef h))%nat.

(** What a step leaves alone on the transport side: the socket, both
    timers, the flags and counter that the transport events own, and the
    list of reconnect timers armed. *)
Definition keepsTransport (h h' : Hook) : Prop :=
  socketRef h' = socketRef h /\
  reconnectTimeoutRef h' = reconnectTimeoutRef h /\
  pingIntervalRef h' = pingIntervalRef h /\
  connected (connectionState h') = connected (connectionState h) /\
  connecting (connectionState h') = connecting (connectionState h) /\
  retryCount (connectionState h') = retryCount (connectionState h) /\
  timeouts (trace h') = timeouts (trace h).


(** One round of an unstable link: the socket connects, drops with the
    given reason, and the reconnect timer, if the disconnect handler armed
    one, fires.  Handlers and timer are those of the render in which the
    socket's [connect] was created. *)
Definition drop_and_retry (reason : string) (h : Hook) : Hook :=
  match socketRef h with
  | Some s =>
      let h1 := event_disconnect reason (event_connect h) in
      match reconnectTimeoutRef h1 with
      | Some _ => reconnect_timer (sock_render s) h1
      | None => h1
      end
  | None => h
  end.

(** What happens on a socket by itself, without a call from the
    component: its own events, a tick of the ping interval, the reconnect
    timer firing.  The interval and the timer were set by the handlers of
    the socket's render and call [ping] and [connect] of that render. *)
Inductive SocketEvent : Set :=
| ev_connect
| ev_disconnect (reason : string)
| ev_message (message : WebSocketMessage)
| ev_ping
| ev_reconnect.

Definition socket_step (e : SocketEvent) (h : Hook) : Hook :=
  match e with
  | ev_connect => event_connect h
  | ev_disconnect reason => event_disconnect reason h
  | ev_message message => event_message message h
  | ev_ping =>
      match socketRef h, pingIntervalRef h with
      | Some s, Some _ => ping (sock_render s) h
      | _, _ => h
      end
  | ev_reconnect =>
      match socketRef h, reconnectTimeoutRef h with
      | Some s, Some _ => reconnect_timer (sock_render s) h
      | _, _ => h
      end
  end.

(** A step that puts nothing on the wire, only lengthens the queue, and
    leaves a socket of the same render in place. *)
Definition silent (r : ConnectionState) (h h' : Hook) : Prop :=
  emitted (trace h') = emitted (trace h) /\
  (exists added, messageQueueRef h' = messageQueueRef h ++ added) /\
  (forall s, socketRef h = Some s -> sock_render s = r ->
     exists s', socketRef h' = Some s' /\ sock_render s' = r).

(** The two effects of the hook: connect on mount (and disconnect on
    cleanup), and subscribe to the configured topics once authenticated. *)
Definition effect_mount (r : ConnectionState) (h : Hook) : Hook :=
  if autoConnect opts && truthy (apiKey opts) then connect r h else h.

Definition effect_cleanup (h : Hook) : Hook := disconnect h.

Definition effect_authenticated (r : ConnectionState) (h : Hook) : Hook :=
  if authenticated r && (0 <? Z.of_nat (List.length (subscriptions opts))) then
    subscribe r (subscriptions opts) h
  else h.

End Callbacks.

(** The spec's Disconnected state: the flags as the disconnect handler
    leaves them. *)
Definition isDisconnected (c : ConnectionState) : bool :=
  negb (connected c) && negb (authenticated c) && negb (connecting c).

(** ** A concrete runtime and concrete states, for trying the callbacks *)

Definition demo_opts : UseWebSocketOptions := DEFAULT_OPTIONS "corso_key" None.
Definition demo_now (n : nat) : Z := 1700000000000 + Z.of_nat n.
Definition demo_random (_ : nat) : string := "k3x9q2m1z"%string.
Definition demo_iso (z : Z) : string := string_of_Z z.
Definition never_throws (_ : nat) (_ : WebSocketMessage) : bool := false.

(** A render in which the transport is up and authentication has not
    happened yet, and the hook as it is then. *)
Definition r_connected : ConnectionState :=
  {| connected := true; authenticated := false; connecting := false;
     error := None; lastPong := None; retryCount := 0%nat; userInfo := None |}.

Definition r_authenticated : ConnectionState :=
  {| connected := true; authenticated := true; connecting := false;
     error := None; lastPong := None; retryCount := 0%nat; userInfo := None |}.

Definition h_connected : Hook :=
  {| connectionState := r_connected;
     socketRef := Some {| sock_id := 0%nat; sock_connected := true;
                          sock_render := initialState |};
     reconnectTimeoutRef := None; pingIntervalRef := Some 1%nat;
     messageQueueRef := []; pendingSubscriptionsRef := [];
     trace := []; fresh := 2%nat; tick := 0%nat |}.

Definition queued_ping : WebSocketMessage :=
  {| msg_type := Some MT_ping; msg_id := Some "msg_1_a"%string;
     msg_timestamp := "t"%string; msg_data := None; msg_error := None;
     msg_success := None |}.

Definition h_queued : Hook := set_messageQueueRef [queued_ping] h_connected.

Definition auth_rejected : WebSocketMessage :=
  {| msg_type := Some MT_auth_result; msg_id := None;
     msg_timestamp := "t"%string;
     msg_data := Some (PAuthResult
       {| ad_success := false; ad_user_id := None; ad_role := None;
          ad_tier := None; ad_permissions := None;
          ad_error := Some "invalid api key"%string |});
     msg_error := None; msg_success := None |}.

Definition auth_accepted : WebSocketMessage :=
  {| msg_type := Some MT_auth_result; msg_id := None;
     msg_timestamp := "t"%string;
     msg_data := Some (PAuthResult
       {| ad_success := true; ad_user_id := Some "u1"%string; ad_role := None;
          ad_tier := None; ad_permissions := None; ad_error := None |});
     msg_error := None; msg_success := None |}.

Definition demo_send := sendMessage demo_now demo_random demo_iso never_throws.
Definition demo_subscribe := subscribe demo_now demo_random demo_iso never_throws.
Definition demo_unsubscribe := unsubscribe demo_now demo_random demo_iso never_throws.

(** A hook with one topic pending, and the drop-and-retry round of the
    concrete runtime. *)
Definition h_pending : Hook := set_pendingSubscriptionsRef [alerts] h_connected.

Definition demo_round : Hook -> Hook :=
  drop_and_retry demo_opts demo_now demo_random demo_iso never_throws None
    "transport close".

(** The hook after the effect on mount of its first render. *)
Definition demo_mount : Hook :=
  effect_mount demo_opts None initialState (useWebSocket_init demo_opts).

Definition demo_step : SocketEvent -> Hook -> Hook :=
  socket_step demo_opts demo_now demo_random demo_iso never_throws None.

End UseWebSocket.


(** * The subscription panel of the connection manager
    ([src/components/realtime/ConnectionManager.tsx]) *)

Module ConnectionManager.

Import UseWebSocket.

Local Open Scope Z_scope.

(** [l.includes(s)] on topics. *)
Definition includes (l : list SubscriptionType) (s : SubscriptionType) : bool :=
  if in_dec SubscriptionType_eq_dec s l then true else false.

(** [s !== subscription]. *)
Definition differs (s subscription : SubscriptionType) : bool :=
  if SubscriptionType_eq_dec s subscription then false else true.

(** The panel: [activeSubscriptions] is the prop handed down by the
    manager, [selectedSubscriptions] the panel's own state (the boxes
    ticked). *)
Record SubscriptionManager : Set := {
  activeSubscriptions : list SubscriptionType;
  selectedSubscriptions : list SubscriptionType
}.

(** The manager's initial [activeSubscriptions], which the panel's
    [useState] copies. *)
Definition initialPanel : SubscriptionManager :=
  {| activeSubscriptions := [alerts]; selectedSubscriptions := [alerts] |}.

Definition handleSubscriptionToggle (subscription : SubscriptionType)
    (m : SubscriptionManager) : SubscriptionManager :=
  let newSubscriptions :=
    if includes (selectedSubscriptions m) subscription
    then filter (fun s => differs s subscription) (selectedSubscriptions m)
    else selectedSubscriptions m ++ [subscription] in
  {| activeSubscriptions := activeSubscriptions m;
     selectedSubscriptions := newSubscriptions |}.

Definition toSubscribe (m : SubscriptionManager) : list SubscriptionType :=
  filter (fun s => negb (includes (activeSubscriptions m) s))
    (selectedSubscriptions m).

Definition toUnsubscribe (m : SubscriptionManager) : list SubscriptionType :=
  filter (fun s => negb (includes (selectedSubscriptions m) s))
    (activeSubscriptions m).

(** [applySubscriptions]: the calls on the hook's actions, and the list
    handed to [onSubscriptionChange], which the manager stores as the new
    [activeSubscriptions]. *)
Definition applySubscriptions (websocketActions : WebSocketActions)
    (m : SubscriptionManager) (h : Hook) : list SubscriptionType * Hook :=
  let h1 :=
    if 0 <? Z.of_nat (List.length (toSubscribe m))
    then act_subscribe websocketActions (toSubscribe m) h else h in
  let h2 :=
    if 0 <? Z.of_nat (List.length (toUnsubscribe m))
    then act_unsubscribe websocketActions (toUnsubscribe m) h1 else h1 in
  (selectedSubscriptions m, h2).

(** What an envelope carries, as far as the server's bookkeeping goes. *)
Definition carried (e : WebSocketMessage) : option MessageType * option Payload :=
  (msg_type e, msg_data e).

Definition announce (t : MessageType) (topics : list SubscriptionType)
    : list (option MessageType * option Payload) :=
  match topics with
  | [] => []
  | _ :: _ => [(Some t, Some (PSubscriptions topics))]
  end.

End ConnectionManager.

Module UseAgentStatus.

Local Open Scope Q_scope.

Inductive Status : Set := active | inactive | error | maintenance.

Record AgentStatus : Set := {
  name : string;
  port : Z;
  status : Status;
  last_seen : string;
  response_time_ms : Q;
  active_calls : Q;
  total_calls : Q;
  error_rate : Q;
  capabilities : list string;
  biblical_role : string
}.

Record BiblicalAgentContext : Set := {
  collective_wisdom : string;
  daily_scripture : string;
  agent_blessings : list (string * string);
  operational_prayer : string
}.

(** [agents] is an object used as a map; the list is its entries in
    enumeration order, the order of [Object.values]. *)
Record AgentStatusMessage : Set := {
  agents : list (string * AgentStatus);
  collective_status : string;
  last_update : string;
  health_score : Q;
  biblical_context : BiblicalAgentContext
}.

(** The layer-routing payload is only stored, never inspected. *)
Definition LayerRoutingMessage : Set := string.

Record AlertThresholds : Set := {
  responseTime : option Q;
  errorRate : option Q;
  healthScore : option Q
}.

Record UseAgentStatusOptions : Set := {
  enableLayerRouting : bool;
  alertThresholds : option AlertThresholds
}.

Inductive AlertType : Set := alert_error | alert_warning | alert_maintenance.

Record AgentAlert : Set := {
  id : string;
  agentName : string;
  type : AlertType;
  message : string;
  timestamp : Z;
  acknowledged : bool;
  biblicalComfort : option string
}.

Record AgentStatusState : Set := {
  st_agents : list (string * AgentStatus);
  collectiveStatus : string;
  st_healthScore : Q;
  biblicalContext : option BiblicalAgentContext;
  layerRouting : option LayerRoutingMessage;
  lastUpdate : option Z;
  loading : bool;
  st_error : option string;
  alerts : list AgentAlert
}.

Definition initialState : AgentStatusState :=
  {| st_agents := []; collectiveStatus := "unknown"; st_healthScore := 0;
     biblicalContext := None; layerRouting := None; lastUpdate := None;
     loading := false; st_error := None; alerts := [] |}.

Record CollectiveMetrics : Set := {
  totalAgents : nat;
  activeAgents : nat;
  averageResponseTime : number;
  totalCalls : number;
  successRate : number;
  uptime : Q;
  loadDistribution : list (string * Q)
}.

(** The inbound message, as far as this hook looks at it: its type tag
    with the [data] or [error] that the branch for that tag reads. *)
Inductive Inbound : Set :=
| in_agent_status (data : option AgentStatusMessage)
| in_layer_routing (data : option LayerRoutingMessage)
| in_error (err : option string)
| in_other.

Inductive Callback : Set :=
| onStatusUpdate (s : AgentStatusMessage)
| onLayerRouting (l : LayerRoutingMessage)
| onCollectiveChange (oldScore newScore : Q).

Definition generateAlert (agent : AgentStatus) (t : AlertType) (now stamp : Z) : AgentAlert :=
  {| id := "alert_" ++ name agent ++ "_" ++ string_of_Z now;
     agentName := name agent;
     type := t;
     message :=
       match t with
       | alert_error => "Agent " ++ name agent ++ " is experiencing difficulties"
       | _ => "Agent " ++ name agent ++ " requires attention"
       end;
     timestamp := stamp;
     acknowledged := false;
     biblicalComfort :=
       match t with
       | alert_error =>
           Some "Cast all your anxiety on him because he cares for you. - 1 Peter 5:7"%string
       | alert_warning =>
           Some "The Lord your God is with you, the Mighty Warrior who saves. - Zephaniah 3:17"%string
       | alert_maintenance => None
       end |}.

Definition defaultThresholds : AlertThresholds :=
  {| responseTime := Some 1000; errorRate := Some (5 # 100);
     healthScore := Some 80 |}.

(** [x > t] where [t] may be [undefined]. *)
Definition exceeds (x : Q) (t : option Q) : bool :=
  match t with
  | Some v => Qltb v x
  | None => false
  end.

(** Whether the loop of [checkAgentHealth] pushes an alert for the agent,
    and of which type. *)
Definition verdict (thresholds : AlertThresholds) (agent : AgentStatus) : option AlertType :=
  match status agent with
  | error => Some alert_error
  | _ =>
      if exceeds (response_time_ms agent) (responseTime thresholds)
         || exceeds (error_rate agent) (errorRate thresholds)
      then Some alert_warning
      else None
  end.

(** The [forEach] of [checkAgentHealth]; [clock n] is the n-th reading of
    the clock during the pass, and each alert takes two readings. *)
Fixpoint newAlerts (thresholds : AlertThresholds) (clock : nat -> Z) (n : nat)
    (l : list AgentStatus) : list AgentAlert :=
  match l with
  | [] => []
  | agent :: rest =>
      match verdict thresholds agent with
      | Some t =>
          generateAlert agent t (clock n) (clock (S n))
            :: newAlerts thresholds clock (S (S n)) rest
      | None => newAlerts thresholds clock n rest
      end
  end.

Definition values {A : Type} (o : list (string * A)) : list A := List.map snd o.

Definition set_alerts (a : list AgentAlert) (s : AgentStatusState) : AgentStatusState :=
  {| st_agents := st_agents s; collectiveStatus := collectiveStatus s;
     st_healthScore := st_healthScore s; biblicalContext := biblicalContext s;
     layerRouting := layerRouting s; lastUpdate := lastUpdate s;
     loading := loading s; st_error := st_error s; alerts := a |}.

Section Hook.

Variable options : UseAgentStatusOptions.

Definition checkAgentHealth (clock : nat -> Z) (ags : list (string * AgentStatus))
    (s : AgentStatusState) : AgentStatusState :=
  let thresholds :=
    match alertThresholds options with
    | Some t => t
    | None => defaultThresholds
    end in
  let fresh := newAlerts thresholds clock 1 (values ags) in
  if (0 <? Z.of_nat (List.length fresh))%Z then set_alerts (alerts s ++ fresh) s
  else s.

(** [handleWebSocketMessage]; [r] is the render the callback closes over,
    [s] the current state, [clock 0] the instant stored in [lastUpdate]. *)
Definition handleWebSocketMessage (r : AgentStatusState) (clock : nat -> Z)
    (m : Inbound) (s : AgentStatusState) : AgentStatusState * list Callback :=
  match m with
  | in_agent_status (Some st) =>
      let previousHealthScore := st_healthScore r in
      let s1 :=
        {| st_agents := agents st; collectiveStatus := collective_status st;
           st_healthScore := health_score st;
           biblicalContext := Some (biblical_context st);
           layerRouting := layerRouting s; lastUpdate := Some (clock 0%nat);
           loading := loading s; st_error := None; alerts := alerts s |} in
      let changed :=
        if Qeq_bool previousHealthScore (health_score st) then []
        else [onCollectiveChange previousHealthScore (health_score st)] in
      (checkAgentHealth clock (agents st) s1, changed ++ [onStatusUpdate st])
  | in_layer_routing (Some routing) =>
      if enableLayerRouting options then
        ({| st_agents := st_agents s; collectiveStatus := collectiveStatus s;
            st_healthScore := st_healthScore s;
            biblicalContext := biblicalContext s;
            layerRouting := Some routing; lastUpdate := lastUpdate s;
            loading := loading s; st_error := st_error s;
            alerts := alerts s |}, [onLayerRouting routing])
      else (s, [])
  | in_error (Some e) =>
      if truthy e then
        ({| st_agents := st_agents s; collectiveStatus := collectiveStatus s;
            st_healthScore := st_healthScore s;
            biblicalContext := biblicalContext s;
            layerRouting := layerRouting s; lastUpdate := lastUpdate s;
            loading := loading s; st_error := Some e; alerts := alerts s |}, [])
      else (s, [])
  | _ => (s, [])
  end.

End Hook.

Definition acknowledgeAlert (alertId : string) (s : AgentStatusState) : AgentStatusState :=
  set_alerts
    (List.map (fun a =>
       if String.eqb (id a) alertId then
         {| id := id a; agentName := agentName a; type := type a;
            message := message a; timestamp := timestamp a;
            acknowledged := true; biblicalComfort := biblicalComfort a |}
       else a) (alerts s)) s.

Definition clearAlerts (s : AgentStatusState) : AgentStatusState := set_alerts [] s.

(** An array index among the property names: the decimal form, without
    leading zeros, of an integer below 2^32 - 1. *)
Definition array_index (k : string) : option N :=
  match NilZero.uint_of_string k with
  | Some d =>
      let n := N.of_uint d in
      if String.eqb (NilZero.string_of_uint (N.to_uint n)) k
         && (n <? 4294967295)%N
      then Some n else None
  | None => None
  end.

Fixpoint has_key (k : string) (dist : list (string * Q)) : bool :=
  match dist with
  | [] => false
  | (k', _) :: rest => String.eqb k' k || has_key k rest
  end.

Fixpoint update (k : string) (v : Q) (dist : list (string * Q)) : list (string * Q) :=
  match dist with
  | [] => []
  | (k', v') :: rest =>
      if String.eqb k' k then (k', v) :: rest else (k', v') :: update k v rest
  end.

(** The place of a new array index [n]: behind the smaller indices and
    before everything else. *)
Fixpoint insert_index (n : N) (k : string) (v : Q) (dist : list (string * Q))
    : list (string * Q) :=
  match dist with
  | [] => [(k, v)]
  | (k', v') :: rest =>
      match array_index k' with
      | Some n' =>
          if (n' <? n)%N then (k', v') :: insert_index n k v rest
          else (k, v) :: dist
      | None => (k, v) :: dist
      end
  end.

(** [dist[agent.name] = agent.active_calls] on an object created by [{}];
    the list is the object's entries in enumeration order.  The name
    '__proto__' reaches the setter inherited from [Object.prototype],
    which ignores a number: no entry is made.  An existing key keeps its
    place; a new array index goes among the indices, which come first in
    ascending order; any other new key goes to the end. *)
Definition assign (k : string) (v : Q) (dist : list (string * Q)) : list (string * Q) :=
  if String.eqb k "__proto__" then dist
  else if has_key k dist then update k v dist
  else
    match array_index k with
    | Some n => insert_index n k v dist
    | None => dist ++ [(k, v)]
    end.

(** A quotient together with its divisor, so that the divisors of a
    computation can be looked at. *)
Definition divide (fl : Q -> number) (x y : number) : number * list number :=
  (js_quot fl x y, [y]).

(** [getCollectiveMetrics], with the divisors of the divisions it
    performs.  The fields of an agent are doubles; sums, products and
    quotients are rounded by [fl]. *)
Definition collectiveMetrics (fl : Q -> number) (s : AgentStatusState)
    : CollectiveMetrics * list number :=
  let ags := values (st_agents s) in
  let activeOnes :=
    filter (fun a => match status a with active => true | _ => false end) ags in
  let total :=
    fold_left (fun sum a => js_add fl sum (Finite (total_calls a))) ags (Finite 0) in
  let '(average, dividedBy1) :=
    if (0 <? Z.of_nat (List.length ags))%Z then
      divide fl
        (fold_left (fun sum a => js_add fl sum (Finite (response_time_ms a)))
                   ags (Finite 0))
        (Finite (inject_Z (Z.of_nat (List.length ags))))
    else (Finite 0, []) in
  let successfulCalls :=
    fold_left (fun sum a =>
                 js_add fl sum
                   (js_mul fl (Finite (total_calls a))
                      (js_sub fl (Finite 1) (Finite (error_rate a)))))
              ags (Finite 0) in
  let '(rate, dividedBy2) :=
    if js_gt total 0 then
      let '(ratio, d) := divide fl successfulCalls total in
      (js_mul fl ratio (Finite 100), d)
    else (Finite 100, []) in
  let load :=
    fold_left (fun dist a => assign (name a) (active_calls a) dist) ags [] in
  ({| totalAgents := List.length ags;
      activeAgents := List.length activeOnes;
      averageResponseTime := average;
      totalCalls := total;
      successRate := rate;
      uptime := st_healthScore s;
      loadDistribution := load |},
   dividedBy1 ++ dividedBy2).

Definition getCollectiveMetrics (fl : Q -> number) (s : AgentStatusState)
    : CollectiveMetrics :=
  fst (collectiveMetrics fl s).

Definition divisors (fl : Q -> number) (s : AgentStatusState) : list number :=
  snd (collectiveMetrics fl s).

(** ** The callbacks that use the connection hook

    They act on this hook's state and, through the actions handed to the
    hook, on the connection hook.  [websocketActions] is [None] when the
    caller passed nothing. *)

Definition set_loading (b : bool) (s : AgentStatusState) : AgentStatusState :=
  {| st_agents := st_agents s; collectiveStatus := collectiveStatus s;
     st_healthScore := st_healthScore s; biblicalContext := biblicalContext s;
     layerRouting := layerRouting s; lastUpdate := lastUpdate s;
     loading := b; st_error := st_error s; alerts := alerts s |}.

Definition refreshStatus (websocketActions : option UseWebSocket.WebSocketActions)
    (connectionState : UseWebSocket.ConnectionState)
    (sh : AgentStatusState * UseWebSocket.Hook)
    : AgentStatusState * UseWebSocket.Hook :=
  match websocketActions with
  | Some actions =>
      if UseWebSocket.authenticated connectionState then
        (set_loading true (fst sh),
         UseWebSocket.act_getAgentStatus actions (snd sh))
      else sh
  | None => sh
  end.

(** The effect that runs when [connectionState.authenticated] changes. *)
Definition effect_authenticated (options : UseAgentStatusOptions)
    (websocketActions : option UseWebSocket.WebSocketActions)
    (connectionState : UseWebSocket.ConnectionState)
    (sh : AgentStatusState * UseWebSocket.Hook)
    : AgentStatusState * UseWebSocket.Hook :=
  match websocketActions with
  | Some actions =>
      if UseWebSocket.authenticated connectionState then
        let subscriptions :=
          [UseWebSocket.agent_status]
          ++ (if enableLayerRouting options then [UseWebSocket.layer_routing]
              else []) in
        let h1 := UseWebSocket.act_subscribe actions subscriptions (snd sh) in
        let h2 := UseWebSocket.act_getAgentStatus actions h1 in
        (set_loading false (fst sh), h2)
      else sh
  | None => sh
  end.

(** What can happen to the hook between two runs of that effect: an
    inbound message handled by the handler of some render, or one of the
    actions. *)
Inductive Action : Type :=
| do_message (r : AgentStatusState) (clock : nat -> Z) (m : Inbound)
| do_acknowledgeAlert (alertId : string)
| do_clearAlerts
| do_refreshStatus (websocketActions : option UseWebSocket.WebSocketActions)
    (connectionState : UseWebSocket.ConnectionState).

Definition act (options : UseAgentStatusOptions) (a : Action)
    (sh : AgentStatusState * UseWebSocket.Hook)
    : AgentStatusState * UseWebSocket.Hook :=
  match a with
  | do_message r clock m =>
      (fst (handleWebSocketMessage options r clock m (fst sh)), snd sh)
  | do_acknowledgeAlert alertId => (acknowledgeAlert alertId (fst sh), snd sh)
  | do_clearAlerts => (clearAlerts (fst sh), snd sh)
  | do_refreshStatus websocketActions connectionState =>
      refreshStatus websocketActions connectionState sh
  end.


(** The function that [acknowledgeAlert] maps over the alerts. *)
Definition acknowledge (alertId : string) (a : AgentAlert) : AgentAlert :=
  if String.eqb (id a) alertId then
    {| id := id a; agentName := agentName a; type := type a;
       message := message a; timestamp := timestamp a;
       acknowledged := true; biblicalComfort := biblicalComfort a |}
  else a.



(** ** A concrete fleet, for trying the health check *)

Definition failing_agent : AgentStatus :=
  {| name := "M0S3S"; port := 3033; status := error; last_seen := "now";
     response_time_ms := 120; active_calls := 0; total_calls := 10;
     error_rate := 0; capabilities := []; biblical_role := "leader" |}.

Definition failing_fleet : AgentStatusMessage :=
  {| agents := [("M0S3S"%string, failing_agent)];
     collective_status := "degraded"; last_update := "now";
     health_score := 70;
     biblical_context :=
       {| collective_wisdom := EmptyString; daily_scripture := EmptyString;
          agent_blessings := []; operational_prayer := EmptyString |} |}.

Definition plain_options : UseAgentStatusOptions :=
  {| enableLayerRouting := false; alertThresholds := None |}.

Definition frozen_clock (_ : nat) : Z := 1700000000000%Z.


(** The state once that fleet has been stored, and the actions of an
    authenticated render of the connection hook. *)
Definition fleet_state : AgentStatusState :=
  fst (handleWebSocketMessage plain_options initialState frozen_clock
         (in_agent_status (Some failing_fleet)) initialState).

Definition demo_actions : UseWebSocket.WebSocketActions :=
  UseWebSocket.actions UseWebSocket.demo_opts UseWebSocket.demo_now
    UseWebSocket.demo_random UseWebSocket.demo_iso UseWebSocket.never_throws
    None UseWebSocket.r_authenticated.

End UseAgentStatus.

(** * The runtime's JSON

    [JSON.stringify(value, null, 2)] and [JSON.parse], which the usage hook
    calls for its structured export.  Values are what JSON can carry.
    Strings are sequences of code units below 256.  How a number is
    rendered and read back belongs to the runtime's floating-point
    formatting; it enters as the pair [Number_toString] / [StringToNumber]. *)
Module JSON.

Local Open Scope string_scope.
Local Open Scope nat_scope.

#[warnings="-register-all"] Inductive value : Set :=
| Null
| Bool (b : bool)
| Number (q : Q)
| Str (s : string)
| Array (items : list value)
| Object (members : list (string * value)).

Abbreviation dquote := ("034"%char) (only parsing).
Abbreviation backslash := ("092"%char) (only parsing).
Abbreviation newline := ("010"%char) (only parsing).

Definition hex_digit (n : nat) : ascii :=
  nth n ["0"; "1"; "2"; "3"; "4"; "5"; "6"; "7"; "8"; "9";
         "a"; "b"; "c"; "d"; "e"; "f"]%char "0"%char.

Definition hex_value (c : ascii) : option nat :=
  let n := nat_of_ascii c in
  if (48 <=? n) && (n <=? 57) then Some (n - 48)
  else if (97 <=? n) && (n <=? 102) then Some (n - 87)
  else if (65 <=? n) && (n <=? 70) then Some (n - 55)
  else None.

Definition escape (e : ascii) : string := String backslash (String e EmptyString).

Definition quote_char (c : ascii) : string :=
  let n := nat_of_ascii c in
  if n =? 34 then escape dquote
  else if n =? 92 then escape backslash
  else if n =? 8 then escape "b"
  else if n =? 12 then escape "f"
  else if n =? 10 then escape "n"
  else if n =? 13 then escape "r"
  else if n =? 9 then escape "t"
  else if n <? 32 then
    String backslash
      (String "u" (String "0" (String "0"
        (String (hex_digit (n / 16)) (String (hex_digit (n mod 16)) EmptyString)))))
  else String c EmptyString.

Fixpoint quote_chars (s : string) : string :=
  match s with
  | EmptyString => EmptyString
  | String c r => quote_char c ++ quote_chars r
  end.

Definition quote (s : string) : string :=
  String dquote (quote_chars s ++ String dquote EmptyString).

Fixpoint spaces (n : nat) : string :=
  match n with
  | O => EmptyString
  | S n' => String " " (spaces n')
  end.

Definition nl (n : nat) : string := String newline (spaces n).

Arguments nl : simpl never.

Fixpoint join_tail (n : nat) (parts : list string) : string :=
  match parts with
  | [] => EmptyString
  | p :: ps => String "," (nl n ++ p ++ join_tail n ps)
  end.

Definition wrap (o c : ascii) (indent : nat) (parts : list string) : string :=
  match parts with
  | [] => String o (String c EmptyString)
  | p :: ps =>
      String o (nl (indent + 2) ++ p ++ join_tail (indent + 2) ps
                ++ nl indent ++ String c EmptyString)
  end.

Definition push (c : ascii) (o : option (string * string)) : option (string * string) :=
  match o with
  | Some (s, r) => Some (String c s, r)
  | None => None
  end.

Definition unhex4 (a b c d : ascii) : option ascii :=
  match hex_value a, hex_value b, hex_value c, hex_value d with
  | Some x, Some y, Some z, Some w =>
      let n := ((x * 16 + y) * 16 + z) * 16 + w in
      if n <? 256 then Some (ascii_of_nat n) else None
  | _, _, _, _ => None
  end.

Fixpoint parse_chars (s : string) : option (string * string) :=
  match s with
  | EmptyString => None
  | String c r =>
      if Ascii.eqb c dquote then Some (EmptyString, r)
      else if Ascii.eqb c backslash then
        match r with
        | EmptyString => None
        | String e r1 =>
            if Ascii.eqb e dquote then push dquote (parse_chars r1)
            else if Ascii.eqb e backslash then push backslash (parse_chars r1)
            else if Ascii.eqb e "/" then push "/" (parse_chars r1)
            else if Ascii.eqb e "b" then push "008" (parse_chars r1)
            else if Ascii.eqb e "f" then push "012" (parse_chars r1)
            else if Ascii.eqb e "n" then push "010" (parse_chars r1)
            else if Ascii.eqb e "r" then push "013" (parse_chars r1)
            else if Ascii.eqb e "t" then push "009" (parse_chars r1)
            else if Ascii.eqb e "u" then
              match r1 with
              | String h1 (String h2 (String h3 (String h4 r2))) =>
                  match unhex4 h1 h2 h3 h4 with
                  | Some u => push u (parse_chars r2)
                  | None => None
                  end
              | _ => None
              end
            else None
        end
      else if nat_of_ascii c <? 32 then None
      else push c (parse_chars r)
  end.

Definition is_ws (c : ascii) : bool :=
  let n := nat_of_ascii c in
  (n =? 32) || (n =? 10) || (n =? 13) || (n =? 9).

Fixpoint skip_ws (s : string) : string :=
  match s with
  | EmptyString => EmptyString
  | String c r => if is_ws c then skip_ws r else s
  end.

Definition is_num_char (c : ascii) : bool :=
  let n := nat_of_ascii c in
  ((48 <=? n) && (n <=? 57)) || (n =? 45) || (n =? 43) || (n =? 46)
  || (n =? 101) || (n =? 69).

Fixpoint span_num (s : string) : string * string :=
  match s with
  | EmptyString => (EmptyString, EmptyString)
  | String c r =>
      if is_num_char c then
        let '(tok, rest) := span_num r in (String c tok, rest)
      else (EmptyString, s)
  end.

Fixpoint expect (lit s : string) : option string :=
  match lit with
  | EmptyString => Some s
  | String c lit' =>
      match s with
      | String d s' => if Ascii.eqb c d then expect lit' s' else None
      | EmptyString => None
      end
  end.

Section Codec.

Variable Number_toString : Q -> string.
Variable StringToNumber : string -> option Q.

Fixpoint stringify_at (indent : nat) (v : value) : string :=
  match v with
  | Null => "null"
  | Bool b => if b then "true" else "false"
  | Number q => Number_toString q
  | Str s => quote s
  | Array items =>
      wrap "[" "]" indent (List.map (stringify_at (indent + 2)) items)
  | Object members =>
      wrap "{" "}" indent
        (List.map (fun kv => quote (fst kv) ++ ": "
                             ++ stringify_at (indent + 2) (snd kv)) members)
  end.

Definition stringify (v : value) : string := stringify_at 0 v.

Fixpoint parse_value (fuel : nat) (s : string) : option (value * string) :=
  match fuel with
  | O => None
  | S f =>
      match skip_ws s with
      | EmptyString => None
      | String c r =>
          if is_num_char c then
            let '(tok, rest) := span_num (String c r) in
            match StringToNumber tok with
            | Some q => Some (Number q, rest)
            | None => None
            end
          else if Ascii.eqb c "n" then option_map (pair Null) (expect "ull" r)
          else if Ascii.eqb c "t" then option_map (pair (Bool true)) (expect "rue" r)
          else if Ascii.eqb c "f" then option_map (pair (Bool false)) (expect "alse" r)
          else if Ascii.eqb c dquote then
            match parse_chars r with
            | Some (str, rest) => Some (Str str, rest)
            | None => None
            end
          else if Ascii.eqb c "[" then
            match skip_ws r with
            | EmptyString => None
            | String d rest =>
                if Ascii.eqb d "]" then Some (Array [], rest)
                else
                  match parse_items f r with
                  | Some (l, rest') => Some (Array l, rest')
                  | None => None
                  end
            end
          else if Ascii.eqb c "{" then
            match skip_ws r with
            | EmptyString => None
            | String d rest =>
                if Ascii.eqb d "}" then Some (Object [], rest)
                else
                  match parse_members f r with
                  | Some (l, rest') => Some (Object l, rest')
                  | None => None
                  end
            end
          else None
      end
  end
with parse_items (fuel : nat) (s : string) : option (list value * string) :=
  match fuel with
  | O => None
  | S f =>
      match parse_value f s with
      | Some (v, r) =>
          match skip_ws r with
          | String "," r' =>
              match parse_items f r' with
              | Some (l, rest) => Some (v :: l, rest)
              | None => None
              end
          | String "]" rest => Some ([v], rest)
          | _ => None
          end
      | None => None
      end
  end
with parse_members (fuel : nat) (s : string) : option (list (string * value) * string) :=
  match fuel with
  | O => None
  | S f =>
      match skip_ws s with
      | String c r =>
          if Ascii.eqb c dquote then
            match parse_chars r with
            | Some (k, r1) =>
                match skip_ws r1 with
                | String ":" r2 =>
                    match parse_value f r2 with
                    | Some (v, r3) =>
                        match skip_ws r3 with
                        | String "," r4 =>
                            match parse_members f r4 with
                            | Some (l, rest) => Some ((k, v) :: l, rest)
                            | None => None
                            end
                        | String "}" rest => Some ([(k, v)], rest)
                        | _ => None
                        end
                    | None => None
                    end
                | _ => None
                end
            | None => None
            end
          else None
      | EmptyString => None
      end
  end.

Definition parse (s : string) : option value :=
  match parse_value (S (String.length s)) s with
  | Some (v, rest) =>
      match skip_ws rest with
      | EmptyString => Some v
      | _ => None
      end
  | None => None
  end.


(** *** What the round trip is stated with *)

Definition token_end (rest : string) : Prop :=
  match rest with
  | EmptyString => True
  | String c _ => is_num_char c = false
  end.

Fixpoint all_num (s : string) : bool :=
  match s with
  | EmptyString => true
  | String c r => is_num_char c && all_num r
  end.

(** What the round trip needs of the runtime for a number [q]: its
    rendering is a non-empty number token that reads back as [q]. *)
Definition codec_ok (q : Q) : Prop :=
  StringToNumber (Number_toString q) = Some q /\
  all_num (Number_toString q) = true /\
  Number_toString q <> EmptyString.

Fixpoint numbers_ok (v : value) : Prop :=
  match v with
  | Number q => codec_ok q
  | Array items => fold_right (fun x acc => numbers_ok x /\ acc) True items
  | Object members =>
      fold_right (fun kv acc => numbers_ok (snd kv) /\ acc) True members
  | _ => True
  end.

Fixpoint size (v : value) : nat :=
  match v with
  | Array items => S (fold_right (fun x acc => S (size x) + acc) 0 items)
  | Object members =>
      S (fold_right (fun kv acc => S (size (snd kv)) + acc) 0 members)
  | _ => 1
  end.

Section Induction.

Variable P : value -> Prop.
Hypothesis P_Null : P Null.
Hypothesis P_Bool : forall b, P (Bool b).
Hypothesis P_Number : forall q, P (Number q).
Hypothesis P_Str : forall s, P (Str s).
Hypothesis P_Array : forall items, Forall P items -> P (Array items).
Hypothesis P_Object :
  forall members, Forall (fun kv => P (snd kv)) members -> P (Object members).

Fixpoint value_induction (v : value) : P v :=
  match v with
  | Null => P_Null
  | Bool b => P_Bool b
  | Number q => P_Number q
  | Str s => P_Str s
  | Array items =>
      P_Array items
        ((fix all (l : list value) : Forall P l :=
            match l with
            | [] => Forall_nil P
            | x :: l' => Forall_cons x (value_induction x) (all l')
            end) items)
  | Object members =>
      P_Object members
        ((fix all (l : list (string * value)) : Forall (fun kv => P (snd kv)) l :=
            match l with
            | [] => Forall_nil _
            | kv :: l' =>
                @Forall_cons _ (fun kv => P (snd kv)) kv l'
                  (value_induction (snd kv)) (all l')
            end) members)
  end.

End Induction.

(** A value parses when its rendering, at any indentation and before any
    text that cannot continue a number, reads back as the value. *)
Definition parses (v : value) : Prop :=
  forall indent fuel rest,
    numbers_ok v -> size v <= fuel -> token_end rest ->
    parse_value fuel (stringify_at indent v ++ rest) = Some (v, rest).

End Codec.

End JSON.

Module UseRealTimeUsage.

Local Open Scope Q_scope.

Record UsageCallRecord : Set := {
  timestamp : string;
  agent : string;
  layer : number;
  duration_ms : number;
  success : bool;
  error_message : option string
}.

Record BiblicalUsageTheme : Set := {
  verse : string;
  message : string;
  blessing : option string;
  warning : option string;
  stewardship : string
}.

(** The breakdowns are objects used as maps; the lists are their entries
    in enumeration order.  A number of the snapshot is what the message
    carried: a double, or an infinity where the message held a numeral
    beyond the range of the doubles.  The counts of the breakdowns are
    taken to be finite. *)
Record UsageUpdateMessage : Set := {
  user_id : string;
  monthly_usage : number;
  daily_usage : number;
  monthly_limit : number;
  daily_limit : number;
  usage_percentage : number;
  last_call_time : string;
  agent_breakdown : list (string * Q);
  layer_breakdown : list (string * Q);
  recent_calls : list UsageCallRecord;
  tier : string;
  biblical_theme : BiblicalUsageTheme
}.

Record BiblicalQuotaGuidance : Set := {
  g_verse : string;
  wisdom_message : string;
  g_stewardship : string;
  encouragement : string;
  prayer : option string
}.

Record QuotaWarningMessage : Set := {
  w_user_id : string;
  warning_type : string;
  current_usage : Q;
  limit : Q;
  percentage_used : Q;
  time_remaining : string;
  recommended_action : string;
  biblical_guidance : BiblicalQuotaGuidance;
  upgrade_options : option (list string)
}.

Inductive Trend : Set := increasing | decreasing | stable.

Record UsageAnalytics : Set := {
  trend : Trend;
  peakHours : list nat;
  mostUsedAgent : string;
  mostUsedLayer : number;
  efficiency : number;
  costProjection : Q;
  recommendations : list string
}.

Record RealTimeUsageState : Set := {
  usage : option UsageUpdateMessage;
  quotaWarnings : list QuotaWarningMessage;
  analytics : option UsageAnalytics;
  loading : bool;
  error : option string;
  lastUpdate : option Z;
  isRealTime : bool
}.

Definition initialState : RealTimeUsageState :=
  {| usage := None; quotaWarnings := []; analytics := None; loading := false;
     error := None; lastUpdate := None; isRealTime := false |}.

Inductive Format : Set := json | csv.

(** The inbound message, as far as this hook looks at it. *)
Inductive Inbound : Set :=
| in_usage_update (data : option UsageUpdateMessage)
| in_quota_warning (data : option QuotaWarningMessage)
| in_error (err : option string)
| in_other.

Inductive Callback : Set :=
| onUsageUpdate (u : UsageUpdateMessage)
| onQuotaWarning (w : QuotaWarningMessage)
| onError (e : string).

Definition Q_of_nat (n : nat) : Q := inject_Z (Z.of_nat n).

(** [Array.prototype.sort] with a comparator that orders by a key,
    largest first: a stable sort.  [lt a b] says that [a]'s key is
    strictly below [b]'s. *)
Fixpoint insert_desc {A : Type} (lt : A -> A -> bool) (x : A) (l : list A) : list A :=
  match l with
  | [] => [x]
  | y :: r => if lt y x then x :: y :: r else y :: insert_desc lt x r
  end.

Definition sort_desc {A : Type} (lt : A -> A -> bool) (l : list A) : list A :=
  fold_left (fun acc x => insert_desc lt x acc) l [].

(** [counts[i]++] on an array of length 24. *)
Fixpoint bump (i : nat) (counts : list nat) : list nat :=
  match counts, i with
  | [], _ => []
  | c :: r, O => S c :: r
  | c :: r, S j => c :: bump j r
  end.

Fixpoint indexed {A : Type} (i : nat) (l : list A) : list (nat * A) :=
  match l with
  | [] => []
  | x :: r => (i, x) :: indexed (S i) r
  end.

(** [x < c] where [x] may be NaN or an infinity. *)
Definition number_ltb (x : number) (c : Q) : bool :=
  match x with
  | Finite q => Qltb q c
  | NaN => false
  | Infinity neg => neg
  end.

(** [entries.sort(([,a], [,b]) => b - a)[0]?.[0] || fallback]. *)
Definition mostUsed (entries : list (string * Q)) (fallback : string) : string :=
  match sort_desc (fun a b => Qltb (snd a) (snd b)) entries with
  | (k, _) :: _ => if truthy k then k else fallback
  | [] => fallback
  end.

(** A number cut to an integer, towards zero. *)
Definition truncate (q : Q) : Z :=
  if Qle_bool 0 q then Qfloor q else Qceiling q.

(** [new Date(t)] for a number [t]: the time value of the date, or [None]
    for an Invalid Date, which is what a time beyond 8.64e15 milliseconds
    on either side of the epoch gives, and what [NaN] and the infinities
    give. *)
Definition Date_of (t : number) : option Z :=
  match t with
  | Finite q =>
      if Qle_bool (Qabs q) 8640000000000000 then Some (truncate q) else None
  | _ => None
  end.

(** [a > b] on two dates: never true of an Invalid Date. *)
Definition later (a b : option Z) : bool :=
  match a, b with
  | Some x, Some y => (y <? x)%Z
  | _, _ => false
  end.

(** [x.toString()] on a number. *)
Definition number_toString (Number_toString : Q -> string) (x : number) : string :=
  match x with
  | Finite q => Number_toString q
  | NaN => "NaN"
  | Infinity false => "Infinity"
  | Infinity true => "-Infinity"
  end.

Section Hook.

(** The runtime: [new Date(s).getTime()] ([None] for an invalid date),
    [getHours] of an instant in local time (always below 24), [parseInt],
    the rendering of a finite number as a string, and the rounding of an
    exact result to a double. *)
Variable Date_parse : string -> option Z.
Variable getHours : Z -> nat.
Variable parseInt : string -> number.
Variable Number_toString : Q -> string.
Variable fl : Q -> number.

Variable enableAnalytics : bool.

(** [new Date(call.timestamp) > new Date(now.getTime() - 24 * 60 * 60 * 1000)].
    [now] is the time value of [new Date()], an integer of at most
    8.64e15 in absolute value, so the subtraction is exact. *)
Definition within24h (now : Z) (call : UsageCallRecord) : bool :=
  later (Date_parse (timestamp call))
        (Date_of (Finite (inject_Z (now - 24 * 60 * 60 * 1000)))).

Definition last24h (now : Z) (u : UsageUpdateMessage) : list UsageCallRecord :=
  filter (within24h now) (recent_calls u).

(** The trend, from the sizes of the two slices.  The source multiplies
    by the doubles 1.1 and 0.9; the model multiplies by 11/10 and 9/10.
    The two slices of one window differ in size by at most one, and on
    such counts both comparisons give the same answer
    ([trendOf_doubles] below is the computation on doubles). *)
Definition trendOf (firstHalf secondHalf : nat) : Trend :=
  if Qltb (Q_of_nat firstHalf * (11 # 10)) (Q_of_nat secondHalf) then increasing
  else if Qltb (Q_of_nat secondHalf) (Q_of_nat firstHalf * (9 # 10)) then decreasing
  else stable.

(** The same on doubles: [1.1] and [0.9] are the doubles nearest to 11/10
    and 9/10, and each product is rounded to the nearest double. *)
Definition trendOf_doubles (firstHalf secondHalf : nat) : Trend :=
  let times := fun c =>
    js_mul Binary64.binary64 (Finite (Q_of_nat firstHalf))
           (Finite (Binary64.nearest c)) in
  if number_ltb (times (11 # 10)) (Q_of_nat secondHalf) then increasing
  else if js_gt (times (9 # 10)) (Q_of_nat secondHalf) then decreasing
  else stable.

Definition calculateAnalytics (now : Z) (u : UsageUpdateMessage) : UsageAnalytics :=
  let window := last24h now u in
  let halfPoint := (List.length window / 2)%nat in
  let firstHalf := List.length (firstn halfPoint window) in
  let secondHalf := List.length (skipn halfPoint window) in
  let trend := trendOf firstHalf secondHalf in
  let hourCounts :=
    fold_left (fun counts call =>
                 match Date_parse (timestamp call) with
                 | Some t => bump (getHours t) counts
                 | None => counts
                 end) window (repeat 0%nat 24) in
  let peakHours :=
    List.map fst
      (firstn 3 (sort_desc (fun a b => (snd a <? snd b)%nat)
                           (indexed 0 hourCounts))) in
  let mostUsedAgent := mostUsed (agent_breakdown u) "Unknown" in
  let mostUsedLayer := mostUsed (layer_breakdown u) "1" in
  let successfulCalls := List.length (filter success window) in
  let efficiency :=
    if (0 <? Z.of_nat (List.length window))%Z then
      js_times (js_div (Q_of_nat successfulCalls) (Q_of_nat (List.length window))) 100
    else Finite 100 in
  let recommendations :=
    (if number_ltb efficiency 90
     then ["Consider reviewing error patterns to improve success rate"%string]
     else [])
    ++ (if js_gt (usage_percentage u) 80
        then ["Usage approaching limit - consider upgrading tier"%string]
        else [])
    ++ (match trend with
        | increasing =>
            ["Usage trending upward - monitor for quota approach"%string]
        | _ => []
        end) in
  {| trend := trend;
     peakHours := peakHours;
     mostUsedAgent := mostUsedAgent;
     mostUsedLayer := parseInt mostUsedLayer;
     efficiency := efficiency;
     costProjection := 0;
     recommendations := recommendations |}.

(** [handleWebSocketMessage]; [clock 0] is the instant read by
    [calculateAnalytics], [clock 1] the one stored in [lastUpdate]. *)
Definition handleWebSocketMessage (clock : nat -> Z) (m : Inbound)
    (s : RealTimeUsageState) : RealTimeUsageState * list Callback :=
  match m with
  | in_usage_update (Some u) =>
      ({| usage := Some u; quotaWarnings := quotaWarnings s;
          analytics :=
            if enableAnalytics then Some (calculateAnalytics (clock 0%nat) u)
            else analytics s;
          loading := loading s; error := None;
          lastUpdate := Some (clock 1%nat); isRealTime := true |},
       [onUsageUpdate u])
  | in_quota_warning (Some w) =>
      ({| usage := usage s; quotaWarnings := quotaWarnings s ++ [w];
          analytics := analytics s; loading := loading s; error := error s;
          lastUpdate := lastUpdate s; isRealTime := isRealTime s |},
       [onQuotaWarning w])
  | in_error (Some e) =>
      if truthy e then
        ({| usage := usage s; quotaWarnings := quotaWarnings s;
            analytics := analytics s; loading := loading s; error := Some e;
            lastUpdate := lastUpdate s; isRealTime := isRealTime s |},
         [onError e])
      else (s, [])
  | _ => (s, [])
  end.

Definition clearWarnings (s : RealTimeUsageState) : RealTimeUsageState :=
  {| usage := usage s; quotaWarnings := []; analytics := analytics s;
     loading := loading s; error := error s; lastUpdate := lastUpdate s;
     isRealTime := isRealTime s |}.

Definition dismissWarning (warningId : string) (s : RealTimeUsageState) : RealTimeUsageState :=
  {| usage := usage s;
     quotaWarnings :=
       filter (fun w => negb (String.eqb (w_user_id w) warningId)) (quotaWarnings s);
     analytics := analytics s; loading := loading s; error := error s;
     lastUpdate := lastUpdate s; isRealTime := isRealTime s |}.

(** The object held in [state.usage], as the JSON value it is. *)
Definition optional (k : string) (o : option string) : list (string * JSON.value) :=
  match o with
  | Some s => [(k, JSON.Str s)]
  | None => []
  end.

(** A number as [JSON.stringify] takes it: a finite one as it is, [NaN]
    and the infinities as [null]. *)
Definition number_to_json (x : number) : JSON.value :=
  match x with
  | Finite q => JSON.Number q
  | _ => JSON.Null
  end.

Definition call_to_json (c : UsageCallRecord) : JSON.value :=
  JSON.Object
    ([("timestamp"%string, JSON.Str (timestamp c));
      ("agent"%string, JSON.Str (agent c));
      ("layer"%string, number_to_json (layer c));
      ("duration_ms"%string, number_to_json (duration_ms c));
      ("success"%string, JSON.Bool (success c))]
     ++ optional "error_message" (error_message c)).

Definition theme_to_json (t : BiblicalUsageTheme) : JSON.value :=
  JSON.Object
    ([("verse"%string, JSON.Str (verse t));
      ("message"%string, JSON.Str (message t))]
     ++ optional "blessing" (blessing t)
     ++ optional "warning" (warning t)
     ++ [("stewardship"%string, JSON.Str (stewardship t))]).

Definition breakdown_to_json (b : list (string * Q)) : JSON.value :=
  JSON.Object (List.map (fun kv => (fst kv, JSON.Number (snd kv))) b).

Definition to_json (u : UsageUpdateMessage) : JSON.value :=
  JSON.Object
    [("user_id"%string, JSON.Str (user_id u));
     ("monthly_usage"%string, number_to_json (monthly_usage u));
     ("daily_usage"%string, number_to_json (daily_usage u));
     ("monthly_limit"%string, number_to_json (monthly_limit u));
     ("daily_limit"%string, number_to_json (daily_limit u));
     ("usage_percentage"%string, number_to_json (usage_percentage u));
     ("last_call_time"%string, JSON.Str (last_call_time u));
     ("agent_breakdown"%string, breakdown_to_json (agent_breakdown u));
     ("layer_breakdown"%string, breakdown_to_json (layer_breakdown u));
     ("recent_calls"%string, JSON.Array (List.map call_to_json (recent_calls u)));
     ("tier"%string, JSON.Str (tier u));
     ("biblical_theme"%string, theme_to_json (biblical_theme u))].

Definition join (sep : string) (cells : list string) : string :=
  String.concat sep cells.

Definition string_of_bool (b : bool) : string :=
  if b then "true"%string else "false"%string.

Definition exportUsageData (s : RealTimeUsageState) (format : Format) : string :=
  match usage s with
  | None => EmptyString
  | Some u =>
      match format with
      | json => JSON.stringify Number_toString (to_json u)
      | csv =>
          let calls := recent_calls u in
          if (List.length calls =? 0)%nat then "No data available"%string
          else
            let headers :=
              ["Timestamp"; "Agent"; "Layer"; "Duration (ms)"; "Success";
               "Error"]%string in
            let rows :=
              List.map (fun call =>
                [timestamp call; agent call;
                 number_toString Number_toString (layer call);
                 number_toString Number_toString (duration_ms call);
                 string_of_bool (success call);
                 or_else (error_message call) EmptyString]) calls in
            join (String "010" EmptyString)
                 (List.map (join ",") (headers :: rows))
      end
  end.

Definition calculateProjection (s : RealTimeUsageState) (days : number) : number :=
  match usage s with
  | None => Finite 0
  | Some u =>
      let dailyAverage := js_quot fl (monthly_usage u) (Finite 30) in
      js_mul fl dailyAverage days
  end.



End Hook.

(** Reading the snapshot's fields back out of a parsed JSON value. *)

Local Notation "x <- e ;; k" :=
  (match e with Some x => k | None => None end)
  (at level 60, e at next level, right associativity).

Definition field (k : string) (ms : list (string * JSON.value)) : option JSON.value :=
  match find (fun kv => String.eqb (fst kv) k) ms with
  | Some kv => Some (snd kv)
  | None => None
  end.

Definition as_string (v : JSON.value) : option string :=
  match v with JSON.Str s => Some s | _ => None end.

Definition as_number (v : JSON.value) : option Q :=
  match v with JSON.Number q => Some q | _ => None end.

Definition as_bool (v : JSON.value) : option bool :=
  match v with JSON.Bool b => Some b | _ => None end.

Definition string_field (k : string) (ms : list (string * JSON.value)) : option string :=
  v <- field k ms ;; as_string v.

Definition number_field (k : string) (ms : list (string * JSON.value)) : option number :=
  v <- field k ms ;; q <- as_number v ;; Some (Finite q).

Definition optional_field (k : string) (ms : list (string * JSON.value)) : option (option string) :=
  match field k ms with
  | None => Some None
  | Some (JSON.Str s) => Some (Some s)
  | Some _ => None
  end.

Fixpoint numbers_of_members (ms : list (string * JSON.value)) : option (list (string * Q)) :=
  match ms with
  | [] => Some []
  | (k, v) :: r =>
      q <- as_number v ;; l <- numbers_of_members r ;; Some ((k, q) :: l)
  end.

Definition breakdown_of_json (v : JSON.value) : option (list (string * Q)) :=
  match v with
  | JSON.Object ms => numbers_of_members ms
  | _ => None
  end.

Definition call_of_json (v : JSON.value) : option UsageCallRecord :=
  match v with
  | JSON.Object ms =>
      t <- string_field "timestamp" ms ;;
      a <- string_field "agent" ms ;;
      l <- number_field "layer" ms ;;
      d <- number_field "duration_ms" ms ;;
      ok <- (b <- field "success" ms ;; as_bool b) ;;
      e <- optional_field "error_message" ms ;;
      Some {| timestamp := t; agent := a; layer := l; duration_ms := d;
              success := ok; error_message := e |}
  | _ => None
  end.

Fixpoint calls_of_items (items : list JSON.value) : option (list UsageCallRecord) :=
  match items with
  | [] => Some []
  | v :: r => c <- call_of_json v ;; l <- calls_of_items r ;; Some (c :: l)
  end.

Definition theme_of_json (v : JSON.value) : option BiblicalUsageTheme :=
  match v with
  | JSON.Object ms =>
      ve <- string_field "verse" ms ;;
      me <- string_field "message" ms ;;
      bl <- optional_field "blessing" ms ;;
      wa <- optional_field "warning" ms ;;
      st <- string_field "stewardship" ms ;;
      Some {| verse := ve; message := me; blessing := bl; warning := wa;
              stewardship := st |}
  | _ => None
  end.

Definition of_json (v : JSON.value) : option UsageUpdateMessage :=
  match v with
  | JSON.Object ms =>
      uid <- string_field "user_id" ms ;;
      mu <- number_field "monthly_usage" ms ;;
      du <- number_field "daily_usage" ms ;;
      ml <- number_field "monthly_limit" ms ;;
      dl <- number_field "daily_limit" ms ;;
      up <- number_field "usage_percentage" ms ;;
      lc <- string_field "last_call_time" ms ;;
      ab <- (b <- field "agent_breakdown" ms ;; breakdown_of_json b) ;;
      lb <- (b <- field "layer_breakdown" ms ;; breakdown_of_json b) ;;
      rc <- (a <- field "recent_calls" ms ;;
             match a with
             | JSON.Array items => calls_of_items items
             | _ => None
             end) ;;
      ti <- string_field "tier" ms ;;
      th <- (t <- field "biblical_theme" ms ;; theme_of_json t) ;;
      Some {| user_id := uid; monthly_usage := mu; daily_usage := du;
              monthly_limit := ml; daily_limit := dl; usage_percentage := up;
              last_call_time := lc; agent_breakdown := ab;
              layer_breakdown := lb; recent_calls := rc; tier := ti;
              biblical_theme := th |}
  | _ => None
  end.

(** The snapshots all of whose numbers are finite.  A finite number of
    the runtime is a double; the rationals that are not doubles stand for
    no number of the runtime. *)
Definition finite_double (x : number) : Prop :=
  match x with
  | Finite q => Binary64.representable q
  | _ => False
  end.

Definition finite_numbers (u : UsageUpdateMessage) : Prop :=
  finite_double (monthly_usage u) /\ finite_double (daily_usage u) /\
  finite_double (monthly_limit u) /\ finite_double (daily_limit u) /\
  finite_double (usage_percentage u) /\
  Forall (fun kv => Binary64.representable (snd kv)) (agent_breakdown u) /\
  Forall (fun kv => Binary64.representable (snd kv)) (layer_breakdown u) /\
  Forall (fun call => finite_double (layer call) /\ finite_double (duration_ms call))
         (recent_calls u).

(** ** The callbacks that use the connection hook *)

Definition set_loading (b : bool) (s : RealTimeUsageState) : RealTimeUsageState :=
  {| usage := usage s; quotaWarnings := quotaWarnings s;
     analytics := analytics s; loading := b; error := error s;
     lastUpdate := lastUpdate s; isRealTime := isRealTime s |}.

Definition refreshUsage (websocketActions : option UseWebSocket.WebSocketActions)
    (connectionState : UseWebSocket.ConnectionState)
    (sh : RealTimeUsageState * UseWebSocket.Hook)
    : RealTimeUsageState * UseWebSocket.Hook :=
  match websocketActions with
  | Some actions =>
      if UseWebSocket.authenticated connectionState then
        (set_loading true (fst sh), UseWebSocket.act_getUsage actions (snd sh))
      else sh
  | None => sh
  end.

(** The effect that runs when [connectionState.authenticated] changes. *)
Definition effect_authenticated
    (websocketActions : option UseWebSocket.WebSocketActions)
    (connectionState : UseWebSocket.ConnectionState)
    (sh : RealTimeUsageState * UseWebSocket.Hook)
    : RealTimeUsageState * UseWebSocket.Hook :=
  match websocketActions with
  | Some actions =>
      if UseWebSocket.authenticated connectionState then
        let h1 :=
          UseWebSocket.act_subscribe actions
            [UseWebSocket.usage_updates; UseWebSocket.quota_warnings] (snd sh) in
        let h2 := UseWebSocket.act_getUsage actions h1 in
        (set_loading false (fst sh), h2)
      else sh
  | None => sh
  end.

(** What can happen to the hook between two runs of that effect. *)
Inductive Action : Type :=
| do_message (clock : nat -> Z) (m : Inbound)
| do_clearWarnings
| do_dismissWarning (warningId : string)
| do_refreshUsage (websocketActions : option UseWebSocket.WebSocketActions)
    (connectionState : UseWebSocket.ConnectionState).

Definition act (Date_parse : string -> option Z) (getHours : Z -> nat)
    (parseInt : string -> number) (enableAnalytics : bool) (a : Action)
    (sh : RealTimeUsageState * UseWebSocket.Hook)
    : RealTimeUsageState * UseWebSocket.Hook :=
  match a with
  | do_message clock m =>
      (fst (handleWebSocketMessage Date_parse getHours parseInt enableAnalytics
              clock m (fst sh)), snd sh)
  | do_clearWarnings => (clearWarnings (fst sh), snd sh)
  | do_dismissWarning warningId => (dismissWarning warningId (fst sh), snd sh)
  | do_refreshUsage websocketActions connectionState =>
      refreshUsage websocketActions connectionState sh
  end.

(** ** The helper functions exported beside the hook *)

(** [x >= c] where [x] may be NaN or an infinity. *)
Definition number_geb (x : number) (c : Q) : bool :=
  match x with
  | Finite q => Qle_bool c q
  | NaN => false
  | Infinity neg => negb neg
  end.

Definition getUsageStatusColor (percentage : number) : string :=
  if number_geb percentage 90 then "text-red-500"
  else if number_geb percentage 75 then "text-yellow-500"
  else if number_geb percentage 50 then "text-blue-500"
  else "text-green-500".

(** The object literal of [getUsageStatusMessage], in the order it is
    written.  Its keys are numeric literals. *)
Definition blessings : list (Z * string) :=
  [(90%Z, "Approaching the appointed limits - wisdom suggests preparation");
   (75%Z, "Faithful usage continues - vigilance is prudent");
   (50%Z, "Blessed abundance remains - stewardship is wise");
   (0%Z, "Divine resources await your faithful use")]%string.

(** [Object.entries] of an object whose keys are all integer indices:
    the entries come in ascending order of the keys, whatever the order
    in which the literal lists them.  A key is kept as the integer that
    [parseInt] reads back from the property name. *)
Fixpoint insert_asc (kv : Z * string) (l : list (Z * string)) : list (Z * string) :=
  match l with
  | [] => [kv]
  | kv' :: r =>
      if (fst kv <? fst kv')%Z then kv :: kv' :: r
      else if (fst kv =? fst kv')%Z then kv :: r
      else kv' :: insert_asc kv r
  end.

Definition Object_entries (o : list (Z * string)) : list (Z * string) :=
  fold_left (fun acc kv => insert_asc kv acc) o [].

(** The [for ... of] loop: the message of the first entry whose threshold
    the percentage reaches. *)
Fixpoint firstReached (percentage : number) (entries : list (Z * string))
    : option string :=
  match entries with
  | [] => None
  | (threshold, message) :: rest =>
      if number_geb percentage (inject_Z threshold) then Some message
      else firstReached percentage rest
  end.

(** [None] stands for [undefined], which [blessings[0]] would be on an
    object without the key 0. *)
Definition getUsageStatusMessage (percentage : number) (tier : string)
    : option string :=
  match firstReached percentage (Object_entries blessings) with
  | Some message => Some message
  | None =>
      match find (fun kv => (fst kv =? 0)%Z) blessings with
      | Some kv => Some (snd kv)
      | None => None
      end
  end.

Definition formatUsageWithBiblicalContext (u : UsageUpdateMessage) : string :=
  let theme := biblical_theme u in
  (verse theme ++ String "010" (String "010" EmptyString)
   ++ message theme ++ String "010" (String "010" EmptyString)
   ++ "Stewardship: " ++ stewardship theme)%string.

(** ** The quantities the analytics are about *)

(** The hour of the day of a call, when its timestamp is a date. *)
Definition hourOf (Date_parse : string -> option Z) (getHours : Z -> nat)
    (call : UsageCallRecord) : option nat :=
  match Date_parse (timestamp call) with
  | Some t => Some (getHours t)
  | None => None
  end.

(** The number of calls of the 24-hour window made in a given hour. *)
Definition callsInHour (Date_parse : string -> option Z) (getHours : Z -> nat)
    (now : Z) (u : UsageUpdateMessage) (hour : nat) : nat :=
  List.length
    (filter (fun call =>
               match hourOf Date_parse getHours call with
               | Some h => (h =? hour)%nat
               | None => false
               end)
            (last24h Date_parse now u)).

(** ** A clock for trying the hook, and a snapshot

    Instants written as decimal milliseconds; hours in UTC. *)
Definition millis_parse (s : string) : option Z :=
  match NilZero.int_of_string s with
  | Some d => Some (Z.of_int d)
  | None => None
  end.

Definition utc_hours (t : Z) : nat := Z.to_nat ((t / 3600000) mod 24).

Definition no_parseInt (_ : string) : number := NaN.

Definition demo_call (t : string) (ok : bool) : UsageCallRecord :=
  {| timestamp := t; agent := "D4N13L"; layer := Finite 2;
     duration_ms := Finite 120; success := ok;
     error_message := if ok then None else Some "timeout"%string |}.

Definition demo_usage : UsageUpdateMessage :=
  {| user_id := "user_42"; monthly_usage := Finite 900;
     daily_usage := Finite 30; monthly_limit := Finite 1000;
     daily_limit := Finite 100; usage_percentage := Finite 90;
     last_call_time := "1700000000000";
     agent_breakdown := [("D4N13L"%string, 600); ("M0S3S"%string, 300)];
     layer_breakdown := [("1"%string, 100); ("2"%string, 800)];
     recent_calls :=
       [demo_call "1699990000000" true; demo_call "1699995000000" false;
        demo_call "1700000000000" true];
     tier := "pro";
     biblical_theme :=
       {| verse := "Luke 16:10"; message := "Faithful in little";
          blessing := None; warning := Some "Near the limit"%string;
          stewardship := "Use wisely" |} |}.

(** The actions of an authenticated render of the connection hook. *)
Definition demo_actions : UseWebSocket.WebSocketActions :=
  UseWebSocket.actions UseWebSocket.demo_opts UseWebSocket.demo_now
    UseWebSocket.demo_random UseWebSocket.demo_iso UseWebSocket.never_throws
    None UseWebSocket.r_authenticated.

(** ** A snapshot as the backend sends it

    Timestamps in the format of [toISOString], in UTC; [iso_parse] is
    [Date.parse] on that format, with or without the milliseconds.  What
    it does not read it answers as an invalid date. *)







Definition sample_call (t : string) (ok : bool) : UsageCallRecord :=
  {| timestamp := t; agent := "D4N13L"; layer := Finite 2;
     duration_ms := Finite (Binary64.nearest (12025 # 100)); success := ok;
     error_message := if ok then None else Some "timeout"%string |}.

Definition sample_usage : UsageUpdateMessage :=
  {| user_id := "user_42"; monthly_usage := Finite 905;
     daily_usage := Finite (Binary64.nearest (61 # 2));
     monthly_limit := Finite 1000; daily_limit := Finite 100;
     usage_percentage := Finite (Binary64.nearest (905 # 10));
     last_call_time := "2023-11-14T22:13:20.000Z";
     agent_breakdown :=
       [("D4N13L"%string, 600); ("M0S3S"%string, 305)];
     layer_breakdown :=
       [("1"%string, Binary64.nearest (1 # 10)); ("2"%string, 800)];
     recent_calls :=
       [sample_call "2023-11-14T19:26:40.000Z" true;
        sample_call "2023-11-14T20:50:00Z" false;
        sample_call "2023-11-14T22:13:20.000Z" true];
     tier := "pro";
     biblical_theme :=
       {| verse := "Luke 16:10"; message := "Faithful in little";
          blessing := None; warning := Some "Near the limit"%string;
          stewardship := "Use wisely" |} |}.

Definition holding (u : UsageUpdateMessage) : RealTimeUsageState :=
  {| usage := Some u; quotaWarnings := []; analytics := None;
     loading := false; error := None; lastUpdate := None;
     isRealTime := true |}.

(** The same snapshot from a message whose monthly usage was written
    as 1e999. *)
Definition overflowed_usage : UsageUpdateMessage :=
  {| user_id := user_id sample_usage; monthly_usage := Infinity false;
     daily_usage := daily_usage sample_usage;
     monthly_limit := monthly_limit sample_usage;
     daily_limit := daily_limit sample_usage;
     usage_percentage := usage_percentage sample_usage;
     last_call_time := last_call_time sample_usage;
     agent_breakdown := agent_breakdown sample_usage;
     layer_breakdown := layer_breakdown sample_usage;
     recent_calls := recent_calls sample_usage;
     tier := tier sample_usage;
     biblical_theme := biblical_theme sample_usage |}.

End UseRealTimeUsage.


(** * The portal component and its notifications
    ([src/components/realtime/index.tsx]) *)

Module RealTimePortal.

Record BiblicalContext : Set := {
  bc_verse : string;
  bc_message : string
}.

Record Notification : Set := {
  id : string;
  type : string;
  title : string;
  message : string;
  timestamp : Z;
  acknowledged : bool;
  biblicalContext : option BiblicalContext
}.

(** [Omit<Notification, 'id' | 'timestamp' | 'acknowledged'>]. *)
Record Draft : Set := {
  d_type : string;
  d_title : string;
  d_message : string;
  d_biblicalContext : option BiblicalContext
}.

Record PortalState : Set := {
  activeTab : string;
  showBiblicalContext : bool;
  notifications : list Notification;
  lastActivity : option Z
}.

Definition initialState : PortalState :=
  {| activeTab := "usage"; showBiblicalContext := true; notifications := [];
     lastActivity := None |}.

Definition set_notifications (l : list Notification) (s : PortalState) : PortalState :=
  {| activeTab := activeTab s; showBiblicalContext := showBiblicalContext s;
     notifications := l; lastActivity := lastActivity s |}.

(** The notification that [addNotification] builds: [now] is the reading
    of [Date.now()], [random] the random fragment, [stamp] the instant of
    [new Date()]. *)
Definition newNotification (now : Z) (random : string) (stamp : Z)
    (notification : Draft) : Notification :=
  {| id := "notif_" ++ string_of_Z now ++ "_" ++ random;
     type := d_type notification;
     title := d_title notification;
     message := d_message notification;
     timestamp := stamp;
     acknowledged := false;
     biblicalContext := d_biblicalContext notification |}.

Definition addNotification (now : Z) (random : string) (stamp : Z)
    (notification : Draft) (s : PortalState) : PortalState :=
  set_notifications
    (newNotification now random stamp notification :: firstn 9 (notifications s)) s.

Definition acknowledgeNotification (id0 : string) (s : PortalState) : PortalState :=
  set_notifications
    (List.map (fun notif =>
       if String.eqb (id notif) id0 then
         {| id := id notif; type := type notif; title := title notif;
            message := message notif; timestamp := timestamp notif;
            acknowledged := true; biblicalContext := biblicalContext notif |}
       else notif) (notifications s)) s.

Definition clearNotifications (s : PortalState) : PortalState :=
  set_notifications [] s.

Definition unacknowledgedNotifications (s : PortalState) : list Notification :=
  filter (fun n => negb (acknowledged n)) (notifications s).

(** The inbound message, as far as the portal's handler reads it.  An
    absent [data] is [None]. *)
Record QuotaWarning : Set := {
  qw_percentage_used : Q;
  qw_biblical_guidance : option BiblicalContext
}.

Record AlertData : Set := {
  a_type : string;
  a_title : string;
  a_message : string;
  a_biblical_context : option BiblicalContext
}.

Inductive Inbound : Set :=
| in_quota_warning (data : option QuotaWarning)
| in_agent_status (data : option (option (list (string * UseAgentStatus.AgentStatus))))
| in_alert (data : option AlertData)
| in_error (err : option string)
| in_other.

Inductive Callback : Set :=
| onUsageWarning (data : option QuotaWarning)
| onAgentAlert (errorAgents : list UseAgentStatus.AgentStatus).

(** How a call of the handler ends: it returns, or reading a property of
    an absent [data] throws. *)
Inductive Outcome : Set := returned | threw.

Section Handler.

(** [toFixed(1)] of a number. *)
Variable toFixed1 : Q -> string.

(** [handleWebSocketMessage]: [clock 0] is the instant stored in
    [lastActivity]; [clock 1], [random] and [clock 2] are what
    [addNotification] reads. *)
Definition handleWebSocketMessage (clock : nat -> Z) (random : string)
    (m : Inbound) (s : PortalState) : PortalState * list Callback * Outcome :=
  let s1 :=
    {| activeTab := activeTab s; showBiblicalContext := showBiblicalContext s;
       notifications := notifications s;
       lastActivity := Some (clock 0%nat) |} in
  let add := addNotification (clock 1%nat) random (clock 2%nat) in
  match m with
  | in_quota_warning (Some d) =>
      (add {| d_type := "warning"; d_title := "Quota Warning";
              d_message :=
                "Usage at " ++ toFixed1 (qw_percentage_used d) ++ "% of limit";
              d_biblicalContext := qw_biblical_guidance d |} s1,
       [onUsageWarning (Some d)], returned)
  | in_quota_warning None => (s1, [onUsageWarning None], threw)
  | in_agent_status (Some agents) =>
      let ags :=
        match agents with
        | Some o => UseAgentStatus.values o
        | None => []
        end in
      let errorAgents :=
        filter (fun agent =>
                  match UseAgentStatus.status agent with
                  | UseAgentStatus.error => true
                  | _ => false
                  end) ags in
      if (0 <? Z.of_nat (List.length errorAgents))%Z then
        (add {| d_type := "error"; d_title := "Agent Alert";
                d_message :=
                  string_of_Z (Z.of_nat (List.length errorAgents))
                  ++ " agent(s) require attention";
                d_biblicalContext :=
                  Some {| bc_verse :=
                            "Cast all your anxiety on him because he cares for you. - 1 Peter 5:7";
                          bc_message :=
                            "Divine agents face challenges. Prayer and intervention may be needed." |} |}
             s1,
         [onAgentAlert errorAgents], returned)
      else (s1, [], returned)
  | in_agent_status None => (s1, [], threw)
  | in_alert (Some d) =>
      (add {| d_type :=
                if String.eqb (a_type d) "blessing" then "success" else a_type d;
              d_title := a_title d; d_message := a_message d;
              d_biblicalContext := a_biblical_context d |} s1,
       [], returned)
  | in_alert None => (s1, [], returned)
  | in_error err =>
      (add {| d_type := "error"; d_title := "System Error";
              d_message := or_else err "An unknown error occurred";
              d_biblicalContext :=
                Some {| bc_verse :=
                          "The Lord will fight for you; you need only to be still. - Exodus 14:14";
                        bc_message :=
                          "Even in trials, divine support is available. Seek help if needed." |} |}
           s1,
       [], returned)
  | in_other => (s1, [], returned)
  end.

(** What can happen to the portal's state. *)
Inductive Action : Type :=
| do_addNotification (now : Z) (random : string) (stamp : Z) (notification : Draft)
| do_acknowledgeNotification (id0 : string)
| do_clearNotifications
| do_message (clock : nat -> Z) (random : string) (m : Inbound).

Definition act (a : Action) (s : PortalState) : PortalState :=
  match a with
  | do_addNotification now random stamp notification =>
      addNotification now random stamp notification s
  | do_acknowledgeNotification id0 => acknowledgeNotification id0 s
  | do_clearNotifications => clearNotifications s
  | do_message clock random m =>
      fst (fst (handleWebSocketMessage clock random m s))
  end.

End Handler.

(** An arrival: what one call of [addNotification] reads and is given. *)
Definition Arrival : Set := (Z * string * Z * Draft)%type.

Definition arrive (a : Arrival) (s : PortalState) : PortalState :=
  let '(now, random, stamp, notification) := a in
  addNotification now random stamp notification s.

Definition arrived (a : Arrival) : Notification :=
  let '(now, random, stamp, notification) := a in
  newNotification now random stamp notification.

Definition plain_toFixed1 (q : Q) : string := string_of_Z (Qnum q / Z.pos (Qden q)).

End RealTimePortal.

(** * Facts

    Everything above is the program; from here on, what is proved of it. *)

(** * The doubles: what is proved of the rounding and of the codec *)
Module Binary64Facts.

Import Binary64.

Local Open Scope Q_scope.

Lemma power2_pos e : 0 < power 2 e.
Proof. unfold power. apply Qpower_0_lt. reflexivity. Qed.

Lemma power2_le a b : (a <= b)%Z -> power 2 a <= power 2 b.
Proof. intros H. unfold power. apply Qpower_le_compat_l; [exact H | discriminate]. Qed.

Lemma power2_lt_inv a b : power 2 a < power 2 b -> (a < b)%Z.
Proof. intros H. unfold power in H. apply (Qpower_lt_compat_l_inv _ _ _ H). reflexivity. Qed.

Lemma power_nonneg_inject b e : (0 <= e)%Z -> power b e == inject_Z (b ^ e).
Proof. intros H. unfold power. symmetry. apply Zpower_Qpower. exact H. Qed.

Lemma power2_plus a b : power 2 (a + b) == power 2 a * power 2 b.
Proof. unfold power. apply Qpower_plus. discriminate. Qed.

Lemma power2_of_log z : (0 < z)%Z ->
  power 2 (Z.log2 z) <= inject_Z z /\ inject_Z z < power 2 (Z.log2 z + 1).
Proof.
  intros Hz. destruct (Z.log2_spec z Hz) as [H1 H2].
  pose proof (Z.log2_nonneg z) as H0.
  unfold power. rewrite <- !Zpower_Qpower by lia.
  split; [rewrite <- Zle_Qle; exact H1 | rewrite <- Zlt_Qlt].
  replace (Z.log2 z + 1)%Z with (Z.succ (Z.log2 z)) by lia. exact H2.
Qed.

Local Open Scope Z_scope.

Lemma digit_value_digit d : 0 <= d < 10 -> digit_value (digit d) = Some d.
Proof.
  intros H.
  assert (C : d = 0 \/ d = 1 \/ d = 2 \/ d = 3 \/ d = 4 \/ d = 5 \/ d = 6
              \/ d = 7 \/ d = 8 \/ d = 9) by lia.
  repeat (destruct C as [-> | C]; [reflexivity|]). subst d. reflexivity.
Qed.

Lemma digit_is_digit d : 0 <= d < 10 -> is_digit (digit d) = true.
Proof. intros H. unfold is_digit. rewrite (digit_value_digit d H). reflexivity. Qed.

Lemma digit_not_zero d : 0 < d < 10 -> Ascii.eqb (digit d) "0" = false.
Proof.
  intros H.
  assert (C : d = 1 \/ d = 2 \/ d = 3 \/ d = 4 \/ d = 5 \/ d = 6
              \/ d = 7 \/ d = 8 \/ d = 9) by lia.
  repeat (destruct C as [-> | C]; [reflexivity|]). subst d. reflexivity.
Qed.

Lemma digits_value_app a : forall b acc,
  digits_value acc (a ++ b)
  = match digits_value acc a with
    | Some m => digits_value m b
    | None => None
    end.
Proof.
  induction a as [|c a IH]; intros b acc; cbn [app digits_value]; [reflexivity|].
  destruct (digit_value c); [apply IH | reflexivity].
Qed.

Lemma digits_value_from l : forall acc acc' v,
  digits_value acc l = Some v ->
  digits_value acc' l = Some (v + (acc' - acc) * 10 ^ Z.of_nat (List.length l)).
Proof.
  induction l as [|c l IH]; intros acc acc' v; cbn [digits_value List.length].
  - intros H. injection H as <-. f_equal. cbn. lia.
  - destruct (digit_value c) as [d|]; [|discriminate].
    intros H. rewrite (IH _ (acc' * 10 + d) _ H). f_equal.
    rewrite Nat2Z.inj_succ, Z.pow_succ_r by lia. ring.
Qed.

Lemma digits_value_zeros j : forall acc,
  digits_value acc (repeat "0"%char j) = Some (acc * 10 ^ Z.of_nat j).
Proof.
  induction j as [|j IH]; intros acc; cbn [repeat digits_value].
  - f_equal. cbn. lia.
  - change (digit_value "0") with (Some 0). cbv iota. rewrite IH. f_equal.
    rewrite Nat2Z.inj_succ, Z.pow_succ_r by lia. ring.
Qed.

Lemma natural_aux_value fuel : forall z,
  0 <= z < 2 ^ Z.of_nat fuel -> digits_value 0 (natural_aux fuel z) = Some z.
Proof.
  induction fuel as [|f IH]; intros z Hz; cbn [natural_aux].
  - cbn in Hz. assert (z = 0) by lia. subst z. reflexivity.
  - destruct (z <? 10) eqn:E.
    + apply Z.ltb_lt in E. cbn [digits_value].
      rewrite digit_value_digit by lia. reflexivity.
    + apply Z.ltb_ge in E.
      rewrite Nat2Z.inj_succ, Z.pow_succ_r in Hz by lia.
      pose proof (Z.div_mod z 10 ltac:(lia)) as Hdm.
      pose proof (Z.mod_pos_bound z 10 ltac:(lia)) as Hm.
      rewrite digits_value_app, IH by lia.
      cbn [digits_value]. rewrite digit_value_digit by lia. f_equal. lia.
Qed.

Lemma natural_fuel z : 0 <= z -> z < 2 ^ Z.of_nat (S (Z.to_nat (Z.log2 z))).
Proof.
  intros Hz. rewrite Nat2Z.inj_succ, Z2Nat.id by apply Z.log2_nonneg.
  destruct (Z.eq_dec z 0) as [-> | Hne]; [reflexivity|].
  apply Z.log2_spec. lia.
Qed.

Lemma natural_value z : 0 <= z -> digits_value 0 (natural z) = Some z.
Proof.
  intros Hz. apply natural_aux_value. split; [exact Hz | apply natural_fuel, Hz].
Qed.

Lemma natural_aux_digits fuel : forall z,
  0 <= z -> Forall (fun c => is_digit c = true) (natural_aux fuel z).
Proof.
  induction fuel as [|f IH]; intros z Hz; cbn [natural_aux]; [constructor|].
  destruct (z <? 10) eqn:E.
  - apply Z.ltb_lt in E. constructor; [apply digit_is_digit; lia | constructor].
  - apply Forall_app. split.
    + apply IH. apply Z.div_pos; lia.
    + constructor; [|constructor]. apply digit_is_digit.
      apply Z.mod_pos_bound. lia.
Qed.

Lemma natural_digits z : 0 <= z -> Forall (fun c => is_digit c = true) (natural z).
Proof. apply natural_aux_digits. Qed.

Lemma natural_aux_head fuel : forall z,
  0 < z < 2 ^ Z.of_nat fuel ->
  exists c r, natural_aux fuel z = c :: r /\ Ascii.eqb c "0" = false.
Proof.
  induction fuel as [|f IH]; intros z Hz; cbn [natural_aux].
  - cbn in Hz. lia.
  - destruct (z <? 10) eqn:E.
    + apply Z.ltb_lt in E. exists (digit z), []. split; [reflexivity|].
      apply digit_not_zero. lia.
    + apply Z.ltb_ge in E.
      rewrite Nat2Z.inj_succ, Z.pow_succ_r in Hz by lia.
      pose proof (Z.div_mod z 10 ltac:(lia)) as Hdm.
      pose proof (Z.mod_pos_bound z 10 ltac:(lia)) as Hm.
      destruct (IH (z / 10)) as (c & r & -> & Hc); [lia|].
      exists c, (r ++ [digit (z mod 10)]). split; [reflexivity | exact Hc].
Qed.

Lemma natural_head z :
  0 < z -> exists c r, natural z = c :: r /\ Ascii.eqb c "0" = false.
Proof.
  intros Hz. apply natural_aux_head. split; [exact Hz | apply natural_fuel; lia].
Qed.

Lemma natural_not_nil z : natural z <> [].
Proof.
  unfold natural. cbn [natural_aux]. destruct (z <? 10); [discriminate|].
  intros H. apply app_eq_nil in H. destruct H as [_ H]. discriminate.
Qed.

Lemma span_digits_app ds : forall rest,
  Forall (fun c => is_digit c = true) ds ->
  match rest with [] => True | c :: _ => is_digit c = false end ->
  span_digits (ds ++ rest) = (ds, rest).
Proof.
  induction ds as [|c ds IH]; intros rest Hds Hrest; cbn [app span_digits].
  - destruct rest as [|c r]; [reflexivity|]. cbn [span_digits]. rewrite Hrest.
    reflexivity.
  - inversion Hds as [|? ? Hc Hds']; subst. rewrite Hc, (IH rest Hds' Hrest).
    reflexivity.
Qed.

Lemma some_digits_natural a : 0 <= a -> some_digits (natural a) = Some a.
Proof.
  intros Ha. unfold some_digits. pose proof (natural_not_nil a).
  destruct (natural a) eqn:E; [congruence|]. rewrite <- E. apply natural_value, Ha.
Qed.

Lemma exponent_part_of tail e : exponent_of tail e -> exponent_part tail = Some e.
Proof.
  intros [ | a Ha | a Ha]; cbn [exponent_part]; [reflexivity | |].
  - change (Ascii.eqb "e" "e" || Ascii.eqb "e" "E")%bool with true. cbv iota.
    change (Ascii.eqb "+" "-") with false.
    change (Ascii.eqb "+" "+") with true. cbv iota.
    apply some_digits_natural, Ha.
  - change (Ascii.eqb "e" "e" || Ascii.eqb "e" "E")%bool with true. cbv iota.
    change (Ascii.eqb "-" "-") with true. cbv iota.
    rewrite (some_digits_natural a Ha). reflexivity.
Qed.

Lemma exponent_not_digit tail e :
  exponent_of tail e -> match tail with [] => True | c :: _ => is_digit c = false end.
Proof. intros [ | a Ha | a Ha]; [exact I | reflexivity | reflexivity]. Qed.

(** A token written as an integer part, an optional fraction and an
    optional exponent reads as the decimal it spells. *)
Lemma decimal_spelled ds fs tail e m :
  Forall (fun c => is_digit c = true) ds -> integer_part ds = true ->
  Forall (fun c => is_digit c = true) fs ->
  exponent_of tail e ->
  digits_value 0 (ds ++ fs) = Some m ->
  decimal (ds ++ match fs with [] => tail | _ => "."%char :: fs ++ tail end)
  = Some (inject_Z m * power 10 (e - Z.of_nat (List.length fs)))%Q.
Proof.
  intros Hds Hint Hfs Htail Hm. unfold decimal.
  destruct fs as [|f fs].
  - rewrite (span_digits_app ds tail Hds (exponent_not_digit _ _ Htail)).
    rewrite Hint.
    assert (Hfr : fraction_part tail = Some ([], tail)).
    { destruct Htail; reflexivity. }
    rewrite Hfr, (exponent_part_of _ _ Htail), Hm. reflexivity.
  - rewrite (span_digits_app ds ("."%char :: (f :: fs) ++ tail) Hds eq_refl).
    rewrite Hint. cbn [fraction_part].
    change (Ascii.eqb "." ".") with true. cbv iota.
    rewrite (span_digits_app (f :: fs) tail Hfs (exponent_not_digit _ _ Htail)).
    rewrite (exponent_part_of _ _ Htail), Hm. reflexivity.
Qed.

Lemma decimal_spells l v : spells l v -> decimal l = Some v.
Proof.
  intros [ds tail e m Hds Hint Htail Hm | ds fs tail e m Hds Hint Hfs Hne Htail Hm].
  - pose proof (decimal_spelled ds [] tail e m Hds Hint (Forall_nil _) Htail) as H.
    rewrite app_nil_r in H. rewrite (H Hm). cbn [List.length Z.of_nat].
    rewrite Z.sub_0_r. reflexivity.
  - pose proof (decimal_spelled ds fs tail e m Hds Hint Hfs Htail Hm) as H.
    destruct fs; [congruence | exact H].
Qed.

Lemma integer_part_head c l : Ascii.eqb c "0" = false -> integer_part (c :: l) = true.
Proof. intros H. cbn [integer_part]. destruct l; [reflexivity|]. rewrite H. reflexivity. Qed.

Lemma Forall_firstn_skipn {A} (P : A -> Prop) n (l : list A) :
  Forall P l -> Forall P (firstn n l) /\ Forall P (skipn n l).
Proof. intros H. rewrite <- (firstn_skipn n l) in H. apply Forall_app in H. exact H. Qed.

Lemma places_pos s : 0 < places s.
Proof.
  unfold places. pose proof (natural_not_nil s).
  destruct (natural s); [congruence | cbn [List.length]; lia].
Qed.

Lemma render_spells s n :
  0 < s -> exists v, spells (render s n) v /\ (v == denotes (s, n))%Q.
Proof.
  intros Hs. unfold render, denotes. cbn [fst snd].
  pose proof (places_pos s) as Hk. unfold places in *.
  destruct (natural_head s Hs) as (c & r & Hnat & Hc).
  pose proof (natural_digits s ltac:(lia)) as Hds.
  pose proof (natural_value s ltac:(lia)) as Hval.
  set (ds := natural s) in *. set (k := Z.of_nat (List.length ds)) in *.
  destruct ((k <=? n) && (n <=? 21)) eqn:E1.
  { apply andb_prop in E1. destruct E1 as [E1 _]. apply Z.leb_le in E1.
    exists (inject_Z (s * 10 ^ Z.of_nat (Z.to_nat (n - k))) * power 10 0)%Q. split.
    - assert (Hzs : Forall (fun c => is_digit c = true)
                       (ds ++ repeat "0"%char (Z.to_nat (n - k)))).
      { apply Forall_app. split; [exact Hds|]. apply Forall_forall.
        intros x Hx. apply repeat_spec in Hx. subst x. reflexivity. }
      assert (Hint : integer_part (ds ++ repeat "0"%char (Z.to_nat (n - k))) = true)
        by (rewrite Hnat; apply integer_part_head, Hc).
      assert (Hm : digits_value 0 (ds ++ repeat "0"%char (Z.to_nat (n - k)))
                   = Some (s * 10 ^ Z.of_nat (Z.to_nat (n - k))))
        by (rewrite digits_value_app, Hval, digits_value_zeros; reflexivity).
      pose proof (spells_plain _ [] 0 _ Hzs Hint no_exponent Hm) as H.
      rewrite app_nil_r in H. exact H.
    - rewrite Z2Nat.id by lia. rewrite (power_nonneg_inject 10 (n - k)) by lia.
      rewrite inject_Z_mult. change (power 10 0) with 1%Q. ring. }
  destruct ((0 <? n) && (n <=? 21)) eqn:E2.
  { apply andb_prop in E2. destruct E2 as [E2 E2']. apply Z.ltb_lt in E2.
    apply Z.leb_le in E2'.
    assert (Hnk : n < k).
    { apply andb_false_iff in E1. destruct E1 as [E1 | E1];
        [apply Z.leb_gt in E1; exact E1|].
      apply Z.leb_gt in E1. lia. }
    destruct (Forall_firstn_skipn _ (Z.to_nat n) ds Hds) as [Hf Hsk].
    exists (inject_Z s * power 10 (0 - Z.of_nat (List.length (skipn (Z.to_nat n) ds))))%Q.
    split.
    - assert (Hint : integer_part (firstn (Z.to_nat n) ds) = true).
      { rewrite Hnat. destruct (Z.to_nat n) eqn:En; [lia|]. cbn [firstn].
        apply integer_part_head, Hc. }
      assert (Hne : skipn (Z.to_nat n) ds <> []).
      { intros H. apply (f_equal (@List.length _)) in H.
        rewrite length_skipn in H. cbn [List.length] in H. unfold k in *. lia. }
      assert (Hm : digits_value 0 (firstn (Z.to_nat n) ds ++ skipn (Z.to_nat n) ds)
                   = Some s) by (rewrite firstn_skipn; exact Hval).
      pose proof (spells_point _ _ [] 0 s Hf Hint Hsk Hne no_exponent Hm) as H.
      rewrite app_nil_r in H. exact H.
    - rewrite length_skipn.
      replace (0 - Z.of_nat (List.length ds - Z.to_nat n)) with (n - k) by lia.
      reflexivity. }
  destruct ((-6 <? n) && (n <=? 0)) eqn:E3.
  { apply andb_prop in E3. destruct E3 as [_ E3]. apply Z.leb_le in E3.
    exists (inject_Z s
            * power 10 (0 - Z.of_nat (List.length (repeat "0"%char (Z.to_nat (- n)) ++ ds))))%Q.
    split.
    - assert (Hfs : Forall (fun c => is_digit c = true)
                       (repeat "0"%char (Z.to_nat (- n)) ++ ds)).
      { apply Forall_app. split; [|exact Hds]. apply Forall_forall.
        intros x Hx. apply repeat_spec in Hx. subst x. reflexivity. }
      assert (Hne : repeat "0"%char (Z.to_nat (- n)) ++ ds <> []).
      { rewrite Hnat. intros H. apply app_eq_nil in H. destruct H. discriminate. }
      assert (Hm : digits_value 0 (["0"%char] ++ repeat "0"%char (Z.to_nat (- n)) ++ ds)
                   = Some s).
      { cbn [app digits_value]. change (digit_value "0") with (Some 0). cbv iota.
        rewrite digits_value_app, digits_value_zeros. cbn [Z.mul Z.add]. exact Hval. }
      assert (Hz : Forall (fun c => is_digit c = true) ["0"%char])
        by (constructor; [reflexivity | constructor]).
      pose proof (spells_point ["0"%char] _ [] 0 s Hz eq_refl Hfs Hne
                    no_exponent Hm) as H.
      rewrite app_nil_r in H. exact H.
    - rewrite length_app, repeat_length.
      replace (0 - Z.of_nat (Z.to_nat (- n) + List.length ds)) with (n - k) by lia.
      reflexivity. }
  assert (Hexp : exponent_of
            ("e"%char :: (if n - 1 <? 0 then "-"%char else "+"%char)
               :: natural (Z.abs (n - 1))) (n - 1)).
  { destruct (n - 1 <? 0) eqn:E.
    - apply Z.ltb_lt in E. replace (n - 1) with (- Z.abs (n - 1)) at 2 by lia.
      constructor. lia.
    - apply Z.ltb_ge in E. replace (n - 1) with (Z.abs (n - 1)) at 2 by lia.
      constructor. lia. }
  destruct (k =? 1) eqn:E4.
  - apply Z.eqb_eq in E4. exists (inject_Z s * power 10 (n - 1))%Q. split.
    + apply spells_plain; [exact Hds | | exact Hexp | exact Hval].
      rewrite Hnat. apply integer_part_head, Hc.
    + replace (n - k) with (n - 1) by lia. reflexivity.
  - apply Z.eqb_neq in E4.
    destruct (Forall_firstn_skipn _ 1%nat ds Hds) as [Hf Hsk].
    exists (inject_Z s * power 10 (n - 1 - Z.of_nat (List.length (skipn 1 ds))))%Q.
    split.
    + apply spells_point; [exact Hf | | exact Hsk | | exact Hexp | ].
      * rewrite Hnat. reflexivity.
      * intros H. apply (f_equal (@List.length _)) in H.
        rewrite length_skipn in H. cbn [List.length] in H. unfold k in *. lia.
      * rewrite firstn_skipn. exact Hval.
    + rewrite length_skipn.
      replace (n - 1 - Z.of_nat (List.length ds - 1)) with (n - k) by lia.
      reflexivity.
Qed.

Local Open Scope Q_scope.

(** The rounding looks at the number, not at the fraction that writes it. *)
Lemma binary64_Qeq p q : p == q -> binary64 p = binary64 q.
Proof.
  intros H. unfold binary64.
  rewrite (Qred_complete _ _ H).
  assert (Ho : - p == - q) by (rewrite H; reflexivity).
  rewrite (Qred_complete _ _ Ho).
  replace (p ?= 0) with (q ?= 0) by (rewrite H; reflexivity).
  reflexivity.
Qed.

Lemma round_positive_canonical q r : round_positive q = Finite r -> Qred r = r.
Proof.
  unfold round_positive. set (x := rounded q). clearbody x.
  destruct (Qle_bool _ _); [discriminate|].
  intros H. injection H as <-. apply Qred_complete, Qred_correct.
Qed.

(** A double is written as a fraction in lowest terms. *)
Lemma binary64_canonical q r : binary64 q = Finite r -> Qred r = r.
Proof.
  unfold binary64. destruct (q ?= 0).
  - intros H. injection H as <-. reflexivity.
  - intros H. destruct (round_positive (Qred (- q))) as [a| |] eqn:E;
      cbn [js_neg] in H; try discriminate.
    injection H as <-. rewrite Qred_opp, (round_positive_canonical _ _ E).
    reflexivity.
  - apply round_positive_canonical.
Qed.

Lemma Qopp_opp_eq (q : Q) : - - q = q.
Proof. destruct q as [a b]. unfold Qopp. cbn. rewrite Z.opp_involutive. reflexivity. Qed.

Lemma Pos_pow_1_l p : (1 ^ p)%positive = 1%positive.
Proof.
  apply Pos2Z.inj. rewrite Pos2Z.inj_pow. apply Z.pow_1_l. lia.
Qed.

Lemma Qden_power2 e : exists j, (0 <= j)%Z /\ Zpos (Qden (power 2 e)) = (2 ^ j)%Z.
Proof.
  unfold power. destruct e as [|p|p]; cbn [Qpower].
  - exists 0%Z. split; [lia | reflexivity].
  - change (inject_Z 2) with (2 # 1). rewrite Qpower_decomp_positive.
    exists 0%Z. split; [lia|]. cbn [Qden]. rewrite Pos_pow_1_l. reflexivity.
  - change (inject_Z 2) with (2 # 1). rewrite Qpower_decomp_positive.
    exists (Zpos p). split; [lia|].
    assert (H2 : (0 < 2 ^ Z.pos p)%Z) by (apply Z.pow_pos_nonneg; lia).
    destruct (2 ^ Z.pos p)%Z as [|x|x] eqn:E; try lia.
    cbn [Qinv Qnum Qden]. rewrite Pos.mul_1_l || idtac. reflexivity.
Qed.

Lemma Qden_Qred_divides q : (Zpos (Qden (Qred q)) | Zpos (Qden q))%Z.
Proof.
  destruct q as [a b]. unfold Qred.
  pose proof (Z.ggcd_correct_divisors a (Zpos b)) as H.
  pose proof (Z.ggcd_gcd a (Zpos b)) as Hg.
  destruct (Z.ggcd a (Zpos b)) as [g [aa bb]]. cbn [fst snd] in *.
  destruct H as [_ H]. cbn [Qden].
  assert (Hgpos : (0 <= g)%Z) by (rewrite Hg; apply Z.gcd_nonneg).
  assert (Hbb : (0 < bb)%Z) by nia.
  rewrite Z2Pos.id by exact Hbb.
  exists g. rewrite H. ring.
Qed.

Lemma double_dyadic q :
  0 < q -> binary64 q = Finite q ->
  Zpos (Qden q) = (2 ^ Z.log2 (Zpos (Qden q)))%Z.
Proof.
  intros Hq H. unfold binary64 in H.
  rewrite (proj1 (Qgt_alt q 0) Hq) in H. unfold round_positive, rounded in H.
  set (e := (Z.max (ilog2 (Qred q)) (-1022) - 52)%Z) in *.
  set (m := round_half_even (Qred q / power 2 e)) in *.
  pose proof (Qden_Qred_divides (inject_Z m * power 2 e)) as Hdiv.
  set (r := Qred (inject_Z m * power 2 e)) in *. clearbody r.
  destruct (Qle_bool _ r); [discriminate|].
  injection H as ->.
  destruct (Qden_power2 e) as (j & Hj & Hden).
  assert (Hd : Zpos (Qden (inject_Z m * power 2 e)) = (2 ^ j)%Z).
  { unfold Qmult. cbn [Qden inject_Z]. rewrite Pos.mul_1_l. exact Hden. }
  rewrite Hd in Hdiv.
  destruct (Zdivide_power_2 (Zpos (Qden q)) 2 j Hj ltac:(lia) (proj1 (prime_alt 2) Z.prime_2) Hdiv)
    as [i Hi].
  assert (Hi0 : (0 <= i)%Z).
  { destruct (Z.lt_ge_cases i 0) as [Hneg | Hok]; [|exact Hok].
    rewrite Z.pow_neg_r in Hi by exact Hneg. lia. }
  rewrite Hi at 2. rewrite Z.log2_pow2 by exact Hi0. exact Hi.
Qed.

Lemma denotes_exact q :
  Zpos (Qden q) = (2 ^ Z.log2 (Zpos (Qden q)))%Z -> denotes (exact q) == q.
Proof.
  intros Hd. unfold denotes, exact. cbn [fst snd].
  set (j := Z.log2 (Zpos (Qden q))) in *.
  assert (Hj : (0 <= j)%Z) by apply Z.log2_nonneg.
  replace (places (Qnum q * 5 ^ j) - j - places (Qnum q * 5 ^ j))%Z with (- j)%Z by lia.
  unfold power. rewrite Qpower_opp, <- Zpower_Qpower by exact Hj.
  replace (10 ^ j)%Z with (2 ^ j * 5 ^ j)%Z by (rewrite <- Z.pow_mul_l; reflexivity).
  rewrite <- Hd.
  assert (H5 : (0 < 5 ^ j)%Z) by (apply Z.pow_pos_nonneg; lia).
  destruct q as [a b]. cbn [Qnum Qden] in *.
  unfold Qeq, Qmult, Qinv. cbn [Qnum Qden inject_Z].
  destruct (Z.pos b * 5 ^ j)%Z as [|x|x] eqn:E; try lia.
  cbn [Qnum Qden]. rewrite Pos.mul_1_l. rewrite Z.mul_1_r.
  rewrite <- E. ring.
Qed.

(** The digits found for a double denote a decimal that rounds to it. *)
Lemma shortest_sound fuel q : forall n k c,
  shortest fuel q n k = Some c -> rounds_to q c = true.
Proof.
  induction fuel as [|f IH]; intros n k c; cbn [shortest]; [discriminate|].
  destruct (find (rounds_to q) (candidates q n k)) as [c'|] eqn:E.
  - intros H. injection H as <-. apply (find_some _ _ E).
  - apply IH.
Qed.

Lemma digits_sound q :
  0 < q -> binary64 q = Finite q ->
  (0 < fst (digits q))%Z /\ binary64 (denotes (digits q)) = Finite q.
Proof.
  intros Hq Hdouble. unfold digits.
  destruct (shortest 17 q (magnitude q) 1) as [c|] eqn:E.
  - apply shortest_sound in E. unfold rounds_to in E.
    apply andb_prop in E. destruct E as [Hs Hr]. apply Z.ltb_lt in Hs.
    split; [exact Hs|].
    destruct (binary64 (denotes c)) as [r| |] eqn:Er; try discriminate.
    apply Qeq_bool_eq in Hr.
    rewrite <- (binary64_canonical _ _ Er), <- (binary64_canonical _ _ Hdouble).
    f_equal. apply Qred_complete. exact Hr.
  - pose proof (double_dyadic q Hq Hdouble) as Hd. split.
    + unfold exact. cbn [fst].
      assert (0 < Qnum q)%Z by (unfold Qlt in Hq; cbn in Hq; lia).
      assert (0 < 5 ^ Z.log2 (Zpos (Qden q)))%Z
        by (apply Z.pow_pos_nonneg; [lia | apply Z.log2_nonneg]).
      nia.
    + rewrite (binary64_Qeq _ _ (denotes_exact q Hd)). exact Hdouble.
Qed.

Lemma spells_head l v :
  spells l v -> exists c r, l = c :: r /\ is_digit c = true.
Proof.
  intros [ds tail e m Hds Hint _ _ | ds fs tail e m Hds Hint _ _ _ _];
    (destruct ds as [|c r]; [discriminate Hint|]);
    inversion Hds; subst; eexists _, _; (split; [reflexivity | assumption]).
Qed.

Lemma digit_not_minus c : is_digit c = true -> Ascii.eqb c "-" = false.
Proof.
  intros H. destruct (Ascii.eqb c "-") eqn:E; [|reflexivity].
  apply Ascii.eqb_eq in E. subst c. discriminate H.
Qed.

Lemma decimal_render q :
  0 < q -> binary64 q = Finite q ->
  let '(s, n) := digits q in
  exists c r v, render s n = c :: r /\ Ascii.eqb c "-" = false /\
                decimal (render s n) = Some v /\ binary64 v = Finite q.
Proof.
  intros Hq Hdouble. destruct (digits_sound q Hq Hdouble) as [Hs Hr].
  destruct (digits q) as [s n]. cbn [fst] in Hs.
  destruct (render_spells s n Hs) as (v & Hsp & Hv).
  destruct (spells_head _ _ Hsp) as (c & r & Hl & Hc).
  exists c, r, v. split; [exact Hl|]. split; [apply digit_not_minus, Hc|].
  split; [apply decimal_spells, Hsp|].
  rewrite (binary64_Qeq _ _ Hv). exact Hr.
Qed.

(** What is written for a double reads back as that double. *)
Theorem StringToNumber_Number_toString q :
  binary64 q = Finite q -> StringToNumber (Number_toString q) = Some q.
Proof.
  intros Hdouble. unfold StringToNumber, Number_toString.
  rewrite list_ascii_of_string_of_list_ascii.
  destruct (q ?= 0) eqn:E.
  - apply Qeq_alt in E. rewrite (binary64_Qeq _ _ E) in Hdouble.
    injection Hdouble as <-. reflexivity.
  - apply Qlt_alt in E.
    assert (Hpos : 0 < - q) by lra.
    assert (Hd' : binary64 (- q) = Finite (- q)).
    { unfold binary64 in *. rewrite (proj1 (Qlt_alt q 0) E) in Hdouble.
      rewrite (proj1 (Qgt_alt (- q) 0) Hpos).
      destruct (round_positive (Qred (- q))) as [a| |]; cbn [js_neg] in Hdouble;
        try discriminate.
      injection Hdouble as <-. rewrite Qopp_opp_eq. reflexivity. }
    pose proof (decimal_render (- q) Hpos Hd') as H.
    destruct (digits (- q)) as [s n].
    destruct H as (c & r & v & _ & _ & Hdec & Hv).
    change (Ascii.eqb "-" "-") with true. cbv iota.
    rewrite Hdec, Hv. cbn [js_neg finite]. rewrite Qopp_opp_eq. reflexivity.
  - apply Qgt_alt in E.
    pose proof (decimal_render q E Hdouble) as H.
    destruct (digits q) as [s n].
    destruct H as (c & r & v & Hl & Hc & Hdec & Hv).
    rewrite Hl in *. rewrite Hc, Hdec, Hv. reflexivity.
Qed.

Lemma digit_num_char c : is_digit c = true -> JSON.is_num_char c = true.
Proof.
  unfold is_digit, digit_value, JSON.is_num_char.
  destruct ((48 <=? Z.of_nat (nat_of_ascii c)) && (Z.of_nat (nat_of_ascii c) <=? 57))%Z
    eqn:E; [|discriminate].
  intros _. apply andb_prop in E. destruct E as [E1 E2].
  apply Z.leb_le in E1, E2.
  replace (48 <=? nat_of_ascii c)%nat with true by (symmetry; apply Nat.leb_le; lia).
  replace (nat_of_ascii c <=? 57)%nat with true by (symmetry; apply Nat.leb_le; lia).
  reflexivity.
Qed.

Lemma all_num_chars l :
  Forall (fun c => JSON.is_num_char c = true) l ->
  JSON.all_num (string_of_list_ascii l) = true.
Proof.
  induction 1 as [|c l Hc Hl IH]; cbn [string_of_list_ascii JSON.all_num];
    [reflexivity|].
  rewrite Hc, IH. reflexivity.
Qed.

Lemma digits_num_chars l :
  Forall (fun c => is_digit c = true) l ->
  Forall (fun c => JSON.is_num_char c = true) l.
Proof. apply Forall_impl. exact digit_num_char. Qed.

Lemma exponent_num_chars tail e :
  exponent_of tail e -> Forall (fun c => JSON.is_num_char c = true) tail.
Proof.
  intros [ | a Ha | a Ha]; [constructor | |];
    (constructor; [reflexivity|]); (constructor; [reflexivity|]);
    apply digits_num_chars, natural_digits, Ha.
Qed.

Lemma spells_num_chars l v :
  spells l v -> Forall (fun c => JSON.is_num_char c = true) l.
Proof.
  intros [ds tail e m Hds _ Htail _ | ds fs tail e m Hds _ Hfs _ Htail _].
  - apply Forall_app. split; [apply digits_num_chars, Hds|].
    apply (exponent_num_chars _ _ Htail).
  - apply Forall_app. split; [apply digits_num_chars, Hds|].
    constructor; [reflexivity|]. apply Forall_app.
    split; [apply digits_num_chars, Hfs | apply (exponent_num_chars _ _ Htail)].
Qed.

(** What is written for a double is a number token. *)
Lemma Number_toString_token q :
  binary64 q = Finite q ->
  JSON.all_num (Number_toString q) = true /\ Number_toString q <> EmptyString.
Proof.
  intros Hdouble.
  assert (Hpos : forall p, 0 < p -> binary64 p = Finite p ->
            let '(s, n) := digits p in
            Forall (fun c => JSON.is_num_char c = true) (render s n) /\
            render s n <> []).
  { intros p Hp Hd. destruct (digits_sound p Hp Hd) as [Hs _].
    destruct (digits p) as [s n]. cbn [fst] in Hs.
    destruct (render_spells s n Hs) as (v & Hsp & _).
    split; [apply (spells_num_chars _ _ Hsp)|].
    destruct (spells_head _ _ Hsp) as (c & r & -> & _). discriminate. }
  unfold Number_toString. destruct (q ?= 0) eqn:E.
  - split; [reflexivity | discriminate].
  - apply Qlt_alt in E. assert (Hp : 0 < - q) by lra.
    assert (Hd' : binary64 (- q) = Finite (- q)).
    { unfold binary64 in *. rewrite (proj1 (Qlt_alt q 0) E) in Hdouble.
      rewrite (proj1 (Qgt_alt (- q) 0) Hp).
      destruct (round_positive (Qred (- q))) as [a| |]; cbn [js_neg] in Hdouble;
        try discriminate.
      injection Hdouble as <-. rewrite Qopp_opp_eq. reflexivity. }
    specialize (Hpos (- q) Hp Hd'). destruct (digits (- q)) as [s n].
    destruct Hpos as [Hall _]. split; [|discriminate].
    apply all_num_chars. constructor; [reflexivity | exact Hall].
  - apply Qgt_alt in E. specialize (Hpos q E Hdouble).
    destruct (digits q) as [s n]. destruct Hpos as [Hall Hne].
    split; [apply all_num_chars, Hall|].
    destruct (render s n); [congruence | discriminate].
Qed.

(** [ilog2] is the exponent of the power of two at or below a number. *)
Lemma ilog2_spec q :
  0 < q -> power 2 (ilog2 q) <= q /\ q < power 2 (ilog2 q + 1).
Proof.
  intros Hq. unfold ilog2.
  assert (Hn : (0 < Qnum q)%Z) by (unfold Qlt in Hq; cbn in Hq; lia).
  destruct (power2_of_log (Qnum q) Hn) as [Hn1 Hn2].
  destruct (power2_of_log (Zpos (Qden q)) eq_refl) as [Hd1 Hd2].
  set (a := Z.log2 (Qnum q)) in *. set (b := Z.log2 (Zpos (Qden q))) in *.
  assert (Hqd : q == inject_Z (Qnum q) / inject_Z (Zpos (Qden q))).
  { destruct q as [n d]. apply Qmake_Qdiv. }
  assert (Hdpos : 0 < inject_Z (Zpos (Qden q))) by reflexivity.
  pose proof (power2_pos b) as Hb. pose proof (power2_pos (b + 1)) as Hb1.
  pose proof (power2_pos (a - b)) as Hab.
  assert (Hup : q < power 2 (a - b + 1)).
  { rewrite Hqd. apply Qlt_shift_div_r; [exact Hdpos|].
    apply (Qlt_le_trans _ _ _ Hn2).
    replace (a + 1)%Z with ((a - b + 1) + b)%Z by lia. rewrite power2_plus.
    apply Qmult_le_l; [apply power2_pos | exact Hd1]. }
  assert (Hlow : power 2 (a - b - 1) <= q).
  { rewrite Hqd. apply Qle_shift_div_l; [exact Hdpos|].
    apply Qle_trans with (power 2 (a - b - 1) * power 2 (b + 1)).
    - apply Qmult_le_l; [apply power2_pos | apply Qlt_le_weak, Hd2].
    - rewrite <- power2_plus. replace (a - b - 1 + (b + 1))%Z with a by lia.
      exact Hn1. }
  destruct (Qle_bool (power 2 (a - b)) q) eqn:E.
  - apply Qle_bool_iff in E. split; [exact E | exact Hup].
  - split; [exact Hlow|].
    replace (a - b - 1 + 1)%Z with (a - b)%Z by lia.
    apply Qnot_le_lt. intros H. apply Qle_bool_iff in H. congruence.
Qed.

Lemma ilog2_le p q : 0 < p -> p <= q -> (ilog2 p <= ilog2 q)%Z.
Proof.
  intros Hp Hpq. assert (Hq : 0 < q) by lra.
  destruct (ilog2_spec p Hp) as [H1 _]. destruct (ilog2_spec q Hq) as [_ H2].
  assert (H : power 2 (ilog2 p) < power 2 (ilog2 q + 1)) by lra.
  apply power2_lt_inv in H. lia.
Qed.

Lemma round_half_even_near q :
  round_half_even q = Qfloor q \/ round_half_even q = (Qfloor q + 1)%Z.
Proof.
  unfold round_half_even.
  destruct (q - inject_Z (Qfloor q) ?= 1 # 2); [|left; reflexivity | right; reflexivity].
  destruct (Z.even (Qfloor q)); [left | right]; reflexivity.
Qed.

Lemma round_half_even_ge q (z : Z) : inject_Z z <= q -> (z <= round_half_even q)%Z.
Proof.
  intros H. apply Qfloor_resp_le in H. rewrite Qfloor_Z in H.
  destruct (round_half_even_near q) as [-> | ->]; lia.
Qed.

Lemma round_half_even_le q (z : Z) : q <= inject_Z z -> (round_half_even q <= z)%Z.
Proof.
  intros H. pose proof (Qfloor_le q) as Hf.
  destruct (Z.eq_dec (Qfloor q) z) as [Heq | Hne].
  - assert (Hqz : q == inject_Z z) by (rewrite Heq in Hf; lra).
    unfold round_half_even. rewrite Heq.
    replace (q - inject_Z z ?= 1 # 2) with Lt; [cbv iota; lia|].
    symmetry. apply (proj1 (Qlt_alt _ _)). lra.
  - assert (Hlt : (Qfloor q < z)%Z).
    { apply Qfloor_resp_le in H. rewrite Qfloor_Z in H. lia. }
    destruct (round_half_even_near q) as [-> | ->]; lia.
Qed.

Lemma round_half_even_mono p q : p <= q -> (round_half_even p <= round_half_even q)%Z.
Proof.
  intros H. pose proof (Qfloor_resp_le _ _ H) as Hf.
  destruct (Z.eq_dec (Qfloor p) (Qfloor q)) as [Heq | Hne].
  - unfold round_half_even. rewrite Heq.
    destruct (Qcompare_spec (p - inject_Z (Qfloor q)) (1 # 2)) as [Ep | Ep | Ep];
      destruct (Qcompare_spec (q - inject_Z (Qfloor q)) (1 # 2)) as [Eq | Eq | Eq];
      try (destruct (Z.even (Qfloor q))); try lia; exfalso; lra.
  - destruct (round_half_even_near p) as [-> | ->];
      destruct (round_half_even_near q) as [-> | ->]; lia.
Qed.

Lemma round_positive_rounded q :
  round_positive q
  = if Qle_bool (power 2 1024) (Qred (rounded q)) then Infinity false
    else Finite (Qred (rounded q)).
Proof. reflexivity. Qed.

Lemma rounded_nonneg q : 0 < q -> 0 <= rounded q.
Proof.
  intros Hq. unfold rounded.
  set (u := power 2 (Z.max (ilog2 q) (-1022) - 52)).
  assert (Hu : 0 < u) by apply power2_pos.
  apply Qmult_le_0_compat; [|lra].
  change 0 with (inject_Z 0). rewrite <- Zle_Qle.
  apply round_half_even_ge. change (inject_Z 0) with 0.
  apply Qle_shift_div_l; [exact Hu | lra].
Qed.

Lemma rounded_mono p q : 0 < p -> p <= q -> rounded p <= rounded q.
Proof.
  intros Hp Hpq. assert (Hq : 0 < q) by lra.
  pose proof (ilog2_le p q Hp Hpq) as Hlog.
  unfold rounded.
  set (ep := Z.max (ilog2 p) (-1022)). set (eq := Z.max (ilog2 q) (-1022)).
  assert (Hup : 0 < power 2 (ep - 52)) by apply power2_pos.
  assert (Huq : 0 < power 2 (eq - 52)) by apply power2_pos.
  destruct (Z.eq_dec ep eq) as [Heq | Hne].
  - rewrite Heq. apply Qmult_le_compat_r; [|lra].
    rewrite <- Zle_Qle. apply round_half_even_mono.
    apply Qmult_le_compat_r; [exact Hpq|]. apply Qlt_le_weak, Qinv_lt_0_compat, Huq.
  - assert (Hlt : (ep < eq)%Z) by lia.
    assert (Heq' : eq = ilog2 q) by lia.
    destruct (ilog2_spec p Hp) as [_ Hp2]. destruct (ilog2_spec q Hq) as [Hq1 _].
    apply Qle_trans with (power 2 (ep + 1)).
    + apply Qle_trans with (inject_Z (2 ^ 53) * power 2 (ep - 52)).
      * apply Qmult_le_compat_r; [|lra]. rewrite <- Zle_Qle.
        apply round_half_even_le. apply Qle_shift_div_r; [exact Hup|].
        change (inject_Z (2 ^ 53)) with (power 2 53). rewrite <- power2_plus.
        replace (53 + (ep - 52))%Z with (ep + 1)%Z by lia.
        apply Qle_trans with (power 2 (ilog2 p + 1)); [lra|].
        apply power2_le. lia.
      * change (inject_Z (2 ^ 53)) with (power 2 53). rewrite <- power2_plus.
        replace (53 + (ep - 52))%Z with (ep + 1)%Z by lia. apply Qle_refl.
    + apply Qle_trans with (inject_Z (2 ^ 52) * power 2 (eq - 52)).
      * change (inject_Z (2 ^ 52)) with (power 2 52). rewrite <- power2_plus.
        replace (52 + (eq - 52))%Z with eq by lia. apply power2_le. lia.
      * apply Qmult_le_compat_r; [|lra]. rewrite <- Zle_Qle.
        apply round_half_even_ge. apply Qle_shift_div_l; [exact Huq|].
        change (inject_Z (2 ^ 52)) with (power 2 52). rewrite <- power2_plus.
        replace (52 + (eq - 52))%Z with eq by lia. rewrite Heq'. exact Hq1.
Qed.

Lemma round_positive_mono p q :
  0 < p -> p <= q -> num_le (round_positive p) (round_positive q).
Proof.
  intros Hp Hpq. pose proof (rounded_mono p q Hp Hpq) as H.
  rewrite !round_positive_rounded.
  pose proof (Qred_correct (rounded p)) as Cp.
  pose proof (Qred_correct (rounded q)) as Cq.
  destruct (Qle_bool (power 2 1024) (Qred (rounded q))) eqn:Eq.
  - destruct (Qle_bool (power 2 1024) (Qred (rounded p))); exact I.
  - destruct (Qle_bool (power 2 1024) (Qred (rounded p))) eqn:Ep.
    + apply Qle_bool_iff in Ep.
      assert (Hc : Qle_bool (power 2 1024) (Qred (rounded q)) = true).
      { apply Qle_bool_iff. rewrite Cq. rewrite Cp in Ep. lra. }
      congruence.
    + cbn [num_le]. rewrite Cp, Cq. exact H.
Qed.

Lemma round_positive_nonneg q :
  0 < q -> num_le (Finite 0) (round_positive q).
Proof.
  intros Hq. rewrite round_positive_rounded.
  destruct (Qle_bool _ _); [exact I|]. cbn [num_le].
  rewrite Qred_correct. apply rounded_nonneg, Hq.
Qed.

Lemma num_le_neg x y : num_le x y -> num_le (js_neg y) (js_neg x).
Proof.
  destruct x as [a| |[|]], y as [b| |[|]]; cbn [num_le js_neg negb];
    try tauto. intros H. lra.
Qed.

Lemma num_le_trans x y z : num_le x y -> num_le y z -> num_le x z.
Proof.
  destruct x as [a| |[|]], y as [b| |[|]], z as [c| |[|]]; cbn [num_le];
    try tauto. intros. lra.
Qed.

(** Rounding to the nearest double keeps the order. *)
Theorem binary64_monotone : monotone binary64.
Proof.
  intros a b Hab. unfold binary64.
  destruct (Qcompare_spec a 0) as [Ea | Ea | Ea];
    destruct (Qcompare_spec b 0) as [Eb | Eb | Eb]; try (exfalso; lra).
  - cbn [num_le]. lra.
  - apply round_positive_nonneg. rewrite Qred_correct. exact Eb.
  - apply (num_le_neg (Finite 0)). apply round_positive_nonneg.
    rewrite Qred_correct. lra.
  - apply num_le_neg. apply round_positive_mono; rewrite !Qred_correct; lra.
  - apply num_le_trans with (Finite 0).
    + apply (num_le_neg (Finite 0)). apply round_positive_nonneg.
      rewrite Qred_correct. lra.
    + apply round_positive_nonneg. rewrite Qred_correct. exact Eb.
  - apply round_positive_mono; rewrite !Qred_correct; lra.
Qed.

Lemma power2_le_inv a b : power 2 a <= power 2 b -> (a <= b)%Z.
Proof. intros H. unfold power in H. apply (Qpower_le_compat_l_inv _ _ _ H). reflexivity. Qed.

Lemma round_half_even_integer q (k : Z) : q == inject_Z k -> round_half_even q = k.
Proof.
  intros H. unfold round_half_even.
  assert (Hf : Qfloor q = k) by (rewrite H; apply Qfloor_Z).
  rewrite Hf.
  replace (q - inject_Z k ?= 1 # 2) with Lt; [reflexivity|].
  symmetry. apply (proj1 (Qlt_alt _ _)). lra.
Qed.

Lemma rounded_integer q (z : Z) :
  q == inject_Z z -> (0 < z <= 2 ^ 53)%Z -> rounded q == q.
Proof.
  intros Hq Hz. unfold rounded.
  assert (Hpos : 0 < q).
  { rewrite Hq. change 0 with (inject_Z 0). rewrite <- Zlt_Qlt. lia. }
  destruct (ilog2_spec q Hpos) as [H1 H2].
  assert (Hlo : (0 <= ilog2 q)%Z).
  { assert (H : power 2 0 < power 2 (ilog2 q + 1)).
    { apply Qle_lt_trans with q; [|exact H2].
      rewrite Hq. change (power 2 0) with (inject_Z 1). rewrite <- Zle_Qle. lia. }
    apply power2_lt_inv in H. lia. }
  assert (Hhi : (ilog2 q <= 53)%Z).
  { apply power2_le_inv. apply Qle_trans with q; [exact H1|].
    rewrite Hq. change (power 2 53) with (inject_Z (2 ^ 53)).
    rewrite <- Zle_Qle. lia. }
  replace (Z.max (ilog2 q) (-1022)) with (ilog2 q) by lia.
  set (e := ilog2 q) in *.
  assert (Hu : 0 < power 2 (e - 52)) by apply power2_pos.
  assert (Hk : exists k : Z, q / power 2 (e - 52) == inject_Z k).
  { destruct (Z.eq_dec e 53) as [He | He].
    - exists (2 ^ 52)%Z.
      assert (Hz53 : z = (2 ^ 53)%Z).
      { assert (Hle : inject_Z (2 ^ 53) <= inject_Z z).
        { rewrite <- Hq. rewrite He in H1. exact H1. }
        rewrite <- Zle_Qle in Hle. lia. }
      rewrite He, Hq, Hz53. reflexivity.
    - exists (z * 2 ^ (52 - e))%Z.
      rewrite inject_Z_mult, Hq, <- (power_nonneg_inject 2 (52 - e)) by lia.
      assert (Hprod : power 2 (52 - e) * power 2 (e - 52) == 1).
      { rewrite <- power2_plus. replace (52 - e + (e - 52))%Z with 0%Z by lia.
        reflexivity. }
      assert (Hinv : power 2 (52 - e) == / power 2 (e - 52)).
      { apply Qmult_inj_r with (power 2 (e - 52)); [lra|].
        rewrite Hprod. field. lra. }
      rewrite Hinv. reflexivity. }
  destruct Hk as [k Hk].
  rewrite (round_half_even_integer _ _ Hk), <- Hk.
  field. lra.
Qed.

(** An integer of at most 53 bits is a double. *)
Theorem binary64_exact_integer : exact_on_integers binary64.
Proof.
  assert (Hpos : forall q z, q == inject_Z z -> (0 < z <= 2 ^ 53)%Z ->
            exists r, round_positive (Qred q) = Finite r /\ r == q).
  { intros q z Hq Hz.
    assert (Hq' : Qred q == inject_Z z) by (rewrite Qred_correct; exact Hq).
    pose proof (rounded_integer _ _ Hq' Hz) as Hr.
    rewrite round_positive_rounded.
    assert (Hv : Qred (rounded (Qred q)) == q)
      by (rewrite Qred_correct, Hr; apply Qred_correct).
    replace (Qle_bool (power 2 1024) (Qred (rounded (Qred q)))) with false.
    - eexists. split; [reflexivity | exact Hv].
    - symmetry. apply not_true_is_false. intros H. apply Qle_bool_iff in H.
      rewrite Hv, Hq in H.
      assert (Hle : inject_Z z <= inject_Z (2 ^ 53)) by (rewrite <- Zle_Qle; lia).
      assert (Hlt : inject_Z (2 ^ 53) < power 2 1024) by reflexivity.
      lra. }
  intros q z Hq Hz. unfold exact_at, binary64.
  destruct (Qcompare_spec q 0) as [E | E | E].
  - exists 0. split; [reflexivity | symmetry; exact E].
  - assert (Hz0 : (z < 0)%Z).
    { rewrite Hq in E. change 0 with (inject_Z 0) in E. rewrite <- Zlt_Qlt in E.
      exact E. }
    destruct (Hpos (- q) (- z)%Z) as (r & Hr & Hrq).
    + rewrite Hq, inject_Z_opp. reflexivity.
    + lia.
    + rewrite Hr. cbn [js_neg]. exists (- r). split; [reflexivity|].
      rewrite Hrq. ring.
  - assert (Hz0 : (0 < z)%Z).
    { rewrite Hq in E. change 0 with (inject_Z 0) in E. rewrite <- Zlt_Qlt in E.
      exact E. }
    apply (Hpos q z Hq). lia.
Qed.

End Binary64Facts.

(** ** The connection hook *)

Module WebSocketFacts.

Import UseWebSocket.

Local Open Scope Z_scope.

Section Facts.

Variable opts : UseWebSocketOptions.
Variable Date_now : nat -> Z.
Variable Math_random : nat -> string.
Variable toISOString : Z -> string.
Variable emit_throws : nat -> WebSocketMessage -> bool.
Variable io_throws : option string.

Local Abbreviation fullMessage :=
  (UseWebSocket.fullMessage Date_now Math_random toISOString).
Local Abbreviation try_emit := (UseWebSocket.try_emit emit_throws).
Local Abbreviation sendMessage :=
  (UseWebSocket.sendMessage Date_now Math_random toISOString emit_throws).
Local Abbreviation processMessageQueue :=
  (UseWebSocket.processMessageQueue emit_throws).
Local Abbreviation subscribe :=
  (UseWebSocket.subscribe Date_now Math_random toISOString emit_throws).
Local Abbreviation unsubscribe :=
  (UseWebSocket.unsubscribe Date_now Math_random toISOString emit_throws).
Local Abbreviation handle_auth_result :=
  (UseWebSocket.handle_auth_result Date_now Math_random toISOString emit_throws).
Local Abbreviation handle_message :=
  (UseWebSocket.handle_message Date_now Math_random toISOString emit_throws).
Local Abbreviation authenticate :=
  (UseWebSocket.authenticate Date_now Math_random toISOString emit_throws).
Local Abbreviation handle_connect :=
  (UseWebSocket.handle_connect opts Date_now Math_random toISOString emit_throws).
Local Abbreviation maxAttempts := (UseWebSocket.maxAttempts opts).
Local Abbreviation reconnectDelay := (UseWebSocket.reconnectDelay opts).
Local Abbreviation handle_disconnect := (UseWebSocket.handle_disconnect opts).
Local Abbreviation socket_disconnect := (UseWebSocket.socket_disconnect opts).
Local Abbreviation disconnect := (UseWebSocket.disconnect opts).

(** Building the envelope only reads the clock. *)
Lemma fullMessage_cells message h :
  let h1 := snd (fullMessage message h) in
  connectionState h1 = connectionState h /\
  socketRef h1 = socketRef h /\
  reconnectTimeoutRef h1 = reconnectTimeoutRef h /\
  pingIntervalRef h1 = pingIntervalRef h /\
  messageQueueRef h1 = messageQueueRef h /\
  pendingSubscriptionsRef h1 = pendingSubscriptionsRef h /\
  trace h1 = trace h.
Proof.
  unfold UseWebSocket.fullMessage.
  destruct (p_id message) as [i|]; [destruct (truthy i)|]; cbn; repeat split.
Qed.

Lemma fullMessage_fields message h :
  let m := fst (fullMessage message h) in
  msg_type m = p_type message /\ msg_data m = p_data message.
Proof.
  unfold UseWebSocket.fullMessage.
  destruct (p_id message) as [i|]; [destruct (truthy i)|]; cbn; split; reflexivity.
Qed.

Ltac with_fullMessage message h :=
  let m := fresh "m" in
  let h1 := fresh "h" in
  let E := fresh "E" in
  let Hc := fresh "Hc" in
  pose proof (fullMessage_cells message h) as Hc;
  destruct (fullMessage message h) as [m h1] eqn:E; cbn [snd fst] in *;
  destruct Hc as (?Hst & ?Hsock & ?Hrt & ?Hpi & ?Hq & ?Hps & ?Htr).

(** What [sendMessage] does, by cases on its guard. *)
Lemma sendMessage_queued r message h :
  socketRef h = None \/ connected r = false ->
  messageQueueRef (sendMessage r message h)
    = messageQueueRef h ++ [fst (fullMessage message h)] /\
  trace (sendMessage r message h) = trace h.
Proof.
  intros Hguard. unfold UseWebSocket.sendMessage.
  with_fullMessage message h.
  destruct (socketRef h0) as [s|] eqn:Es.
  - destruct Hguard as [Hn | Hn]; [congruence|].
    rewrite Hn. cbn. rewrite Hq, Htr. split; reflexivity.
  - cbn. rewrite Hq, Htr. split; reflexivity.
Qed.

Lemma sendMessage_sent r message h s :
  socketRef h = Some s -> connected r = true ->
  emit_throws (sock_id s) (fst (fullMessage message h)) = false ->
  messageQueueRef (sendMessage r message h) = messageQueueRef h /\
  trace (sendMessage r message h)
    = trace h ++ [Emit (sock_id s) (fst (fullMessage message h))].
Proof.
  intros Hs Hc Hok. unfold UseWebSocket.sendMessage.
  with_fullMessage message h.
  rewrite Hsock, Hs, Hc. unfold UseWebSocket.try_emit. rewrite Hok. cbn.
  rewrite Hq, Htr. split; reflexivity.
Qed.

Lemma sendMessage_thrown r message h s :
  socketRef h = Some s -> connected r = true ->
  emit_throws (sock_id s) (fst (fullMessage message h)) = true ->
  messageQueueRef (sendMessage r message h)
    = messageQueueRef h ++ [fst (fullMessage message h)] /\
  trace (sendMessage r message h) = trace h.
Proof.
  intros Hs Hc Hok. unfold UseWebSocket.sendMessage.
  with_fullMessage message h.
  rewrite Hsock, Hs, Hc. unfold UseWebSocket.try_emit. rewrite Hok. cbn.
  rewrite Hq, Htr. split; reflexivity.
Qed.

(** [sendMessage] touches the queue, the trace and the clock only. *)
Lemma sendMessage_cells r message h :
  connectionState (sendMessage r message h) = connectionState h /\
  socketRef (sendMessage r message h) = socketRef h /\
  reconnectTimeoutRef (sendMessage r message h) = reconnectTimeoutRef h /\
  pingIntervalRef (sendMessage r message h) = pingIntervalRef h /\
  pendingSubscriptionsRef (sendMessage r message h) = pendingSubscriptionsRef h.
Proof.
  unfold UseWebSocket.sendMessage.
  with_fullMessage message h.
  destruct (socketRef h0) as [s|] eqn:Es; [destruct (connected r)|];
    unfold UseWebSocket.try_emit, enqueue; try destruct (emit_throws _ _); cbn;
    repeat split; congruence.
Qed.

(** C1 (as amended): the guard of [sendMessage] is the socket and the
    [connected] flag, not authentication.  Without a socket, or while not
    connected, the envelope is appended to the queue and nothing is
    emitted; with a socket and while connected the envelope is emitted at
    once, authenticated or not, and is queued instead only if that emit
    throws. *)
Theorem sendMessage_guard r message h :
  let m := fst (fullMessage message h) in
  let h' := sendMessage r message h in
  (socketRef h = None \/ connected r = false ->
     messageQueueRef h' = messageQueueRef h ++ [m] /\ trace h' = trace h) /\
  (forall s, socketRef h = Some s -> connected r = true ->
     emit_throws (sock_id s) m = false ->
     messageQueueRef h' = messageQueueRef h /\
     trace h' = trace h ++ [Emit (sock_id s) m]) /\
  (forall s, socketRef h = Some s -> connected r = true ->
     emit_throws (sock_id s) m = true ->
     messageQueueRef h' = messageQueueRef h ++ [m] /\ trace h' = trace h).
Proof.
  cbv zeta. split; [|split].
  - apply sendMessage_queued.
  - intros s. apply sendMessage_sent.
  - intros s. apply sendMessage_thrown.
Qed.

Lemma emitted_app t1 t2 : emitted (t1 ++ t2) = emitted t1 ++ emitted t2.
Proof.
  induction t1 as [|e t1 IH]; cbn; [reflexivity|].
  destruct e; cbn; rewrite IH; reflexivity.
Qed.

Lemma emitted_Emit sid q : emitted (map (Emit sid) q) = q.
Proof. induction q as [|m q IH]; cbn; [|rewrite IH]; reflexivity. Qed.

Lemma timeouts_app t1 t2 : timeouts (t1 ++ t2) = timeouts t1 ++ timeouts t2.
Proof.
  induction t1 as [|e t1 IH]; cbn; [reflexivity|].
  destruct e; cbn; rewrite IH; reflexivity.
Qed.

(** Either way [sendMessage] ends, the envelope went to exactly one
    place: the end of the queue or the wire. *)
Lemma sendMessage_effect r message h :
  let m := fst (fullMessage message h) in
  let h' := sendMessage r message h in
  (messageQueueRef h' = messageQueueRef h ++ [m] /\ trace h' = trace h) \/
  (messageQueueRef h' = messageQueueRef h /\
   exists sid, trace h' = trace h ++ [Emit sid m]).
Proof.
  cbv zeta.
  destruct (socketRef h) as [s|] eqn:Es.
  - destruct (connected r) eqn:Ec.
    + destruct (emit_throws (sock_id s) (fst (fullMessage message h))) eqn:Et.
      * left. eapply sendMessage_thrown; eassumption.
      * right. destruct (sendMessage_sent r message h s Es Ec Et) as [Hq Ht].
        split; [exact Hq | exists (sock_id s); exact Ht].
    + left. apply sendMessage_queued. right. exact Ec.
  - left. apply sendMessage_queued. left. exact Es.
Qed.

(** The loop of [processMessageQueue]: one emit per queued envelope, in
    order; what throws goes back on the queue. *)
Lemma drain_loop s q : forall h,
  let h' := fold_left (fun acc m => try_emit s m acc) q h in
  messageQueueRef h' = messageQueueRef h ++ filter (emit_throws (sock_id s)) q /\
  trace h' = trace h ++
    map (Emit (sock_id s)) (filter (fun m => negb (emit_throws (sock_id s) m)) q).
Proof.
  induction q as [|m q IH]; intros h; cbn.
  - rewrite !app_nil_r. split; reflexivity.
  - destruct (IH (try_emit s m h)) as [Hq Ht]. cbv zeta in Hq, Ht.
    rewrite Hq, Ht. unfold UseWebSocket.try_emit, enqueue.
    destruct (emit_throws (sock_id s) m); cbn.
    + rewrite <- app_assoc. split; reflexivity.
    + rewrite <- app_assoc. split; reflexivity.
Qed.

Lemma processMessageQueue_drains r h s :
  socketRef h = Some s -> connected r = true ->
  messageQueueRef (processMessageQueue r h)
    = filter (emit_throws (sock_id s)) (messageQueueRef h) /\
  trace (processMessageQueue r h)
    = trace h ++ map (Emit (sock_id s))
        (filter (fun m => negb (emit_throws (sock_id s) m)) (messageQueueRef h)).
Proof.
  intros Hs Hc. unfold UseWebSocket.processMessageQueue. rewrite Hs, Hc.
  destruct (messageQueueRef h) as [|m q] eqn:Eq.
  - cbn. rewrite Eq, app_nil_r. split; reflexivity.
  - replace (true && (0 <? Z.of_nat (List.length (m :: q)))) with true
      by (cbn [List.length]; symmetry; apply andb_true_intro; split;
          [reflexivity | apply Z.ltb_lt; lia]).
    cbv zeta.
    destruct (drain_loop s (m :: q) (set_messageQueueRef [] h)) as [Hq Ht].
    cbv zeta in Hq, Ht. rewrite Hq, Ht. cbn. split; reflexivity.
Qed.

Lemma filter_all {A} (f : A -> bool) (l : list A) :
  (forall x, In x l -> f x = true) -> filter f l = l.
Proof.
  induction l as [|a l IH]; cbn; intros H; [reflexivity|].
  rewrite (H a (or_introl eq_refl)), IH; [reflexivity|].
  intros x Hx. apply H. right. exact Hx.
Qed.

Lemma filter_none {A} (f : A -> bool) (l : list A) :
  (forall x, In x l -> f x = false) -> filter f l = [].
Proof.
  induction l as [|a l IH]; cbn; intros H; [reflexivity|].
  rewrite (H a (or_introl eq_refl)). apply IH.
  intros x Hx. apply H. right. exact Hx.
Qed.

(** What the [auth_result] branch does to the queue and to the wire: it
    drains nothing; at most it adds one fresh subscribe envelope. *)
Lemma handle_auth_result_queue r message h :
  let h' := handle_auth_result r message h in
  exists kept sent,
    messageQueueRef h' = messageQueueRef h ++ kept /\
    emitted (trace h') = emitted (trace h) ++ sent /\
    (List.length kept + List.length sent <= 1)%nat /\
    (forall m, In m (kept ++ sent) -> msg_type m = Some MT_subscribe).
Proof.
  cbv zeta. unfold UseWebSocket.handle_auth_result.
  assert (Hnone : forall h0 : Hook, messageQueueRef h0 = messageQueueRef h ->
            emitted (trace h0) = emitted (trace h) ->
            exists kept sent,
              messageQueueRef h0 = messageQueueRef h ++ kept /\
              emitted (trace h0) = emitted (trace h) ++ sent /\
              (List.length kept + List.length sent <= 1)%nat /\
              (forall m, In m (kept ++ sent) -> msg_type m = Some MT_subscribe)).
  { intros h0 Hq Ht. exists [], []. rewrite !app_nil_r. cbn.
    split; [exact Hq|]. split; [exact Ht|]. split; [lia|]. intros m []. }
  destruct (authDataOf message) as [a|]; [|apply Hnone; reflexivity].
  destruct (ad_success a); [|apply Hnone; reflexivity].
  set (h1 := setConnectionState _ h).
  destruct (0 <? Z.of_nat (List.length (pendingSubscriptionsRef h1))).
  2:{ cbn. rewrite emitted_app, app_nil_r. apply Hnone; reflexivity. }
  cbn [perform trace messageQueueRef set_pendingSubscriptionsRef].
  rewrite emitted_app. cbn [emitted]. rewrite app_nil_r.
  unfold UseWebSocket.subscribe. destruct (authenticated r).
  2:{ apply Hnone; reflexivity. }
  set (pm := partial MT_subscribe _).
  pose proof (fullMessage_fields pm h1) as [Hty _]. cbv zeta in Hty.
  destruct (sendMessage_effect r pm h1) as [[Hq Ht] | [Hq [sid Ht]]];
    cbv zeta in Hq, Ht; rewrite Hq, Ht.
  - exists [fst (fullMessage pm h1)], []. cbn. rewrite app_nil_r.
    repeat split; try lia. intros m [<- | []]. exact Hty.
  - exists [], [fst (fullMessage pm h1)]. rewrite emitted_app. cbn.
    rewrite app_nil_r. repeat split; try lia. intros m [<- | []]. exact Hty.
Qed.

(** The connect handler, when the render it reads is connected: the auth
    envelope goes out first, then the queue in order. *)
Lemma handle_connect_drains r h s :
  socketRef h = Some s -> connected r = true ->
  (forall m, emit_throws (sock_id s) m = false) ->
  messageQueueRef (handle_connect r h) = [] /\
  exists auth,
    msg_type auth = Some MT_auth /\
    emitted (trace (handle_connect r h))
      = emitted (trace h) ++ auth :: messageQueueRef h.
Proof.
  intros Hs Hc Hok. unfold UseWebSocket.handle_connect. cbv zeta.
  match goal with
  | |- context [UseWebSocket.authenticate _ _ _ _ _ _ _ ?x] => set (h3 := x)
  end.
  assert (H3 : socketRef h3 = Some s /\
               messageQueueRef h3 = messageQueueRef h /\
               emitted (trace h3) = emitted (trace h)).
  { subst h3. unfold clearReconnectTimeout. cbn [reconnectTimeoutRef setConnectionState].
    destruct (reconnectTimeoutRef h) as [t|]; destruct (0 <? pingInterval opts);
      cbn; rewrite ?emitted_app; cbn; rewrite ?app_nil_r; auto. }
  destruct H3 as (Hs3 & Hq3 & Ht3).
  unfold UseWebSocket.authenticate.
  set (pm := partial MT_auth _).
  destruct (sendMessage_sent r pm h3 s Hs3 Hc (Hok _)) as [Hq4 Ht4].
  destruct (sendMessage_cells r pm h3) as (_ & Hs4 & _).
  rewrite Hs3 in Hs4.
  destruct (processMessageQueue_drains r (sendMessage r pm h3) s Hs4 Hc)
    as [Hq5 Ht5].
  destruct (fullMessage_fields pm h3) as [Hty _]. cbv zeta in Hty.
  cbn [perform messageQueueRef trace]. split.
  - rewrite Hq5. apply filter_none. intros m _. apply Hok.
  - exists (fst (fullMessage pm h3)). split; [exact Hty|].
    rewrite emitted_app, Ht5, emitted_app, emitted_Emit, Ht4, emitted_app.
    cbn [emitted]. rewrite app_nil_r, Hq4, Hq3, Ht3, <- app_assoc.
    rewrite filter_all; [reflexivity|].
    intros m _. rewrite Hok. reflexivity.
Qed.

(** C2 (as amended): queued envelopes are drained by
    [processMessageQueue], which is invoked by the transport's connect
    handler and not on authentication.  When it runs with a socket and
    with its [connected] flag set, every queued envelope is emitted exactly
    once, in FIFO order; the envelopes whose emit throws are put back on
    the queue in their order, so the queue is empty afterwards when no
    emit throws.  In the connect handler the auth envelope goes out first
    and the queue follows.  The [auth_result] branch drains nothing: it
    leaves every queued envelope where it was and puts on the wire at most
    one fresh subscribe envelope. *)
Theorem processMessageQueue_fifo r h s :
  socketRef h = Some s -> connected r = true ->
  let q := messageQueueRef h in
  let sid := sock_id s in
  let h' := processMessageQueue r h in
  (messageQueueRef h' = filter (emit_throws sid) q /\
   trace h' = trace h ++
     map (Emit sid) (filter (fun m => negb (emit_throws sid m)) q)) /\
  ((forall m, In m q -> emit_throws sid m = false) ->
   messageQueueRef h' = [] /\
   emitted (trace h') = emitted (trace h) ++ q) /\
  ((forall m, emit_throws sid m = false) ->
   messageQueueRef (handle_connect r h) = [] /\
   exists auth,
     msg_type auth = Some MT_auth /\
     emitted (trace (handle_connect r h)) = emitted (trace h) ++ auth :: q) /\
  (forall message,
     let ha := handle_auth_result r message h in
     exists kept sent,
       messageQueueRef ha = q ++ kept /\
       emitted (trace ha) = emitted (trace h) ++ sent /\
       (List.length kept + List.length sent <= 1)%nat /\
       (forall m, In m (kept ++ sent) -> msg_type m = Some MT_subscribe)).
Proof.
  intros Hs Hc. cbv zeta.
  destruct (processMessageQueue_drains r h s Hs Hc) as [Hq Ht].
  split; [split; assumption|]. split; [|split].
  - intros Hok. rewrite Hq, Ht, emitted_app, emitted_Emit. split.
    + apply filter_none. exact Hok.
    + f_equal. apply filter_all. intros m Hm. rewrite (Hok m Hm). reflexivity.
  - intros Hok. apply (handle_connect_drains r h s); assumption.
  - intros message. apply handle_auth_result_queue.
Qed.

(** C3 (as amended): on an [auth_result] whose [data.success] is not
    truthy the handler records the error ([data.error], or 'Authentication
    failed' when that is missing or empty) and clears [authenticated];
    every other field of the state, [connected] among them, is left as it
    was, so the manager does not become Disconnected.  The socket stays in
    place, no reconnect timer is armed and nothing is sent: the only effect
    is the [onMessage] callback.  While that socket is connected a later
    [connect()] returns at once, so nothing retries unless the caller
    re-authenticates or disconnects first. *)
Theorem auth_failure_records_error r message h :
  msg_type message = Some MT_auth_result ->
  (forall a, authDataOf message = Some a -> ad_success a = false) ->
  let h' := handle_message r message h in
  let c := connectionState h in
  let e := match authDataOf message with
           | Some a => or_else (ad_error a) "Authentication failed"
           | None => "Authentication failed"%string
           end in
  connectionState h' =
    {| connected := connected c; authenticated := false;
       connecting := connecting c; error := Some e; lastPong := lastPong c;
       retryCount := retryCount c; userInfo := userInfo c |} /\
  socketRef h' = socketRef h /\
  reconnectTimeoutRef h' = reconnectTimeoutRef h /\
  pingIntervalRef h' = pingIntervalRef h /\
  messageQueueRef h' = messageQueueRef h /\
  pendingSubscriptionsRef h' = pendingSubscriptionsRef h /\
  trace h' = trace h ++ [Call (onMessage message)] /\
  (forall s r', socketRef h = Some s -> sock_connected s = true ->
     connect opts io_throws r' h' = h').
Proof.
  intros Hty Hfail. cbv zeta.
  assert (Hsock : socketRef (handle_message r message h) = socketRef h).
  { unfold UseWebSocket.handle_message, UseWebSocket.handle_auth_result.
    rewrite Hty.
    destruct (authDataOf message) as [a|] eqn:Ea;
      [rewrite (Hfail a eq_refl)|]; reflexivity. }
  repeat match goal with |- _ /\ _ => split end;
    try (intros s r' Hs Hconn; unfold connect; rewrite Hsock, Hs, Hconn;
         reflexivity);
    unfold UseWebSocket.handle_message, UseWebSocket.handle_auth_result;
    rewrite Hty;
    (destruct (authDataOf message) as [a|] eqn:Ea;
     [rewrite (Hfail a eq_refl)|]); reflexivity.
Qed.

Lemma handle_disconnect_manual r h :
  timeouts (trace (handle_disconnect r "io client disconnect" h))
    = timeouts (trace h) /\
  reconnectTimeoutRef (handle_disconnect r "io client disconnect" h)
    = reconnectTimeoutRef h.
Proof.
  unfold UseWebSocket.handle_disconnect, clearPingInterval.
  replace (String.eqb "io client disconnect" "io client disconnect") with true
    by (symmetry; apply String.eqb_refl).
  cbn [negb andb].
  destruct (pingIntervalRef (setConnectionState _ h)) as [t|] eqn:Ep;
    cbn; rewrite ?timeouts_app; cbn; rewrite ?app_nil_r; split; reflexivity.
Qed.

(** C5 (as amended): after [disconnect()] the reconnect timer and the ping
    interval held by the refs are cleared, the socket is disconnected and
    dropped, and the connection state is the initial one (no error, no user
    info, retry count zero); the message queue and the pending
    subscriptions are left as they were.  No reconnect timer is armed: the
    disconnect handler never arms one for the reason 'io client
    disconnect', whatever the retry count. *)
Theorem disconnect_resets h :
  let h' := disconnect h in
  reconnectTimeoutRef h' = None /\
  pingIntervalRef h' = None /\
  socketRef h' = None /\
  connectionState h' = initialState /\
  messageQueueRef h' = messageQueueRef h /\
  pendingSubscriptionsRef h' = pendingSubscriptionsRef h /\
  timeouts (trace h') = timeouts (trace h) /\
  (forall t, reconnectTimeoutRef h = Some t -> In (ClearTimeout t) (trace h')) /\
  (forall t, pingIntervalRef h = Some t -> In (ClearInterval t) (trace h')) /\
  (forall s, socketRef h = Some s -> In (SocketDisconnect (sock_id s)) (trace h')) /\
  (forall r h0,
     timeouts (trace (handle_disconnect r "io client disconnect" h0))
       = timeouts (trace h0)).
Proof using opts.
  clear Date_now Math_random toISOString emit_throws io_throws.
  cbv zeta.
  repeat match goal with |- _ /\ _ => split end;
    try (intros r h0; apply handle_disconnect_manual);
    try intros x Hx;
    unfold UseWebSocket.disconnect, UseWebSocket.socket_disconnect, UseWebSocket.handle_disconnect,
      clearReconnectTimeout, clearPingInterval;
    replace (String.eqb "io client disconnect" "io client disconnect") with true
      by (symmetry; apply String.eqb_refl);
    cbn [negb andb];
    destruct h as [c so rt pi q ps tr fr tk];
    destruct rt as [t1|]; destruct pi as [t2|];
    destruct so as [[sid [|] sr]|]; cbn; try (cbn in Hx);
    rewrite ?timeouts_app; cbn; rewrite ?app_nil_r;
    try reflexivity; try discriminate;
    injection Hx as <-; rewrite ?in_app_iff; cbn; tauto.
Qed.

Lemma uniq_from_spec l : forall seen,
  NoDup (uniq_from seen l) /\
  (forall x, In x (uniq_from seen l) <-> In x l /\ ~ In x seen).
Proof.
  induction l as [|a l IH]; intros seen; cbn.
  - split; [constructor | intros x; tauto].
  - destruct (in_dec SubscriptionType_eq_dec a seen) as [Hin | Hnin].
    + destruct (IH seen) as [Hnd Hiff]. split; [exact Hnd|].
      intros x. rewrite Hiff. split; [tauto|].
      intros [[<- | Hx] Hs]; [contradiction | tauto].
    + destruct (IH (a :: seen)) as [Hnd Hiff]. split.
      * constructor; [|exact Hnd]. rewrite Hiff. cbn. tauto.
      * intros x. cbn. rewrite Hiff. cbn.
        destruct (SubscriptionType_eq_dec a x) as [<- | Hne]; tauto.
Qed.

Lemma uniq_spec l :
  NoDup (uniq l) /\ (forall x, In x (uniq l) <-> In x l).
Proof.
  destruct (uniq_from_spec l []) as [Hnd Hiff]. split; [exact Hnd|].
  intros x. unfold uniq. rewrite Hiff. cbn. tauto.
Qed.

(** What [sendMessage] does with an envelope handed to it: it transmits
    the envelope at once when a socket exists, the render is connected
    and the emit does not throw, and appends it to the queue otherwise. *)
Lemma sendMessage_hands_over r message h :
  let m := fst (fullMessage message h) in
  let h' := sendMessage r message h in
  msg_type m = p_type message /\ msg_data m = p_data message /\
  pendingSubscriptionsRef h' = pendingSubscriptionsRef h /\
  (forall s, socketRef h = Some s -> connected r = true ->
     emit_throws (sock_id s) m = false ->
     emitted (trace h') = emitted (trace h) ++ [m] /\
     messageQueueRef h' = messageQueueRef h) /\
  (socketRef h = None \/ connected r = false \/
   (exists s, socketRef h = Some s /\ emit_throws (sock_id s) m = true) ->
     messageQueueRef h' = messageQueueRef h ++ [m] /\
     emitted (trace h') = emitted (trace h)).
Proof.
  cbv zeta.
  destruct (fullMessage_fields message h) as [Hty Hda]. cbv zeta in Hty, Hda.
  destruct (sendMessage_cells r message h) as (_ & _ & _ & _ & Hp).
  split; [exact Hty|]. split; [exact Hda|]. split; [exact Hp|]. split.
  - intros s Hs Hc Hok.
    destruct (sendMessage_sent r message h s Hs Hc Hok) as [Hq Ht].
    rewrite Ht, emitted_app. cbn. split; [reflexivity | exact Hq].
  - intros [Hn | [Hc | (s & Hs & Hthrow)]].
    + destruct (sendMessage_queued r message h (or_introl Hn)) as [Hq Ht].
      rewrite Ht. split; [exact Hq | reflexivity].
    + destruct (sendMessage_queued r message h (or_intror Hc)) as [Hq Ht].
      rewrite Ht. split; [exact Hq | reflexivity].
    + destruct (connected r) eqn:Hc.
      * destruct (sendMessage_thrown r message h s Hs Hc Hthrow) as [Hq Ht].
        rewrite Ht. split; [exact Hq | reflexivity].
      * destruct (sendMessage_queued r message h (or_intror Hc)) as [Hq Ht].
        rewrite Ht. split; [exact Hq | reflexivity].
Qed.

(** C6 (as amended): the hook keeps no reference counts and no set of
    active topics.  While authenticated, [subscribe(topics)] hands exactly
    one subscribe envelope carrying exactly the topics given to
    [sendMessage], whatever was subscribed before; [unsubscribe(topics)]
    always hands exactly one unsubscribe envelope carrying exactly the
    topics given to [sendMessage], whoever else still wants them.  Such
    an envelope is transmitted at once when a socket exists, the render
    is connected and the emit does not throw, and is appended to the
    queue otherwise.  While not authenticated, [subscribe] only merges
    the topics into the pending list, without duplicates, and neither
    sends nor queues anything. *)
Theorem subscribe_unsubscribe_direct r subs h :
  let handed := fun (t : MessageType) (h' : Hook) =>
    exists m,
      msg_type m = Some t /\
      msg_data m = Some (PSubscriptions subs) /\
      pendingSubscriptionsRef h' = pendingSubscriptionsRef h /\
      (forall s, socketRef h = Some s -> connected r = true ->
         emit_throws (sock_id s) m = false ->
         emitted (trace h') = emitted (trace h) ++ [m] /\
         messageQueueRef h' = messageQueueRef h) /\
      (socketRef h = None \/ connected r = false \/
       (exists s, socketRef h = Some s /\ emit_throws (sock_id s) m = true) ->
         messageQueueRef h' = messageQueueRef h ++ [m] /\
         emitted (trace h') = emitted (trace h)) in
  (authenticated r = true -> handed MT_subscribe (subscribe r subs h)) /\
  handed MT_unsubscribe (unsubscribe r subs h) /\
  (authenticated r = false ->
     let p := pendingSubscriptionsRef (subscribe r subs h) in
     p = uniq (pendingSubscriptionsRef h ++ subs) /\
     NoDup p /\
     (forall t, In t p <-> In t (pendingSubscriptionsRef h) \/ In t subs) /\
     trace (subscribe r subs h) = trace h /\
     messageQueueRef (subscribe r subs h) = messageQueueRef h).
Proof.
  cbv zeta.
  assert (Hsend : forall t,
    exists m,
      msg_type m = Some t /\
      msg_data m = Some (PSubscriptions subs) /\
      pendingSubscriptionsRef
        (sendMessage r (partial t (Some (PSubscriptions subs))) h)
        = pendingSubscriptionsRef h /\
      (forall s, socketRef h = Some s -> connected r = true ->
         emit_throws (sock_id s) m = false ->
         emitted (trace (sendMessage r (partial t (Some (PSubscriptions subs))) h))
           = emitted (trace h) ++ [m] /\
         messageQueueRef (sendMessage r (partial t (Some (PSubscriptions subs))) h)
           = messageQueueRef h) /\
      (socketRef h = None \/ connected r = false \/
       (exists s, socketRef h = Some s /\ emit_throws (sock_id s) m = true) ->
         messageQueueRef (sendMessage r (partial t (Some (PSubscriptions subs))) h)
           = messageQueueRef h ++ [m] /\
         emitted (trace (sendMessage r (partial t (Some (PSubscriptions subs))) h))
           = emitted (trace h))).
  { intros t. set (pm := partial t _).
    exists (fst (fullMessage pm h)).
    exact (sendMessage_hands_over r pm h). }
  split; [|split].
  - intros Ha. unfold UseWebSocket.subscribe. rewrite Ha. apply Hsend.
  - unfold UseWebSocket.unsubscribe. apply Hsend.
  - intros Ha. unfold UseWebSocket.subscribe. rewrite Ha. cbn.
    destruct (uniq_spec (pendingSubscriptionsRef h ++ subs)) as [Hnd Hiff].
    repeat split; try assumption.
    + intros Ht. apply Hiff in Ht. apply in_app_iff in Ht. exact Ht.
    + intros Ht. apply Hiff. apply in_app_iff. exact Ht.
Qed.

(** *** Further facts about the callbacks *)

Local Abbreviation outbound :=
  (UseWebSocket.outbound Date_now Math_random toISOString emit_throws).
Local Abbreviation connect := (UseWebSocket.connect opts io_throws).
Local Abbreviation reconnect_timer := (UseWebSocket.reconnect_timer opts io_throws).
Local Abbreviation event_connect :=
  (UseWebSocket.event_connect opts Date_now Math_random toISOString emit_throws).
Local Abbreviation event_disconnect := (UseWebSocket.event_disconnect opts).
Local Abbreviation drop_and_retry :=
  (UseWebSocket.drop_and_retry opts Date_now Math_random toISOString emit_throws
     io_throws).

Lemma filter_split_length {A} (f : A -> bool) (l : list A) :
  (List.length (filter (fun x => negb (f x)) l) + List.length (filter f l)
   = List.length l)%nat.
Proof.
  induction l as [|a l IH]; cbn; [reflexivity|].
  destruct (f a); cbn; lia.
Qed.

Lemma sendMessage_accounted r message h :
  accounted (sendMessage r message h) = S (accounted h).
Proof.
  unfold accounted.
  destruct (sendMessage_effect r message h) as [[Hq Ht] | [Hq [sid Ht]]];
    cbv zeta in Hq, Ht; rewrite Hq, Ht.
  - rewrite length_app. cbn. lia.
  - rewrite emitted_app, length_app. cbn. lia.
Qed.

Lemma processMessageQueue_accounted r h :
  accounted (processMessageQueue r h) = accounted h.
Proof.
  unfold accounted.
  destruct (socketRef h) as [s|] eqn:Es.
  - destruct (connected r) eqn:Ec.
    + destruct (processMessageQueue_drains r h s Es Ec) as [Hq Ht].
      rewrite Hq, Ht, emitted_app, emitted_Emit, length_app.
      pose proof (filter_split_length (emit_throws (sock_id s)) (messageQueueRef h)).
      lia.
    + unfold UseWebSocket.processMessageQueue. rewrite Es, Ec. reflexivity.
  - unfold UseWebSocket.processMessageQueue. rewrite Es. reflexivity.
Qed.

(** X1: on the outbound path no envelope is lost and none is duplicated.
    Whatever renders the calls are made from and whichever emits throw,
    after any script of [sendMessage] and [processMessageQueue] calls the
    envelopes on the wire and the envelopes in the queue together number
    what they did before plus one per [sendMessage]. *)
Theorem outbound_conserves_envelopes (script : list Outbound) : forall h,
  accounted (fold_left (fun acc c => outbound c acc) script h)
  = (accounted h + List.length (filter isSend script))%nat.
Proof.
  induction script as [|c script IH]; intros h; cbn [fold_left filter].
  - cbn. lia.
  - rewrite IH. destruct c as [r message | r]; cbn [UseWebSocket.outbound isSend].
    + rewrite sendMessage_accounted. cbn. lia.
    + rewrite processMessageQueue_accounted. lia.
Qed.

Lemma keepsTransport_refl h : keepsTransport h h.
Proof. repeat split. Qed.

Lemma keepsTransport_trans h1 h2 h3 :
  keepsTransport h1 h2 -> keepsTransport h2 h3 -> keepsTransport h1 h3.
Proof.
  unfold keepsTransport. intros H12 H23.
  decompose [and] H12. decompose [and] H23. repeat split; congruence.
Qed.

Lemma sendMessage_keepsTransport r message h :
  keepsTransport h (sendMessage r message h).
Proof.
  destruct (sendMessage_cells r message h) as (Hc & Hs & Hr & Hp & _).
  unfold keepsTransport. rewrite Hc, Hs, Hr, Hp.
  repeat split.
  destruct (sendMessage_effect r message h) as [[_ Ht] | [_ [sid Ht]]];
    cbv zeta in Ht; rewrite Ht; [reflexivity|].
  rewrite timeouts_app. cbn. apply app_nil_r.
Qed.

Lemma handle_auth_result_keepsTransport r message h :
  keepsTransport h (handle_auth_result r message h).
Proof.
  unfold UseWebSocket.handle_auth_result.
  destruct (authDataOf message) as [a|]; [|repeat split].
  destruct (ad_success a); [|repeat split].
  set (h1 := setConnectionState _ h).
  assert (H1 : keepsTransport h h1) by (repeat split).
  destruct (0 <? Z.of_nat (List.length (pendingSubscriptionsRef h1))).
  - apply (keepsTransport_trans h h1); [exact H1|].
    unfold UseWebSocket.subscribe. destruct (authenticated r).
    + pose proof (sendMessage_keepsTransport r
        (partial MT_subscribe (Some (PSubscriptions (pendingSubscriptionsRef h1)))) h1)
        as Hs.
      unfold keepsTransport in *. cbn.
      rewrite timeouts_app. cbn. rewrite app_nil_r. exact Hs.
    + unfold keepsTransport. cbn. rewrite timeouts_app. cbn.
      rewrite app_nil_r. repeat split.
  - unfold keepsTransport in *. cbn. rewrite timeouts_app. cbn.
    rewrite app_nil_r. exact H1.
Qed.

(** X2: no inbound message can change the transport.  Whatever its type
    and payload, the message handler keeps the socket, the reconnect timer
    and the ping interval, leaves [connected], [connecting] and
    [retryCount] as they were, and arms no reconnect timer: a server error,
    a rejected credential or an unknown message type never closes or
    retries the connection. *)
Theorem handle_message_keeps_transport r message h :
  keepsTransport h (handle_message r message h).
Proof.
  unfold UseWebSocket.handle_message.
  set (h1 := match msg_type message with Some MT_pong => _ | _ => h end).
  assert (H1 : keepsTransport h h1).
  { subst h1. destruct (msg_type message) as [[]|]; repeat split. }
  set (h2 := match msg_type message with
             | Some MT_auth_result => _ | _ => h1 end).
  assert (H2 : keepsTransport h1 h2).
  { subst h2. destruct (msg_type message) as [[]|];
      try apply keepsTransport_refl.
    apply handle_auth_result_keepsTransport. }
  set (h3 := match msg_type message with Some MT_error => _ | _ => h2 end).
  assert (H3 : keepsTransport h2 h3).
  { subst h3. destruct (msg_type message) as [[]|]; repeat split. }
  apply (keepsTransport_trans h h3).
  - apply (keepsTransport_trans h h2); [|exact H3].
    apply (keepsTransport_trans h h1); assumption.
  - unfold keepsTransport. cbn. rewrite timeouts_app. cbn.
    rewrite app_nil_r. repeat split.
Qed.

(** X3: [disconnect()] is idempotent: a second call changes nothing, not
    even the effect trace. *)
Theorem disconnect_idempotent h : disconnect (disconnect h) = disconnect h.
Proof using opts.
  clear Date_now Math_random toISOString emit_throws io_throws.
  unfold UseWebSocket.disconnect, UseWebSocket.socket_disconnect,
    UseWebSocket.handle_disconnect, clearReconnectTimeout, clearPingInterval.
  replace (String.eqb "io client disconnect" "io client disconnect") with true
    by (symmetry; apply String.eqb_refl).
  cbn [negb andb].
  destruct h as [c so rt pi q ps tr fr tk].
  destruct rt as [t1|]; destruct pi as [t2|];
    destruct so as [[sid [|] sr]|]; reflexivity.
Qed.

Lemma try_emit_cells s m h :
  connectionState (try_emit s m h) = connectionState h /\
  socketRef (try_emit s m h) = socketRef h /\
  reconnectTimeoutRef (try_emit s m h) = reconnectTimeoutRef h /\
  pingIntervalRef (try_emit s m h) = pingIntervalRef h /\
  pendingSubscriptionsRef (try_emit s m h) = pendingSubscriptionsRef h /\
  timeouts (trace (try_emit s m h)) = timeouts (trace h).
Proof.
  unfold UseWebSocket.try_emit, enqueue.
  destruct (emit_throws (sock_id s) m); cbn; rewrite ?timeouts_app; cbn;
    rewrite ?app_nil_r; repeat split.
Qed.

Lemma processMessageQueue_cells r h :
  connectionState (processMessageQueue r h) = connectionState h /\
  socketRef (processMessageQueue r h) = socketRef h /\
  reconnectTimeoutRef (processMessageQueue r h) = reconnectTimeoutRef h /\
  pingIntervalRef (processMessageQueue r h) = pingIntervalRef h /\
  pendingSubscriptionsRef (processMessageQueue r h) = pendingSubscriptionsRef h /\
  timeouts (trace (processMessageQueue r h)) = timeouts (trace h).
Proof.
  unfold UseWebSocket.processMessageQueue.
  destruct (socketRef h) as [s|] eqn:Es; [|repeat split; exact Es].
  destruct (connected r && (0 <? Z.of_nat (List.length (messageQueueRef h))));
    [|repeat split; exact Es].
  cbv zeta.
  assert (Hloop : forall q h0,
    let h' := fold_left (fun acc m => try_emit s m acc) q h0 in
    connectionState h' = connectionState h0 /\
    socketRef h' = socketRef h0 /\
    reconnectTimeoutRef h' = reconnectTimeoutRef h0 /\
    pingIntervalRef h' = pingIntervalRef h0 /\
    pendingSubscriptionsRef h' = pendingSubscriptionsRef h0 /\
    timeouts (trace h') = timeouts (trace h0)).
  { induction q as [|m q IH]; intros h0; cbn [fold_left]; [repeat split|].
    specialize (IH (try_emit s m h0)). cbv zeta in IH.
    destruct IH as (H1 & H2 & H3 & H4 & H5 & H6).
    destruct (try_emit_cells s m h0) as (K1 & K2 & K3 & K4 & K5 & K6).
    repeat split; congruence. }
  specialize (Hloop (messageQueueRef h) (set_messageQueueRef [] h)).
  cbv zeta in Hloop. cbn in Hloop. rewrite Es in Hloop. exact Hloop.
Qed.

(** What the tail of the connect handler (authenticate, drain the queue,
    call [onConnect]) leaves alone. *)
Lemma handle_connect_frame r key uid h3 :
  let h' := perform (Call onConnect)
              (processMessageQueue r (authenticate r key uid h3)) in
  connectionState h' = connectionState h3 /\
  socketRef h' = socketRef h3 /\
  reconnectTimeoutRef h' = reconnectTimeoutRef h3 /\
  pingIntervalRef h' = pingIntervalRef h3 /\
  timeouts (trace h') = timeouts (trace h3) /\
  (forall e, In e (trace h3) -> In e (trace h')).
Proof.
  cbv zeta. unfold UseWebSocket.authenticate.
  set (pm := partial MT_auth _).
  destruct (sendMessage_cells r pm h3) as (S1 & S2 & S3 & S4 & _).
  pose proof (sendMessage_keepsTransport r pm h3) as (_ & _ & _ & _ & _ & _ & S5).
  destruct (processMessageQueue_cells r (sendMessage r pm h3))
    as (P1 & P2 & P3 & P4 & _ & P6).
  cbn [perform connectionState socketRef reconnectTimeoutRef pingIntervalRef trace].
  rewrite P1, P2, P3, P4, S1, S2, S3, S4, timeouts_app, P6, S5.
  cbn [timeouts]. rewrite app_nil_r.
  repeat (split; [reflexivity|]).
  intros e He. apply in_or_app. left.
  assert (Hsend : exists extra, trace (sendMessage r pm h3) = trace h3 ++ extra).
  { destruct (sendMessage_effect r pm h3) as [[_ Ht] | [_ [sid Ht]]];
      cbv zeta in Ht; rewrite Ht;
      [exists []; symmetry; apply app_nil_r | eexists; reflexivity]. }
  destruct Hsend as [extra Hsend].
  assert (Hdrain : exists extra', trace (processMessageQueue r (sendMessage r pm h3))
                     = trace (sendMessage r pm h3) ++ extra').
  { destruct (socketRef (sendMessage r pm h3)) as [s|] eqn:Es.
    - destruct (connected r) eqn:Ec.
      + destruct (processMessageQueue_drains r _ s Es Ec) as [_ Ht].
        eexists. exact Ht.
      + exists []. unfold UseWebSocket.processMessageQueue.
        rewrite Es, Ec. symmetry. apply app_nil_r.
    - exists []. unfold UseWebSocket.processMessageQueue.
      rewrite Es. symmetry. apply app_nil_r. }
  destruct Hdrain as [extra' Hdrain].
  rewrite Hdrain, Hsend. apply in_or_app. left. apply in_or_app. left.
  exact He.
Qed.

Lemma handle_connect_cells r h :
  retryCount (connectionState (handle_connect r h)) = 0%nat /\
  socketRef (handle_connect r h) = socketRef h /\
  timeouts (trace (handle_connect r h)) = timeouts (trace h).
Proof.
  unfold UseWebSocket.handle_connect. cbv zeta.
  match goal with
  | |- context [UseWebSocket.authenticate _ _ _ _ _ _ _ ?x] => set (h3 := x)
  end.
  destruct (handle_connect_frame r (apiKey opts) (opt_userId opts) h3)
    as (F1 & F2 & _ & _ & F5 & _).
  cbv zeta in F1, F2, F5. rewrite F1, F2, F5.
  subst h3. clear. unfold clearReconnectTimeout.
  destruct h as [c so rt pi q ps tr fr tk].
  destruct rt as [t0|]; destruct (0 <? pingInterval opts);
    cbn; rewrite ?timeouts_app; cbn; rewrite ?app_nil_r; repeat split.
Qed.

(** X4: what the connect handler establishes, whatever the render it was
    registered in: the state is connected, not connecting, without error
    and with retry count zero ([authenticated], the user info and the last
    pong are kept); no reconnect timer is held any more, and a held one
    was cleared; the socket is kept; and when the configured ping interval
    is positive a new interval timer with that period is held. *)
Theorem handle_connect_establishes r h :
  let h' := handle_connect r h in
  let c := connectionState h in
  connectionState h' =
    {| connected := true; authenticated := authenticated c;
       connecting := false; error := None; lastPong := lastPong c;
       retryCount := 0%nat; userInfo := userInfo c |} /\
  socketRef h' = socketRef h /\
  reconnectTimeoutRef h' = None /\
  (forall t, reconnectTimeoutRef h = Some t -> In (ClearTimeout t) (trace h')) /\
  (0 < pingInterval opts ->
     pingIntervalRef h' = Some (fresh h) /\
     In (SetInterval (fresh h) (pingInterval opts)) (trace h')) /\
  (pingInterval opts <= 0 -> pingIntervalRef h' = pingIntervalRef h) /\
  timeouts (trace h') = timeouts (trace h).
Proof.
  cbv zeta. unfold UseWebSocket.handle_connect. cbv zeta.
  match goal with
  | |- context [UseWebSocket.authenticate _ _ _ _ _ _ _ ?x] => set (h3 := x)
  end.
  destruct (handle_connect_frame r (apiKey opts) (opt_userId opts) h3)
    as (F1 & F2 & F3 & F4 & F5 & Htr).
  cbv zeta in F1, F2, F3, F4, F5, Htr. rewrite F1, F2, F3, F4, F5.
  assert (H3 :
    connectionState h3 =
      {| connected := true; authenticated := authenticated (connectionState h);
         connecting := false; error := None; lastPong := lastPong (connectionState h);
         retryCount := 0%nat; userInfo := userInfo (connectionState h) |} /\
    socketRef h3 = socketRef h /\
    reconnectTimeoutRef h3 = None /\
    (forall t, reconnectTimeoutRef h = Some t -> In (ClearTimeout t) (trace h3)) /\
    (0 < pingInterval opts ->
       pingIntervalRef h3 = Some (fresh h) /\
       In (SetInterval (fresh h) (pingInterval opts)) (trace h3)) /\
    (pingInterval opts <= 0 -> pingIntervalRef h3 = pingIntervalRef h) /\
    timeouts (trace h3) = timeouts (trace h)).
  { subst h3. clear. unfold clearReconnectTimeout.
    destruct h as [c so rt pi q ps tr fr tk].
    destruct rt as [t0|]; destruct (0 <? pingInterval opts) eqn:Ep;
      cbn; rewrite ?timeouts_app; cbn; rewrite ?app_nil_r;
      repeat split; try reflexivity; intros;
      try (apply Z.ltb_ge in Ep; lia); try (apply Z.ltb_lt in Ep; lia);
      try discriminate;
      match goal with
      | Ht : Some _ = Some _ |- _ => injection Ht as <-
      | _ => idtac
      end;
      rewrite ?in_app_iff; cbn; tauto. }
  clearbody h3.
  destruct H3 as (A1 & A2 & A3 & A4 & A5 & A6 & A7).
  split; [exact A1|]. split; [exact A2|]. split; [exact A3|].
  split; [intros t Ht; apply Htr, A4, Ht|].
  split; [intros Hpos; destruct (A5 Hpos) as [B1 B2]; split; [exact B1 | apply Htr, B2]|].
  split; [exact A6 | exact A7].
Qed.

Lemma handle_disconnect_armed r reason h :
  reason <> "io client disconnect"%string ->
  Z.of_nat (retryCount r) < UseWebSocket.maxAttempts opts ->
  let h' := handle_disconnect r reason h in
  timeouts (trace h') = timeouts (trace h) ++ [reconnectDelay (retryCount r)] /\
  reconnectTimeoutRef h' = Some (fresh h) /\
  fresh h' = S (fresh h) /\
  socketRef h' = socketRef h /\
  messageQueueRef h' = messageQueueRef h /\
  pendingSubscriptionsRef h' = pendingSubscriptionsRef h /\
  retryCount (connectionState h') = retryCount (connectionState h).
Proof using Type.
  clear Date_now Math_random toISOString emit_throws io_throws.
  intros Hreason Hlt. cbv zeta. unfold UseWebSocket.handle_disconnect.
  replace (String.eqb reason "io client disconnect") with false
    by (symmetry; apply String.eqb_neq; exact Hreason).
  replace (Z.of_nat (retryCount r) <? UseWebSocket.maxAttempts opts) with true
    by (symmetry; apply Z.ltb_lt; exact Hlt).
  unfold clearPingInterval.
  destruct h as [c so rt pi q ps tr fr tk]. destruct pi as [t|];
    cbn; rewrite ?timeouts_app; cbn; rewrite ?app_nil_r; repeat split.
Qed.

Lemma connect_opens r h :
  io_throws = None ->
  (forall s, socketRef h = Some s -> sock_connected s = false) ->
  let h' := connect r h in
  socketRef h' =
    Some {| sock_id := fresh h; sock_connected := false; sock_render := r |} /\
  timeouts (trace h') = timeouts (trace h) /\
  messageQueueRef h' = messageQueueRef h /\
  pendingSubscriptionsRef h' = pendingSubscriptionsRef h /\
  retryCount (connectionState h') = retryCount (connectionState h) /\
  connecting (connectionState h') = true /\
  error (connectionState h') = None.
Proof using Type.
  clear Date_now Math_random toISOString emit_throws.
  intros Hio Hs. cbv zeta. unfold UseWebSocket.connect. rewrite Hio.
  destruct h as [c so rt pi q ps tr fr tk]. cbn in Hs |- *.
  destruct so as [s|].
  - rewrite (Hs s eq_refl). cbn. rewrite timeouts_app. cbn.
    rewrite app_nil_r. repeat split.
  - cbn. rewrite timeouts_app. cbn. rewrite app_nil_r. repeat split.
Qed.

Lemma drop_and_retry_step reason h s :
  socketRef h = Some s -> io_throws = None ->
  reason <> "io client disconnect"%string ->
  Z.of_nat (retryCount (sock_render s)) < UseWebSocket.maxAttempts opts ->
  let h' := drop_and_retry reason h in
  timeouts (trace h')
    = timeouts (trace h) ++ [reconnectDelay (retryCount (sock_render s))] /\
  (exists s', socketRef h' = Some s' /\ sock_render s' = sock_render s /\
              sock_connected s' = false) /\
  retryCount (connectionState h') = 1%nat /\
  connecting (connectionState h') = true.
Proof.
  intros Hs Hio Hreason Hlt. cbv zeta.
  unfold UseWebSocket.drop_and_retry, UseWebSocket.event_connect. rewrite Hs.
  cbv zeta.
  set (h0 := set_socketRef (Some (socket_connected s true)) h).
  destruct (handle_connect_cells (sock_render s) h0) as (C1 & C2 & C7).
  set (hc := handle_connect (sock_render s) h0) in *.
  unfold UseWebSocket.event_disconnect. rewrite C2. cbn [h0 socketRef set_socketRef].
  set (hd0 := set_socketRef _ hc).
  destruct (handle_disconnect_armed (sock_render (socket_connected s true)) reason hd0
              Hreason Hlt) as (D1 & D2 & _ & D4 & _ & _ & D7).
  set (hd := handle_disconnect _ reason hd0) in *.
  rewrite D2. unfold UseWebSocket.reconnect_timer.
  set (hi := setConnectionState _ hd).
  destruct (connect_opens (sock_render s) hi Hio) as (O1 & O2 & _ & _ & O5 & O6 & _).
  { intros s' Hs'. cbn in Hs'. rewrite D4 in Hs'. cbn in Hs'.
    injection Hs' as <-. reflexivity. }
  split.
  - rewrite O2. cbn [hi trace setConnectionState]. rewrite D1.
    cbn [hd0 trace set_socketRef]. rewrite C7. reflexivity.
  - split; [eexists; split; [exact O1|split; reflexivity]|].
    split; [|exact O6]. rewrite O5. cbn [hi connectionState setConnectionState retryCount].
    rewrite D7. cbn [hd0 connectionState set_socketRef]. rewrite C1. reflexivity.
Qed.

(** X5: the backoff never grows along the reconnects the hook makes by
    itself.  The disconnect handler and the timer it arms belong to the
    render in which the socket's [connect] was created, and the timer
    calls that same [connect]; so over any number of rounds in which the
    link comes up and drops, every reconnect timer is armed with the same
    delay, the attempt cap is never reached, and the retry count shown in
    the state is 1 after each round. *)
Theorem reconnect_chain_keeps_delay (n : nat) reason h s :
  socketRef h = Some s -> io_throws = None ->
  reason <> "io client disconnect"%string ->
  Z.of_nat (retryCount (sock_render s)) < UseWebSocket.maxAttempts opts ->
  let h' := Nat.iter n (drop_and_retry reason) h in
  timeouts (trace h')
    = timeouts (trace h) ++ repeat (reconnectDelay (retryCount (sock_render s))) n /\
  (exists s', socketRef h' = Some s' /\ sock_render s' = sock_render s) /\
  ((0 < n)%nat -> retryCount (connectionState h') = 1%nat).
Proof.
  intros Hs Hio Hreason Hlt. cbv zeta.
  induction n as [|n IH].
  - cbn. rewrite app_nil_r. split; [reflexivity|].
    split; [exists s; split; [exact Hs | reflexivity] | lia].
  - cbn [Nat.iter nat_rect]. destruct IH as (T & (s' & Hs' & Hr') & _).
    change (nat_rect (fun _ => Hook) h (fun _ => drop_and_retry reason) n)
      with (Nat.iter n (drop_and_retry reason) h).
    rewrite <- Hr' in Hlt.
    destruct (drop_and_retry_step reason _ s' Hs' Hio Hreason Hlt)
      as (T' & (s2 & Hs2 & Hr2 & _) & R & _).
    rewrite Hr' in T', Hr2.
    split.
    + rewrite T', T, <- app_assoc. f_equal.
      change [reconnectDelay (retryCount (sock_render s))]
        with (repeat (reconnectDelay (retryCount (sock_render s))) 1).
      rewrite <- repeat_app. f_equal. lia.
    + split; [exists s2; split; assumption | intros _; exact R].
Qed.

Lemma uniq_from_ext l : forall seen1 seen2,
  (forall x, In x seen1 <-> In x seen2) ->
  uniq_from seen1 l = uniq_from seen2 l.
Proof.
  induction l as [|a l IH]; intros seen1 seen2 Hext; cbn; [reflexivity|].
  destruct (in_dec SubscriptionType_eq_dec a seen1) as [H1 | H1];
    destruct (in_dec SubscriptionType_eq_dec a seen2) as [H2 | H2].
  - apply IH, Hext.
  - apply Hext in H1. contradiction.
  - apply Hext in H2. contradiction.
  - f_equal. apply IH. intros x. cbn. rewrite Hext. tauto.
Qed.

Lemma uniq_from_app a : forall seen b,
  uniq_from seen (a ++ b) = uniq_from seen a ++ uniq_from (a ++ seen) b.
Proof.
  induction a as [|x a IH]; intros seen b; cbn [app uniq_from]; [reflexivity|].
  destruct (in_dec SubscriptionType_eq_dec x seen) as [Hin | Hnin].
  - rewrite IH. f_equal. apply uniq_from_ext. intros y.
    cbn. rewrite !in_app_iff. split; [tauto|].
    intros [<- | H]; tauto.
  - rewrite IH. cbn [app]. f_equal. f_equal. apply uniq_from_ext. intros y.
    cbn. rewrite !in_app_iff. cbn. tauto.
Qed.

Lemma uniq_from_fixed l : forall seen,
  NoDup l -> (forall x, In x l -> ~ In x seen) -> uniq_from seen l = l.
Proof.
  induction l as [|a l IH]; intros seen Hnd Hdis; cbn; [reflexivity|].
  inversion Hnd as [|? ? Ha Hl]; subst.
  destruct (in_dec SubscriptionType_eq_dec a seen) as [Hin | Hnin].
  - exfalso. apply (Hdis a); [left; reflexivity | exact Hin].
  - f_equal. apply IH; [exact Hl|]. intros x Hx [<- | Hs];
      [contradiction | apply (Hdis x); [right; exact Hx | exact Hs]].
Qed.

Lemma uniq_from_seen l : forall seen,
  (forall x, In x l -> In x seen) -> uniq_from seen l = [].
Proof.
  induction l as [|a l IH]; intros seen Hall; cbn; [reflexivity|].
  destruct (in_dec SubscriptionType_eq_dec a seen) as [Hin | Hnin].
  - apply IH. intros x Hx. apply Hall. right. exact Hx.
  - exfalso. apply Hnin, Hall. left. reflexivity.
Qed.

(** X6: [subscribe] before authentication, on a pending list without
    duplicates: the topics already pending keep their places, the new ones
    are appended behind them, each once, and a repeated request changes
    nothing at all. *)
Theorem subscribe_pending_merge r subs h :
  authenticated r = false -> NoDup (pendingSubscriptionsRef h) ->
  let h1 := subscribe r subs h in
  (exists added,
     pendingSubscriptionsRef h1 = pendingSubscriptionsRef h ++ added /\
     NoDup added /\
     (forall t, In t added <-> In t subs /\ ~ In t (pendingSubscriptionsRef h))) /\
  subscribe r subs h1 = h1.
Proof using Type.
  clear opts io_throws.
  intros Hr Hnd. cbv zeta. unfold UseWebSocket.subscribe. rewrite Hr.
  cbn [pendingSubscriptionsRef set_pendingSubscriptionsRef].
  set (p := pendingSubscriptionsRef h).
  split.
  - exists (uniq_from p subs).
    destruct (uniq_from_spec subs p) as [Hn Hiff].
    split; [|split; [exact Hn | exact Hiff]].
    unfold uniq. rewrite uniq_from_app.
    rewrite (uniq_from_fixed p [] Hnd) by (intros x _ []).
    f_equal. apply uniq_from_ext. intros x. rewrite in_app_iff. cbn. tauto.
  - destruct (uniq_spec (p ++ subs)) as [Hn Hiff].
    assert (E : uniq (uniq (p ++ subs) ++ subs) = uniq (p ++ subs)).
    { unfold uniq at 1. rewrite uniq_from_app.
      rewrite (uniq_from_fixed _ [] Hn) by (intros x _ []).
      rewrite uniq_from_seen; [apply app_nil_r|].
      intros x Hx. rewrite in_app_iff. left. apply Hiff.
      rewrite in_app_iff. right. exact Hx. }
    rewrite E. destruct h; reflexivity.
Qed.

(** X7: a successful [auth_result].  The state becomes authenticated with
    the user info of the envelope, and an error recorded earlier stays in
    the state.  The pending subscriptions are emptied in any case; they
    are sent, as one subscribe envelope carrying all of them, only when
    the render of the handler was already authenticated, and are dropped
    unsent otherwise. *)
Theorem auth_success_pending r message h a :
  msg_type message = Some MT_auth_result ->
  authDataOf message = Some a -> ad_success a = true ->
  let h' := handle_message r message h in
  let c := connectionState h in
  connectionState h' =
    {| connected := connected c; authenticated := true;
       connecting := connecting c; error := error c;
       lastPong := lastPong c; retryCount := retryCount c;
       userInfo := Some {| userId := ad_user_id a; role := ad_role a;
                           tier := ad_tier a;
                           permissions := ad_permissions a |} |} /\
  pendingSubscriptionsRef h' = [] /\
  (authenticated r = false ->
     messageQueueRef h' = messageQueueRef h /\
     emitted (trace h') = emitted (trace h)) /\
  (authenticated r = true -> pendingSubscriptionsRef h <> [] ->
     exists m,
       msg_type m = Some MT_subscribe /\
       msg_data m = Some (PSubscriptions (pendingSubscriptionsRef h)) /\
       ((messageQueueRef h' = messageQueueRef h ++ [m] /\
         emitted (trace h') = emitted (trace h)) \/
        (messageQueueRef h' = messageQueueRef h /\
         emitted (trace h') = emitted (trace h) ++ [m]))).
Proof using Type.
  clear opts io_throws.
  intros Hty Ha Hok. cbv zeta.
  unfold UseWebSocket.handle_message, UseWebSocket.handle_auth_result.
  rewrite Hty, Ha, Hok. cbv zeta.
  cbn [perform connectionState pendingSubscriptionsRef messageQueueRef trace].
  rewrite emitted_app. cbn [emitted]. rewrite !app_nil_r.
  set (h1 := setConnectionState _ h).
  assert (Hp1 : pendingSubscriptionsRef h1 = pendingSubscriptionsRef h) by reflexivity.
  destruct (pendingSubscriptionsRef h) as [|t p] eqn:Ep.
  - rewrite Hp1. cbn [List.length Z.of_nat Z.ltb Z.compare].
    rewrite emitted_app. cbn [emitted]. rewrite app_nil_r.
    split; [reflexivity|]. split; [exact Hp1|].
    split; [intros _; split; reflexivity | intros _ Hne; contradiction].
  - rewrite Hp1.
    replace (0 <? Z.of_nat (List.length (t :: p))) with true
      by (symmetry; apply Z.ltb_lt; cbn [List.length]; lia).
    cbn [set_pendingSubscriptionsRef connectionState pendingSubscriptionsRef
         messageQueueRef trace].
    rewrite emitted_app. cbn [emitted]. rewrite app_nil_r.
    unfold UseWebSocket.subscribe.
    destruct (authenticated r) eqn:Er.
    + set (pm := partial MT_subscribe _).
      destruct (sendMessage_cells r pm h1) as (S1 & _).
      pose proof (fullMessage_fields pm h1) as [Hmt Hmd]. cbv zeta in Hmt, Hmd.
      split; [rewrite S1; reflexivity|]. split; [reflexivity|].
      split; [discriminate|]. intros _ _.
      exists (fst (fullMessage pm h1)).
      split; [exact Hmt|]. split; [exact Hmd|].
      destruct (sendMessage_effect r pm h1) as [[Hq Ht] | [Hq [sid Ht]]];
        cbv zeta in Hq, Ht; rewrite Hq, Ht.
      * left. split; reflexivity.
      * right. rewrite emitted_app. cbn. split; reflexivity.
    + split; [reflexivity|]. split; [reflexivity|].
      split; [intros _; split; reflexivity | discriminate].
Qed.

Local Abbreviation socket_step :=
  (UseWebSocket.socket_step opts Date_now Math_random toISOString emit_throws
     io_throws).
Local Abbreviation event_message :=
  (UseWebSocket.event_message Date_now Math_random toISOString emit_throws).
Local Abbreviation ping :=
  (UseWebSocket.ping Date_now Math_random toISOString emit_throws).

Lemma silent_refl r h : silent r h h.
Proof.
  split; [reflexivity|]. split; [exists []; symmetry; apply app_nil_r|].
  intros s Hs Hr. exists s. split; assumption.
Qed.

Lemma silent_trans r h1 h2 h3 : silent r h1 h2 -> silent r h2 h3 -> silent r h1 h3.
Proof.
  intros (E1 & (a1 & Q1) & S1) (E2 & (a2 & Q2) & S2).
  split; [congruence|]. split.
  - exists (a1 ++ a2). rewrite Q2, Q1, app_assoc. reflexivity.
  - intros s Hs Hr. destruct (S1 s Hs Hr) as (s' & Hs' & Hr').
    exact (S2 s' Hs' Hr').
Qed.

(** A step that touches neither the queue nor the socket and performs
    no emit. *)
Lemma silent_quiet r h h' :
  emitted (trace h') = emitted (trace h) ->
  messageQueueRef h' = messageQueueRef h ->
  socketRef h' = socketRef h ->
  silent r h h'.
Proof.
  intros He Hq Hs. split; [exact He|].
  split; [exists []; rewrite app_nil_r; exact Hq|].
  intros s Hs0 Hr. exists s. split; [congruence | exact Hr].
Qed.

Lemma sendMessage_silent r r0 message h :
  connected r = false -> silent r0 h (sendMessage r message h).
Proof.
  intros Hc.
  destruct (sendMessage_queued r message h (or_intror Hc)) as [Hq Ht].
  destruct (sendMessage_cells r message h) as (_ & Hs & _).
  split; [rewrite Ht; reflexivity|]. split; [eexists; exact Hq|].
  intros s Hs0 Hr. exists s. split; [congruence | exact Hr].
Qed.

Lemma processMessageQueue_idle r h :
  connected r = false -> processMessageQueue r h = h.
Proof.
  intros Hc. unfold UseWebSocket.processMessageQueue. rewrite Hc.
  destruct (socketRef h); reflexivity.
Qed.

Lemma handle_connect_silent r r0 h :
  connected r = false -> silent r0 h (handle_connect r h).
Proof.
  intros Hc. unfold UseWebSocket.handle_connect. cbv zeta.
  match goal with
  | |- context [UseWebSocket.authenticate _ _ _ _ _ _ _ ?x] => set (h3 := x)
  end.
  rewrite processMessageQueue_idle by exact Hc.
  apply (silent_trans r0 h h3).
  - subst h3. apply silent_quiet; unfold clearReconnectTimeout;
      destruct h as [c so rt pi q ps tr fr tk];
      destruct rt as [t0|]; destruct (0 <? pingInterval opts);
      cbn; rewrite ?emitted_app; cbn; rewrite ?app_nil_r; reflexivity.
  - apply (silent_trans r0 h3 (authenticate r (apiKey opts) (opt_userId opts) h3)).
    + apply sendMessage_silent. exact Hc.
    + apply silent_quiet; cbn; rewrite ?emitted_app; cbn; rewrite ?app_nil_r;
        reflexivity.
Qed.

Lemma handle_disconnect_silent r r0 reason h :
  silent r0 h (handle_disconnect r reason h).
Proof using Type.
  clear Date_now Math_random toISOString emit_throws io_throws.
  unfold UseWebSocket.handle_disconnect, clearPingInterval.
  apply silent_quiet;
    destruct h as [c so rt pi q ps tr fr tk]; destruct pi as [t|];
    destruct (negb (String.eqb reason "io client disconnect")
              && (Z.of_nat (retryCount r) <? UseWebSocket.maxAttempts opts));
    cbn; rewrite ?emitted_app; cbn; rewrite ?app_nil_r; reflexivity.
Qed.

Lemma handle_message_silent r r0 message h :
  connected r = false -> silent r0 h (handle_message r message h).
Proof using Type.
  clear opts io_throws.
  intros Hc. unfold UseWebSocket.handle_message. cbv zeta.
  assert (Hset : forall f h0, silent r0 h0 (setConnectionState f h0)).
  { intros f h0. apply silent_quiet; reflexivity. }
  assert (Hcall : forall cb h0, silent r0 h0 (perform (Call cb) h0)).
  { intros cb h0. apply silent_quiet; cbn; rewrite ?emitted_app; cbn;
      rewrite ?app_nil_r; reflexivity. }
  assert (Hauth : forall h0, silent r0 h0 (handle_auth_result r message h0)).
  { intros h0. unfold UseWebSocket.handle_auth_result.
    destruct (authDataOf message) as [a|]; [|apply Hset].
    destruct (ad_success a); [|apply Hset].
    set (h1 := setConnectionState _ h0).
    apply (silent_trans r0 h0 h1); [apply Hset|].
    eapply silent_trans; [|apply Hcall].
    destruct (0 <? Z.of_nat (List.length (pendingSubscriptionsRef h1)));
      [|apply silent_refl].
    eapply silent_trans; [|apply silent_quiet; reflexivity].
    unfold UseWebSocket.subscribe. destruct (authenticated r).
    - apply sendMessage_silent. exact Hc.
    - apply silent_quiet; reflexivity. }
  eapply silent_trans; [|apply Hcall].
  destruct (msg_type message) as [[]|]; cbv iota beta;
    first [ apply silent_refl | apply Hauth | apply Hset
          | apply silent_quiet; reflexivity ].
Qed.

Lemma connect_silent r h : silent r h (connect r h).
Proof using Type.
  clear Date_now Math_random toISOString emit_throws.
  unfold UseWebSocket.connect.
  destruct h as [c so rt pi q ps tr fr tk]. cbn [socketRef].
  destruct (match so with Some s => sock_connected s | None => false end);
    [apply silent_refl|].
  destruct io_throws as [e|].
  - apply silent_quiet; cbn; rewrite ?emitted_app; cbn; rewrite ?app_nil_r;
      reflexivity.
  - split; [cbn; rewrite ?emitted_app; cbn; rewrite ?app_nil_r; reflexivity|].
    split; [exists []; cbn; rewrite app_nil_r; reflexivity|].
    intros s _ _. cbn. eexists. split; reflexivity.
Qed.

Lemma socket_step_silent e h s :
  socketRef h = Some s -> connected (sock_render s) = false ->
  silent (sock_render s) h (socket_step e h).
Proof.
  intros Hs Hc. destruct e as [| reason | message | |]; cbn [UseWebSocket.socket_step].
  - unfold UseWebSocket.event_connect. rewrite Hs.
    eapply silent_trans; [|apply handle_connect_silent; exact Hc].
    split; [reflexivity|]. split; [exists []; symmetry; apply app_nil_r|].
    intros s0 _ _. cbn. eexists. split; reflexivity.
  - unfold UseWebSocket.event_disconnect. rewrite Hs.
    eapply silent_trans; [|apply handle_disconnect_silent].
    split; [reflexivity|]. split; [exists []; symmetry; apply app_nil_r|].
    intros s0 _ _. cbn. eexists. split; reflexivity.
  - unfold UseWebSocket.event_message. rewrite Hs.
    apply handle_message_silent. exact Hc.
  - rewrite Hs. destruct (pingIntervalRef h); [|apply silent_refl].
    apply sendMessage_silent. exact Hc.
  - rewrite Hs. destruct (reconnectTimeoutRef h); [|apply silent_refl].
    unfold UseWebSocket.reconnect_timer.
    eapply silent_trans; [|apply connect_silent].
    apply silent_quiet; reflexivity.
Qed.

(** X25: a socket whose [connect] was called from a render in which the
    state was not connected never transmits by itself.  Its handlers, the
    ping interval and the reconnect timer read that render; so whatever
    happens on it (connect and disconnect events, inbound messages of any
    type, ping ticks, reconnects, in any number and order), no envelope
    is emitted, the queue is never drained but only grows by the auth
    envelopes, pings and pending subscriptions queued, and every socket
    opened by a reconnect again reads the same render. *)
Theorem socket_of_disconnected_render_is_silent (script : list SocketEvent) h s :
  socketRef h = Some s -> connected (sock_render s) = false ->
  let h' := fold_left (fun acc e => socket_step e acc) script h in
  emitted (trace h') = emitted (trace h) /\
  (exists added, messageQueueRef h' = messageQueueRef h ++ added) /\
  (exists s', socketRef h' = Some s' /\ sock_render s' = sock_render s).
Proof.
  intros Hs Hc. cbv zeta.
  assert (Hall : forall l h0 s0,
    socketRef h0 = Some s0 -> sock_render s0 = sock_render s ->
    silent (sock_render s) h0 (fold_left (fun acc e => socket_step e acc) l h0)).
  { induction l as [|e l IH]; intros h0 s0 Hs0 Hr0; cbn [fold_left].
    - apply silent_refl.
    - assert (Hstep : silent (sock_render s) h0 (socket_step e h0)).
      { rewrite <- Hr0. apply socket_step_silent; [exact Hs0|].
        rewrite Hr0. exact Hc. }
      destruct Hstep as (E1 & Q1 & S1).
      destruct (S1 s0 Hs0 Hr0) as (s1 & Hs1 & Hr1).
      eapply silent_trans; [exact (conj E1 (conj Q1 S1))|].
      apply (IH _ s1 Hs1 Hr1). }
  destruct (Hall script h s Hs eq_refl) as (E & Q & S).
  split; [exact E|]. split; [exact Q|]. apply (S s Hs eq_refl).
Qed.

End Facts.

(** *** The claims tried on the concrete runtime *)

(** C1, counterexample: connected but not authenticated, a [get_usage]
    request goes straight onto the wire and the queue stays empty. *)
Lemma sendMessage_unauthenticated_emits :
  let h' := demo_send r_connected (partial MT_get_usage None) h_connected in
  authenticated r_connected = false /\
  messageQueueRef h' = [] /\
  List.map msg_type (emitted (trace h')) = [Some MT_get_usage].
Proof. vm_compute. repeat split. Qed.

(** C1, witness: from a render that is not connected the request is queued
    and nothing is emitted. *)
Lemma sendMessage_guard_witness :
  let pm := partial MT_get_usage None in
  let h' := demo_send initialState pm h_connected in
  messageQueueRef h'
    = messageQueueRef h_connected
        ++ [fst (fullMessage demo_now demo_random demo_iso pm h_connected)] /\
  trace h' = trace h_connected.
Proof.
  apply (proj1 (sendMessage_guard demo_now demo_random demo_iso never_throws
                  initialState (partial MT_get_usage None) h_connected)).
  right. reflexivity.
Defined.

(** C2, counterexample: an envelope is queued, the transport is up, and
    the server accepts the credential; the state becomes authenticated and
    the envelope is still in the queue, with nothing on the wire. *)
Lemma authentication_does_not_drain :
  let h' := handle_message demo_now demo_random demo_iso never_throws
              r_connected auth_accepted h_queued in
  authenticated (connectionState h') = true /\
  messageQueueRef h' = [queued_ping] /\
  emitted (trace h') = [].
Proof. vm_compute. repeat split. Qed.

(** C2, witness: with the transport up and no emit throwing, the drain
    puts the queued envelope on the wire and leaves the queue empty. *)
Lemma processMessageQueue_fifo_witness :
  messageQueueRef (processMessageQueue never_throws r_connected h_queued) = [] /\
  emitted (trace (processMessageQueue never_throws r_connected h_queued))
    = [queued_ping].
Proof.
  apply (proj1 (proj2 (processMessageQueue_fifo demo_opts demo_now demo_random
           demo_iso never_throws r_connected h_queued
           {| sock_id := 0%nat; sock_connected := true;
              sock_render := initialState |} eq_refl eq_refl))).
  intros m _. reflexivity.
Defined.

(** C3, counterexample: after a rejected credential the flags are still
    those of a connected transport, not those of Disconnected, and the
    socket is still held. *)
Lemma auth_failure_stays_connected :
  let h' := handle_message demo_now demo_random demo_iso never_throws
              r_connected auth_rejected h_connected in
  isDisconnected (connectionState h') = false /\
  connected (connectionState h') = true /\
  error (connectionState h') = Some "invalid api key"%string /\
  socketRef h' = socketRef h_connected.
Proof. vm_compute. repeat split. Qed.

(** C3, witness: the state and the trace after the rejected credential. *)
Lemma auth_failure_records_error_witness :
  let h' := handle_message demo_now demo_random demo_iso never_throws
              r_connected auth_rejected h_connected in
  connectionState h' =
    {| connected := true; authenticated := false; connecting := false;
       error := Some "invalid api key"%string; lastPong := None;
       retryCount := 0%nat; userInfo := None |} /\
  trace h' = [Call (onMessage auth_rejected)].
Proof.
  destruct (auth_failure_records_error demo_opts demo_now demo_random demo_iso
              never_throws None r_connected auth_rejected h_connected eq_refl)
    as (Hc & _ & _ & _ & _ & _ & Ht & _).
  - intros a Ha. injection Ha as <-. reflexivity.
  - split; [exact Hc | exact Ht].
Defined.

(** C4, at the failing input: the default options (interval 5000 ms, at
    most 10 attempts), the socket opened by the effect on mount, and
    eleven transport failures in a row, the reconnect timer firing after
    each.  The retry count in the state goes up to 11, yet every timer is
    armed with 5000 ms, and the eleventh failure arms one as well: the
    disconnect handler reads the retry count of the render in which
    [connect] was created, which stays 0. *)
Lemma backoff_reads_stale_retry_count :
  let h0 := demo_mount in
  let failure := [ev_disconnect "transport close"; ev_reconnect] in
  let h' := fold_left (fun acc e => demo_step e acc)
              (List.concat (repeat failure 11)) h0 in
  maxAttempts demo_opts = 10 /\
  retryCount (connectionState h') = 11%nat /\
  timeouts (trace h') = repeat (Finite 5000) 11 /\
  reconnectDelay demo_opts 1 = Finite 10000.
Proof. vm_compute. repeat split. Qed.

(** C5, counterexample: an envelope queued before [disconnect()] is still
    queued after it. *)
Lemma disconnect_keeps_queue :
  messageQueueRef (disconnect demo_opts h_queued) = [queued_ping] /\
  connectionState (disconnect demo_opts h_queued) = initialState.
Proof. vm_compute. split; reflexivity. Qed.

(** C5, witness: the ping interval held by the hook is cleared. *)
Lemma disconnect_resets_witness :
  In (ClearInterval 1%nat) (trace (disconnect demo_opts h_queued)).
Proof.
  destruct (disconnect_resets demo_opts h_queued)
    as (_ & _ & _ & _ & _ & _ & _ & _ & Hp & _).
  apply Hp. reflexivity.
Defined.

(** C6, counterexample: two consumers register [usage_updates] and one of
    them deactivates; the topic is sent in two subscribe envelopes and the
    unsubscribe envelope for it goes out at once. *)
Lemma second_subscribe_and_first_unsubscribe_are_sent :
  let h1 := demo_subscribe r_authenticated [usage_updates] h_connected in
  let h2 := demo_subscribe r_authenticated [usage_updates] h1 in
  let h3 := demo_unsubscribe r_authenticated [usage_updates] h2 in
  List.map (fun m => (msg_type m, msg_data m)) (emitted (trace h3)) =
    [ (Some MT_subscribe, Some (PSubscriptions [usage_updates]));
      (Some MT_subscribe, Some (PSubscriptions [usage_updates]));
      (Some MT_unsubscribe, Some (PSubscriptions [usage_updates])) ].
Proof. vm_compute. reflexivity. Qed.

(** C6, witness: on a connected socket the unsubscribe envelope for
    exactly the topic given goes out at once. *)
Lemma subscribe_unsubscribe_direct_witness :
  exists m,
    msg_type m = Some MT_unsubscribe /\
    msg_data m = Some (PSubscriptions [usage_updates]) /\
    emitted (trace (demo_unsubscribe r_authenticated [usage_updates] h_connected))
      = emitted (trace h_connected) ++ [m].
Proof.
  destruct (proj1 (proj2 (subscribe_unsubscribe_direct demo_now demo_random
              demo_iso never_throws r_authenticated [usage_updates] h_connected)))
    as (m & Hty & Hda & _ & Hsent & _).
  exists m. split; [exact Hty|]. split; [exact Hda|].
  exact (proj1 (Hsent {| sock_id := 0%nat; sock_connected := true;
                         sock_render := initialState |}
                  eq_refl eq_refl eq_refl)).
Defined.

(** The very first connection.  [connect] runs in a render where
    [connected] is still false, and the handlers it registers keep reading
    that render: when the transport comes up, [authenticate] queues the
    auth envelope and [processMessageQueue] finds its guard false. *)
Example first_connection_queues_auth :
  let h0 := useWebSocket_init demo_opts in
  let h1 := connect demo_opts None initialState h0 in
  let h2 := event_connect demo_opts demo_now demo_random demo_iso never_throws h1 in
  connected (connectionState h2) = true /\
  List.map msg_type (messageQueueRef h2) = [Some MT_auth] /\
  emitted (trace h2) = [].
Proof. vm_compute. repeat split. Qed.


(** Three rounds on the default options: three timers of 5000 ms. *)
Lemma reconnect_chain_keeps_delay_witness :
  timeouts (trace (Nat.iter 3 demo_round h_connected))
  = [Finite 5000; Finite 5000; Finite 5000].
Proof.
  refine (proj1 (reconnect_chain_keeps_delay demo_opts demo_now demo_random
            demo_iso never_throws None 3 "transport close" h_connected
            {| sock_id := 0%nat; sock_connected := true;
               sock_render := initialState |} eq_refl eq_refl _ _)).
  - discriminate.
  - vm_compute. reflexivity.
Defined.

Lemma subscribe_pending_merge_witness :
  demo_subscribe r_connected [usage_updates; alerts; usage_updates]
    (demo_subscribe r_connected [usage_updates; alerts; usage_updates] h_pending)
  = demo_subscribe r_connected [usage_updates; alerts; usage_updates] h_pending.
Proof.
  refine (proj2 (subscribe_pending_merge demo_now demo_random demo_iso
            never_throws r_connected [usage_updates; alerts; usage_updates]
            h_pending eq_refl _)).
  repeat constructor. intros [].
Defined.

Lemma auth_success_pending_witness :
  pendingSubscriptionsRef
    (handle_message demo_now demo_random demo_iso never_throws r_connected
       auth_accepted h_pending) = [] /\
  emitted (trace (handle_message demo_now demo_random demo_iso never_throws
                    r_connected auth_accepted h_pending)) = [].
Proof.
  destruct (auth_success_pending demo_now demo_random demo_iso never_throws
              r_connected auth_accepted h_pending _ eq_refl eq_refl eq_refl)
    as (_ & Hp & Hdrop & _).
  split; [exact Hp | exact (proj2 (Hdrop eq_refl))].
Defined.

(** The socket opened by the effect on mount reads the initial render:
    it connects, is told that authentication succeeded, and pings, and
    nothing has gone out. *)
Lemma socket_of_disconnected_render_is_silent_witness :
  emitted (trace (fold_left (fun acc e => demo_step e acc)
                    [ev_connect; ev_message auth_accepted; ev_ping] h_connected))
  = emitted (trace h_connected).
Proof.
  refine (proj1 (socket_of_disconnected_render_is_silent demo_opts demo_now
                   demo_random demo_iso never_throws None
                   [ev_connect; ev_message auth_accepted; ev_ping] h_connected
                   {| sock_id := 0%nat; sock_connected := true;
                      sock_render := initialState |} eq_refl eq_refl)).
Defined.

End WebSocketFacts.

(** ** The agent-status hook *)

Module AgentStatusFacts.

Import UseAgentStatus.

Local Open Scope Q_scope.

Lemma js_div_finite a b : ~ b == 0 -> js_div a b = Finite (a / b).
Proof.
  intros Hb. unfold js_div.
  destruct (Qeq_bool b 0) eqn:E; [|reflexivity].
  apply Qeq_bool_iff in E. contradiction.
Qed.

Lemma Qltb_lt a b : Qltb a b = true -> a < b.
Proof.
  unfold Qltb. intros H. apply negb_true_iff in H.
  apply Qnot_le_lt. intros Hle. apply Qle_bool_iff in Hle. congruence.
Qed.

(** C10: [getCollectiveMetrics] returns on every agent map and takes no
    quotient by zero: every division it performs has a divisor greater
    than zero (the number of agents when there is at least one, the total
    of calls when that is above zero), whatever the rounding of the
    runtime.  On the empty map it performs no division, and the result
    has totalAgents = 0, averageResponseTime = 0 and successRate = 100. *)
Theorem getCollectiveMetrics_total fl s :
  Forall (fun d => js_gt d 0 = true) (divisors fl s) /\
  (st_agents s = [] ->
     divisors fl s = [] /\
     totalAgents (getCollectiveMetrics fl s) = 0%nat /\
     activeAgents (getCollectiveMetrics fl s) = 0%nat /\
     averageResponseTime (getCollectiveMetrics fl s) = Finite 0 /\
     totalCalls (getCollectiveMetrics fl s) = Finite 0 /\
     successRate (getCollectiveMetrics fl s) = Finite 100).
Proof.
  split.
  - unfold divisors, collectiveMetrics.
    set (ags := values (st_agents s)).
    set (total := fold_left (fun sum a => js_add fl sum (Finite (total_calls a)))
                    ags (Finite 0)).
    destruct (0 <? Z.of_nat (List.length ags))%Z eqn:En;
      destruct (js_gt total 0) eqn:Et; cbn [divide snd app].
    + constructor; [|constructor; [exact Et | constructor]].
      cbn [js_gt]. apply Z.ltb_lt in En.
      unfold Qltb. apply negb_true_iff, not_true_is_false.
      rewrite Qle_bool_iff. unfold Qle. cbn. lia.
    + constructor; [|constructor].
      cbn [js_gt]. apply Z.ltb_lt in En.
      unfold Qltb. apply negb_true_iff, not_true_is_false.
      rewrite Qle_bool_iff. unfold Qle. cbn. lia.
    + constructor; [exact Et | constructor].
    + constructor.
  - intros Hempty. unfold divisors, getCollectiveMetrics, collectiveMetrics.
    rewrite Hempty. cbn. repeat split; reflexivity.
Qed.


(** *** Further facts about the agent-status hook *)








Lemma acknowledge_id x a : id (acknowledge x a) = id a.
Proof. unfold acknowledge. destruct (String.eqb (id a) x); reflexivity. Qed.

Lemma acknowledge_twice x a : acknowledge x (acknowledge x a) = acknowledge x a.
Proof.
  unfold acknowledge. destruct (String.eqb (id a) x) eqn:E; cbn [id];
    rewrite E; reflexivity.
Qed.

Lemma acknowledge_swap x y a :
  acknowledge x (acknowledge y a) = acknowledge y (acknowledge x a).
Proof.
  unfold acknowledge.
  destruct (String.eqb (id a) x) eqn:Ex; destruct (String.eqb (id a) y) eqn:Ey;
    cbn [id]; rewrite ?Ex, ?Ey; reflexivity.
Qed.

Lemma acknowledgeAlert_alerts x s :
  alerts (acknowledgeAlert x s) = List.map (acknowledge x) (alerts s).
Proof. reflexivity. Qed.

(** X11: acknowledging alerts.  The list keeps its length, its order and
    its ids; every alert carrying the id, also each of several alerts that
    share it, ends up acknowledged, and no alert goes back to
    unacknowledged, so the number of unacknowledged alerts never grows;
    acknowledging twice is the same as once, two acknowledgements commute,
    and an id that no alert carries changes nothing. *)
Theorem acknowledgeAlert_laws x y s :
  List.map id (alerts (acknowledgeAlert x s)) = List.map id (alerts s) /\
  (forall a, In a (alerts (acknowledgeAlert x s)) ->
     id a = x -> acknowledged a = true) /\
  (List.length (filter (fun a => negb (acknowledged a))
                  (alerts (acknowledgeAlert x s)))
   <= List.length (filter (fun a => negb (acknowledged a)) (alerts s)))%nat /\
  acknowledgeAlert x (acknowledgeAlert x s) = acknowledgeAlert x s /\
  acknowledgeAlert x (acknowledgeAlert y s)
    = acknowledgeAlert y (acknowledgeAlert x s) /\
  ((forall a, In a (alerts s) -> id a <> x) -> acknowledgeAlert x s = s).
Proof.
  split; [|split; [|split; [|split; [|split]]]].
  - rewrite acknowledgeAlert_alerts, map_map. apply map_ext.
    intros a. apply acknowledge_id.
  - rewrite acknowledgeAlert_alerts. intros a Ha Hid.
    apply in_map_iff in Ha. destruct Ha as (a0 & <- & _).
    rewrite acknowledge_id in Hid. unfold acknowledge.
    rewrite (proj2 (String.eqb_eq _ _) Hid). reflexivity.
  - rewrite acknowledgeAlert_alerts.
    induction (alerts s) as [|a l IH]; cbn [List.map filter]; [lia|].
    unfold acknowledge at 1.
    destruct (String.eqb (id a) x); cbn [acknowledged negb].
    + destruct (acknowledged a); cbn [negb List.length]; lia.
    + destruct (acknowledged a); cbn [negb List.length]; lia.
  - change (set_alerts (List.map (acknowledge x)
                          (List.map (acknowledge x) (alerts s))) s
            = set_alerts (List.map (acknowledge x) (alerts s)) s).
    rewrite map_map. f_equal.
    apply map_ext. intros a. apply acknowledge_twice.
  - change (set_alerts (List.map (acknowledge x)
                          (List.map (acknowledge y) (alerts s))) s
            = set_alerts (List.map (acknowledge y)
                            (List.map (acknowledge x) (alerts s))) s).
    rewrite !map_map. f_equal.
    apply map_ext. intros a. apply acknowledge_swap.
  - intros Hnone.
    change (set_alerts (List.map (acknowledge x) (alerts s)) s = s).
    replace (List.map (acknowledge x) (alerts s)) with (alerts s).
    + destruct s; reflexivity.
    + symmetry. rewrite <- (map_id (alerts s)) at 2.
      apply map_ext_in. intros a Ha. unfold acknowledge.
      replace (String.eqb (id a) x) with false; [reflexivity|].
      symmetry. apply String.eqb_neq. apply Hnone. exact Ha.
Qed.

Lemma fl_between fl a b c a' c' :
  monotone fl -> a <= b -> b <= c ->
  fl a = Finite a' -> fl c = Finite c' ->
  exists b', fl b = Finite b' /\ a' <= b' /\ b' <= c'.
Proof.
  intros Hm Hab Hbc Ha Hc.
  pose proof (Hm a b Hab) as H1. pose proof (Hm b c Hbc) as H2.
  rewrite Ha in H1. rewrite Hc in H2.
  destruct (fl b) as [b' | | [|]]; cbn in H1, H2; try contradiction.
  exists b'. split; [reflexivity|]. split; assumption.
Qed.

Lemma total_stays_out fl (ags : list AgentStatus) : forall x,
  (forall q, x <> Finite q) ->
  forall q,
    fold_left (fun sum a => js_add fl sum (Finite (total_calls a))) ags x
    <> Finite q.
Proof.
  induction ags as [|a ags IH]; intros x Hx q; cbn [fold_left]; [apply Hx|].
  apply IH. intros q'. destruct x as [x0 | | neg]; cbn; try discriminate.
  exfalso. exact (Hx x0 eq_refl).
Qed.

Lemma call_sums_bounds fl (ags : list AgentStatus) :
  monotone fl -> exact_at fl 0 -> exact_at fl 1 ->
  (forall a, In a ags ->
     exact_at fl (total_calls a) /\
     0 <= total_calls a /\ 0 <= error_rate a /\ error_rate a <= 1) ->
  forall s0 t0 T, 0 <= s0 -> s0 <= t0 ->
  fold_left (fun sum a => js_add fl sum (Finite (total_calls a))) ags (Finite t0)
    = Finite T ->
  exists S,
    fold_left (fun sum a =>
                 js_add fl sum
                   (js_mul fl (Finite (total_calls a))
                      (js_sub fl (Finite 1) (Finite (error_rate a)))))
              ags (Finite s0) = Finite S /\
    0 <= S /\ S <= T.
Proof.
  intros Hm (z0 & Hz0 & Ez0) (o1 & Ho1 & Eo1).
  induction ags as [|a ags IH]; intros Hall s0 t0 T Hs0 Hst Htot;
    cbn [fold_left] in *.
  - injection Htot as <-. exists s0. split; [reflexivity|]. split; assumption.
  - destruct (Hall a (or_introl eq_refl)) as ((ta & Hta & Eta) & Ht & He0 & He1).
    cbn [js_add] in Htot.
    destruct (fl (t0 + total_calls a)) as [t1 | | neg] eqn:Et1.
    2:{ exfalso. revert Htot. apply total_stays_out. discriminate. }
    2:{ exfalso. revert Htot. apply total_stays_out. discriminate. }
    unfold js_sub. cbn [js_neg js_add].
    destruct (fl_between fl 0 (1 + - error_rate a) 1 z0 o1 Hm) as (x & Hx & Hx0 & Hx1);
      [lra | lra | exact Hz0 | exact Ho1 |].
    rewrite Hx. cbn [js_mul].
    destruct (fl_between fl 0 (total_calls a * x) (total_calls a) z0 ta Hm)
      as (y & Hy & Hy0 & Hy1); [nra | nra | exact Hz0 | exact Hta |].
    rewrite Hy. cbn [js_add].
    destruct (fl_between fl 0 (s0 + y) (t0 + total_calls a) z0 t1 Hm)
      as (s1 & Hs1 & Hs10 & Hs11); [lra | lra | exact Hz0 | exact Et1 |].
    rewrite Hs1.
    apply (IH (fun b Hb => Hall b (or_intror Hb)) s1 t1 T); [lra | exact Hs11 | exact Htot].
Qed.

(** X12: the bounds of the collective metrics.  The number of active
    agents never exceeds the number of agents.  When every agent reports
    a non-negative call count and an error rate between 0 and 1, and the
    total of the calls is a finite number (the sum has not overflowed),
    that total is non-negative and the success rate is a number between 0
    and 100.  This needs of the runtime's rounding only that it keeps the
    order and is exact on 0, 1, 100 and on the call counts, which are
    doubles. *)
Theorem getCollectiveMetrics_bounds fl s :
  monotone fl -> exact_at fl 0 -> exact_at fl 1 -> exact_at fl 100 ->
  (forall a, In a (values (st_agents s)) ->
     exact_at fl (total_calls a) /\
     0 <= total_calls a /\ 0 <= error_rate a /\ error_rate a <= 1) ->
  forall T, totalCalls (getCollectiveMetrics fl s) = Finite T ->
  let m := getCollectiveMetrics fl s in
  (activeAgents m <= totalAgents m)%nat /\
  0 <= T /\
  exists r, successRate m = Finite r /\ 0 <= r /\ r <= 100.
Proof.
  intros Hm H0 H1 (h100 & Hh & Eh) Hall T HT. cbv zeta.
  unfold getCollectiveMetrics, collectiveMetrics in *.
  set (ags := values (st_agents s)) in *.
  set (total := fold_left (fun sum a => js_add fl sum (Finite (total_calls a)))
                  ags (Finite 0)) in *.
  set (succ := fold_left (fun sum a =>
                 js_add fl sum
                   (js_mul fl (Finite (total_calls a))
                      (js_sub fl (Finite 1) (Finite (error_rate a)))))
              ags (Finite 0)) in *.
  assert (HT' : total = Finite T).
  { destruct (0 <? Z.of_nat (List.length ags))%Z; destruct (js_gt total 0);
      cbn in HT; exact HT. }
  destruct (call_sums_bounds fl ags Hm H0 H1 Hall 0 0 T (Qle_refl 0) (Qle_refl 0) HT')
    as (S & HS & HS0 & HST).
  fold succ in HS.
  assert (Hact : (List.length (filter (fun a => match status a with
                                                | active => true
                                                | _ => false
                                                end) ags)
                  <= List.length ags)%nat) by apply filter_length_le.
  assert (Hrate : exists r,
    (if js_gt total 0
     then js_mul fl (js_quot fl succ total) (Finite 100) else Finite 100) = Finite r
    /\ 0 <= r /\ r <= 100).
  { rewrite HT', HS. cbn [js_gt].
    destruct H0 as (z0 & Hz0 & Ez0). destruct H1 as (o1 & Ho1 & Eo1).
    destruct (Qltb 0 T) eqn:E.
    - apply Qltb_lt in E. cbn [js_quot].
      replace (Qeq_bool T 0) with false
        by (symmetry; apply not_true_is_false; rewrite Qeq_bool_iff; lra).
      assert (Hq0 : 0 <= S / T) by (apply Qle_shift_div_l; [exact E | lra]).
      assert (Hq1 : S / T <= 1) by (apply Qle_shift_div_r; [exact E | lra]).
      destruct (fl_between fl 0 (S / T) 1 z0 o1 Hm Hq0 Hq1 Hz0 Ho1)
        as (z & Hz & Hz0' & Hz1).
      rewrite Hz. cbn [js_mul].
      destruct (fl_between fl 0 (z * 100) 100 z0 h100 Hm) as (r & Hr & Hr0 & Hr1);
        [lra | lra | exact Hz0 | exact Hh |].
      exists r. split; [exact Hr|]. split; lra.
    - exists 100. split; [reflexivity|]. split; lra. }
  destruct Hrate as (r & Hr & Hr0 & Hr1).
  split; [|split; [lra|]].
  - destruct (0 <? Z.of_nat (List.length ags))%Z; destruct (js_gt total 0);
      cbn; exact Hact.
  - exists r. split; [|split; assumption].
    destruct (0 <? Z.of_nat (List.length ags))%Z; destruct (js_gt total 0);
      cbn in Hr |- *; exact Hr.
Qed.

Lemma has_key_In k dist : has_key k dist = true <-> In k (List.map fst dist).
Proof.
  induction dist as [|[k' v'] rest IH]; cbn [has_key List.map fst In].
  - split; [discriminate | intros []].
  - rewrite orb_true_iff, IH, String.eqb_eq. tauto.
Qed.

Lemma update_keys k v dist : List.map fst (update k v dist) = List.map fst dist.
Proof.
  induction dist as [|[k' v'] rest IH]; cbn [update List.map fst]; [reflexivity|].
  destruct (String.eqb k' k); cbn [List.map fst]; [|rewrite IH]; reflexivity.
Qed.

Lemma update_values k v dist k0 v0 :
  In (k0, v0) (update k v dist) -> (k0 = k /\ v0 = v) \/ In (k0, v0) dist.
Proof.
  induction dist as [|[k' v'] rest IH]; cbn [update]; [intros []|].
  destruct (String.eqb k' k) eqn:E.
  - apply String.eqb_eq in E. subst k'. intros [H | H].
    + injection H as <- <-. left. split; reflexivity.
    + right. right. exact H.
  - intros [H | H]; [right; left; exact H|].
    destruct (IH H) as [Hl | Hr]; [left; exact Hl | right; right; exact Hr].
Qed.

Lemma update_sets k v dist :
  In k (List.map fst dist) -> In (k, v) (update k v dist).
Proof.
  induction dist as [|[k' v'] rest IH]; cbn [update List.map fst In]; [intros []|].
  destruct (String.eqb k' k) eqn:E.
  - apply String.eqb_eq in E. subst k'. intros _. left. reflexivity.
  - apply String.eqb_neq in E. intros [H | H]; [contradiction|].
    right. apply IH. exact H.
Qed.

Lemma update_other k v dist k0 v0 :
  k0 <> k -> In (k0, v0) dist -> In (k0, v0) (update k v dist).
Proof.
  intros Hne. induction dist as [|[k' v'] rest IH]; cbn [update In]; [intros []|].
  destruct (String.eqb k' k) eqn:E.
  - apply String.eqb_eq in E. subst k'. intros [H | H].
    + injection H as -> _. contradiction.
    + right. exact H.
  - intros [H | H]; [left; exact H | right; apply IH; exact H].
Qed.

Lemma insert_index_perm n k v dist :
  Permutation (insert_index n k v dist) ((k, v) :: dist).
Proof.
  induction dist as [|[k' v'] rest IH]; cbn [insert_index];
    [apply Permutation_refl|].
  destruct (array_index k') as [n'|]; [|apply Permutation_refl].
  destruct (n' <? n)%N; [|apply Permutation_refl].
  eapply Permutation_trans; [apply perm_skip, IH | apply perm_swap].
Qed.

(** A new key, other than '__proto__': the entry is added somewhere. *)
Lemma assign_new k v dist :
  k <> "__proto__"%string -> ~ In k (List.map fst dist) ->
  Permutation (assign k v dist) ((k, v) :: dist).
Proof.
  intros Hp Hn. unfold assign.
  replace (String.eqb k "__proto__") with false
    by (symmetry; apply String.eqb_neq; exact Hp).
  replace (has_key k dist) with false
    by (symmetry; apply not_true_is_false; rewrite has_key_In; exact Hn).
  destruct (array_index k) as [n|]; [apply insert_index_perm|].
  apply Permutation_sym, Permutation_cons_append.
Qed.

Lemma assign_keys k v dist k0 :
  In k0 (List.map fst (assign k v dist)) <->
  In k0 (List.map fst dist) \/ (k0 = k /\ k <> "__proto__"%string).
Proof.
  destruct (string_dec k "__proto__") as [Hp | Hp].
  - unfold assign. rewrite (proj2 (String.eqb_eq _ _) Hp). tauto.
  - destruct (in_dec string_dec k (List.map fst dist)) as [Hin | Hnin].
    + unfold assign.
      replace (String.eqb k "__proto__") with false
        by (symmetry; apply String.eqb_neq; exact Hp).
      rewrite (proj2 (has_key_In k dist) Hin), update_keys.
      split; [tauto|]. intros [H | [-> _]]; assumption.
    + pose proof (Permutation_map fst (assign_new k v dist Hp Hnin)) as Hperm.
      cbn [List.map fst] in Hperm. split.
      * intros H. apply (Permutation_in _ Hperm) in H.
        destruct H as [<- | H]; [right; split; [reflexivity | exact Hp] | left; exact H].
      * intros H. apply (Permutation_in _ (Permutation_sym Hperm)).
        destruct H as [H | [-> _]]; [right; exact H | left; reflexivity].
Qed.

Lemma assign_NoDup k v dist :
  NoDup (List.map fst dist) -> NoDup (List.map fst (assign k v dist)).
Proof.
  intros Hnd.
  destruct (string_dec k "__proto__") as [Hp | Hp].
  - unfold assign. rewrite (proj2 (String.eqb_eq _ _) Hp). exact Hnd.
  - destruct (in_dec string_dec k (List.map fst dist)) as [Hin | Hnin].
    + unfold assign.
      replace (String.eqb k "__proto__") with false
        by (symmetry; apply String.eqb_neq; exact Hp).
      rewrite (proj2 (has_key_In k dist) Hin), update_keys. exact Hnd.
    + pose proof (Permutation_map fst (assign_new k v dist Hp Hnin)) as Hperm.
      apply (Permutation_NoDup (Permutation_sym Hperm)).
      cbn [List.map fst]. constructor; assumption.
Qed.

Lemma assign_values k v dist k0 v0 :
  In (k0, v0) (assign k v dist) -> (k0 = k /\ v0 = v) \/ In (k0, v0) dist.
Proof.
  destruct (string_dec k "__proto__") as [Hp | Hp].
  - unfold assign. rewrite (proj2 (String.eqb_eq _ _) Hp). tauto.
  - destruct (in_dec string_dec k (List.map fst dist)) as [Hin | Hnin].
    + unfold assign.
      replace (String.eqb k "__proto__") with false
        by (symmetry; apply String.eqb_neq; exact Hp).
      rewrite (proj2 (has_key_In k dist) Hin). apply update_values.
    + intros H. apply (Permutation_in _ (assign_new k v dist Hp Hnin)) in H.
      destruct H as [H | H]; [injection H as <- <-; left; split; reflexivity|].
      right. exact H.
Qed.

Lemma assign_sets k v dist :
  k <> "__proto__"%string -> In (k, v) (assign k v dist).
Proof.
  intros Hp.
  destruct (in_dec string_dec k (List.map fst dist)) as [Hin | Hnin].
  - unfold assign.
    replace (String.eqb k "__proto__") with false
      by (symmetry; apply String.eqb_neq; exact Hp).
    rewrite (proj2 (has_key_In k dist) Hin). apply update_sets. exact Hin.
  - apply (Permutation_in _ (Permutation_sym (assign_new k v dist Hp Hnin))).
    left. reflexivity.
Qed.

Lemma assign_other k v dist k0 v0 :
  k0 <> k -> In (k0, v0) dist -> In (k0, v0) (assign k v dist).
Proof.
  intros Hne Hin0.
  destruct (string_dec k "__proto__") as [Hp | Hp].
  - unfold assign. rewrite (proj2 (String.eqb_eq _ _) Hp). exact Hin0.
  - destruct (in_dec string_dec k (List.map fst dist)) as [Hin | Hnin].
    + unfold assign.
      replace (String.eqb k "__proto__") with false
        by (symmetry; apply String.eqb_neq; exact Hp).
      rewrite (proj2 (has_key_In k dist) Hin). apply update_other; assumption.
    + apply (Permutation_in _ (Permutation_sym (assign_new k v dist Hp Hnin))).
      right. exact Hin0.
Qed.

Lemma load_fold (ags : list AgentStatus) : forall dist,
  let load := fold_left (fun d a => assign (name a) (active_calls a) d) ags dist in
  (NoDup (List.map fst dist) -> NoDup (List.map fst load)) /\
  (forall k, In k (List.map fst load) <->
             In k (List.map fst dist) \/
             (In k (List.map name ags) /\ k <> "__proto__"%string)) /\
  (forall k v, In (k, v) load ->
     In (k, v) dist \/ exists a, In a ags /\ name a = k /\ active_calls a = v) /\
  (forall k v, In (k, v) dist -> ~ In k (List.map name ags) -> In (k, v) load) /\
  (NoDup (List.map name ags) ->
   forall a, In a ags -> name a <> "__proto__"%string ->
   In (name a, active_calls a) load).
Proof.
  induction ags as [|a ags IH]; intros dist; cbv zeta; cbn [fold_left List.map].
  - split; [tauto|]. split; [intros k; cbn; tauto|]. split; [tauto|].
    split; [tauto | intros _ a []].
  - specialize (IH (assign (name a) (active_calls a) dist)). cbv zeta in IH.
    destruct IH as (I1 & I2 & I3 & I4 & I5).
    split; [|split; [|split; [|split]]].
    + intros Hnd. apply I1, assign_NoDup, Hnd.
    + intros k. rewrite I2, assign_keys. cbn [In]. split.
      * intros [[H | [-> Hp]] | [H Hp]]; tauto.
      * intros [H | [[<- | H] Hp]]; tauto.
    + intros k v Hin. destruct (I3 k v Hin) as [Hd | (b & Hb & Hrest)].
      * destruct (assign_values _ _ _ _ _ Hd) as [[-> ->] | Hold];
          [right; exists a; split; [left; reflexivity | split; reflexivity]
          | left; exact Hold].
      * right. exists b. split; [right; exact Hb | exact Hrest].
    + intros k v Hin Hout. apply I4.
      * apply assign_other; [|exact Hin]. intros ->. apply Hout. left. reflexivity.
      * intros H. apply Hout. right. exact H.
    + intros Hnd b Hb Hp. inversion Hnd as [|? ? Hna Hnd']; subst.
      destruct Hb as [<- | Hb].
      * apply I4; [apply assign_sets; exact Hp | exact Hna].
      * apply I5; assumption.
Qed.

(** X13: the load distribution is keyed by the names the agents report,
    the name '__proto__' apart, which makes no entry.  It has one entry
    per distinct such name, so never more entries than agents; every
    entry is the name and the active calls of some agent; and when the
    reported names are all different and none is '__proto__' it has
    exactly one entry per agent, holding that agent's active calls. *)
Theorem loadDistribution_by_name fl s :
  let ags := values (st_agents s) in
  let load := loadDistribution (getCollectiveMetrics fl s) in
  NoDup (List.map fst load) /\
  (forall k, In k (List.map fst load) <->
             In k (List.map name ags) /\ k <> "__proto__"%string) /\
  (forall k v, In (k, v) load ->
     exists a, In a ags /\ name a = k /\ active_calls a = v) /\
  (List.length load <= totalAgents (getCollectiveMetrics fl s))%nat /\
  (NoDup (List.map name ags) ->
   (forall a, In a ags -> name a <> "__proto__"%string) ->
   List.length load = totalAgents (getCollectiveMetrics fl s) /\
   forall a, In a ags -> In (name a, active_calls a) load).
Proof.
  cbv zeta.
  assert (Hrec : forall s0,
    loadDistribution (getCollectiveMetrics fl s0)
      = fold_left (fun d a => assign (name a) (active_calls a) d)
          (values (st_agents s0)) [] /\
    totalAgents (getCollectiveMetrics fl s0) = List.length (values (st_agents s0))).
  { intros s0. unfold getCollectiveMetrics, collectiveMetrics.
    destruct (0 <? Z.of_nat (List.length (values (st_agents s0))))%Z;
      destruct (js_gt _ 0); cbn; split; reflexivity. }
  destruct (Hrec s) as [-> ->].
  set (ags := values (st_agents s)).
  destruct (load_fold ags []) as (L1 & L2 & L3 & _ & L5).
  cbv zeta in L1, L2, L3, L5.
  set (load := fold_left (fun d a => assign (name a) (active_calls a) d) ags []) in *.
  assert (Hnd : NoDup (List.map fst load)) by (apply L1; constructor).
  assert (Hkeys : forall k, In k (List.map fst load) <->
                            In k (List.map name ags) /\ k <> "__proto__"%string).
  { intros k. rewrite L2. cbn. tauto. }
  split; [exact Hnd|]. split; [exact Hkeys|].
  split; [intros k v Hin; destruct (L3 k v Hin) as [[] | H]; exact H|].
  split.
  - rewrite <- (length_map fst load), <- (length_map name ags).
    apply NoDup_incl_length; [exact Hnd|]. intros k Hk. apply Hkeys. exact Hk.
  - intros Hnames Hproto. split; [|intros a Ha; apply L5; auto].
    rewrite <- (length_map fst load), <- (length_map name ags).
    apply Permutation_length, NoDup_Permutation; [exact Hnd | exact Hnames|].
    intros k. rewrite Hkeys. split; [tauto|]. intros Hk. split; [exact Hk|].
    apply in_map_iff in Hk. destruct Hk as (a & <- & Ha). apply Hproto. exact Ha.
Qed.

Lemma agent_act_keeps_loading options a sh :
  loading (fst (act options a sh)) = true \/
  loading (fst (act options a sh)) = loading (fst sh).
Proof.
  destruct a as [r clock m | x | | acts cs]; cbn [act fst].
  - right. unfold handleWebSocketMessage.
    destruct m as [[st|] | [l|] | [e|] | ]; try reflexivity.
    + cbn [fst]. unfold checkAgentHealth.
      destruct (0 <? Z.of_nat (List.length _))%Z; reflexivity.
    + destruct (enableLayerRouting options); reflexivity.
    + destruct (truthy e); reflexivity.
  - right. reflexivity.
  - right. reflexivity.
  - unfold refreshStatus. destruct acts as [actions|]; [|right; reflexivity].
    destruct (UseWebSocket.authenticated cs); [left | right]; reflexivity.
Qed.

(** X14: the loading flag is never taken back by the traffic.
    [refreshStatus] made while authenticated sets it, and no inbound
    message of any type, no acknowledgement or clearing of alerts and no
    further refresh resets it: after any such sequence it is still set.
    Only the effect that runs when [authenticated] changes clears it. *)
Theorem refreshStatus_loading_stays options actions connectionState sh
    (script : list Action) :
  UseWebSocket.authenticated connectionState = true ->
  loading (fst (fold_left (fun acc a => act options a acc) script
                  (refreshStatus (Some actions) connectionState sh))) = true /\
  loading (fst (effect_authenticated options (Some actions) connectionState
                  (refreshStatus (Some actions) connectionState sh))) = false.
Proof.
  intros Hauth. split.
  - assert (Hinv : forall l acc, loading (fst acc) = true ->
              loading (fst (fold_left (fun acc a => act options a acc) l acc)) = true).
    { induction l as [|a l IH]; intros acc Hacc; cbn [fold_left]; [exact Hacc|].
      apply IH. destruct (agent_act_keeps_loading options a acc) as [H | H];
        [exact H | rewrite H; exact Hacc]. }
    apply Hinv. unfold refreshStatus. rewrite Hauth. reflexivity.
  - unfold effect_authenticated. rewrite Hauth. reflexivity.
Qed.

Lemma getCollectiveMetrics_bounds_witness :
  exists r,
    successRate (getCollectiveMetrics Binary64.binary64 fleet_state) = Finite r /\
    0 <= r /\ r <= 100.
Proof.
  assert (Hexact : forall z : Z, (Z.abs z <= 2 ^ 53)%Z ->
            exact_at Binary64.binary64 (inject_Z z)).
  { intros z Hz.
    exact (Binary64Facts.binary64_exact_integer _ z (Qeq_refl _) Hz). }
  refine (proj2 (proj2 (getCollectiveMetrics_bounds Binary64.binary64 fleet_state
                          Binary64Facts.binary64_monotone
                          (Hexact 0%Z _) (Hexact 1%Z _) (Hexact 100%Z _) _ 10 _))).
  - vm_compute. discriminate.
  - vm_compute. discriminate.
  - vm_compute. discriminate.
  - intros a [<- | []]. split; [apply (Hexact 10%Z); vm_compute; discriminate|].
    cbn. repeat split; discriminate.
  - vm_compute. reflexivity.
Defined.

Lemma refreshStatus_loading_stays_witness :
  loading (fst (fold_left (fun acc a => act plain_options a acc)
                  [do_message initialState frozen_clock
                     (in_agent_status (Some failing_fleet));
                   do_clearAlerts]
                  (refreshStatus (Some demo_actions) UseWebSocket.r_authenticated
                     (initialState, UseWebSocket.h_connected)))) = true.
Proof.
  exact (proj1 (refreshStatus_loading_stays plain_options demo_actions
                  UseWebSocket.r_authenticated
                  (initialState, UseWebSocket.h_connected)
                  [do_message initialState frozen_clock
                     (in_agent_status (Some failing_fleet));
                   do_clearAlerts]
                  eq_refl)).
Defined.

End AgentStatusFacts.

(** ** The JSON round trip *)

Module JSONFacts.

Import JSON.

Local Open Scope string_scope.
Local Open Scope nat_scope.

Section Codec.

Variable Number_toString : Q -> string.
Variable StringToNumber : string -> option Q.

Local Abbreviation stringify_at := (JSON.stringify_at Number_toString).
Local Abbreviation stringify := (JSON.stringify Number_toString).
Local Abbreviation parse_value := (JSON.parse_value StringToNumber).
Local Abbreviation parse_items := (JSON.parse_items StringToNumber).
Local Abbreviation parse_members := (JSON.parse_members StringToNumber).
Local Abbreviation parse := (JSON.parse StringToNumber).
Local Abbreviation codec_ok := (JSON.codec_ok Number_toString StringToNumber).
Local Abbreviation numbers_ok := (JSON.numbers_ok Number_toString StringToNumber).
Local Abbreviation parses := (JSON.parses Number_toString StringToNumber).

Lemma append_assoc (a b c : string) : (a ++ b) ++ c = a ++ (b ++ c).
Proof. induction a as [|x a IH]; cbn; [|rewrite IH]; reflexivity. Qed.

Lemma length_append (a b : string) :
  String.length (a ++ b) = String.length a + String.length b.
Proof. induction a as [|x a IH]; cbn; [|rewrite IH]; reflexivity. Qed.

Lemma parse_chars_quote_char c tail :
  parse_chars (quote_char c ++ tail) = push c (parse_chars tail).
Proof.
  destruct c as [[] [] [] [] [] [] [] []]; reflexivity.
Qed.

Lemma parse_chars_quote_chars s rest :
  parse_chars (quote_chars s ++ String dquote rest) = Some (s, rest).
Proof.
  induction s as [|c s IH]; cbn [quote_chars].
  - reflexivity.
  - rewrite append_assoc, parse_chars_quote_char, IH. reflexivity.
Qed.

Lemma skip_ws_spaces n s : skip_ws (spaces n ++ s) = skip_ws s.
Proof. induction n as [|n IH]; cbn; [reflexivity | exact IH]. Qed.

Lemma skip_ws_nl n s : skip_ws (nl n ++ s) = skip_ws s.
Proof. unfold nl. cbn. apply skip_ws_spaces. Qed.

Lemma span_num_token tok rest :
  all_num tok = true -> token_end rest -> span_num (tok ++ rest) = (tok, rest).
Proof.
  intros Htok Hrest. induction tok as [|c tok IH]; cbn.
  - destruct rest as [|d rest]; [reflexivity|]. cbn in *. rewrite Hrest. reflexivity.
  - cbn in Htok. apply andb_true_iff in Htok as [Hc Htok].
    rewrite Hc, (IH Htok). reflexivity.
Qed.

Lemma num_char_not_ws c : is_num_char c = true -> is_ws c = false.
Proof.
  destruct c as [[] [] [] [] [] [] [] []]; cbn; intros H;
    try reflexivity; discriminate H.
Qed.

Lemma num_char_not_letter c :
  is_num_char c = true -> c <> "]"%char /\ c <> "}"%char.
Proof.
  destruct c as [[] [] [] [] [] [] [] []]; cbn; intros H;
    try discriminate H; split; discriminate.
Qed.

Lemma parse_value_number f tok rest q :
  all_num tok = true -> tok <> EmptyString -> token_end rest ->
  StringToNumber tok = Some q ->
  parse_value (S f) (tok ++ rest) = Some (Number q, rest).
Proof.
  intros Hall Hne Hend Hrt.
  destruct tok as [|c tok']; [congruence|].
  pose proof (span_num_token _ _ Hall Hend) as Hspan.
  cbn in Hall. apply andb_true_iff in Hall as [Hc _].
  cbn [JSON.parse_value append skip_ws]. rewrite (num_char_not_ws c Hc), Hc.
  cbn [append] in Hspan. rewrite Hspan, Hrt. reflexivity.
Qed.

Lemma parse_value_string f s rest :
  parse_value (S f) (quote s ++ rest) = Some (Str s, rest).
Proof.
  unfold quote. cbn [append]. rewrite append_assoc. cbn [append].
  pose proof (parse_chars_quote_chars s rest) as Hq.
  set (tail := quote_chars s ++ String dquote rest) in *.
  simpl. rewrite Hq. reflexivity.
Qed.

Lemma parse_value_nl fuel n s : parse_value fuel (nl n ++ s) = parse_value fuel s.
Proof.
  destruct fuel as [|f]; [reflexivity|].
  cbn [JSON.parse_value]. rewrite skip_ws_nl. reflexivity.
Qed.

Lemma parse_value_space fuel s : parse_value fuel (String " " s) = parse_value fuel s.
Proof. destruct fuel as [|f]; reflexivity. Qed.

(** The first character of a rendered value. *)
Lemma stringify_head v indent :
  numbers_ok v ->
  exists c s, stringify_at indent v = String c s /\
    is_ws c = false /\ c <> "]"%char /\ c <> "}"%char.
Proof.
  intros Hok. destruct v as [|b|q|s|items|members]; cbn [JSON.stringify_at].
  - eexists _, _. repeat split; try reflexivity; discriminate.
  - destruct b; eexists _, _; repeat split; try reflexivity; discriminate.
  - destruct Hok as (_ & Hall & Hne).
    destruct (Number_toString q) as [|c tok]; [congruence|].
    cbn in Hall. apply andb_true_iff in Hall as [Hc _].
    exists c, tok. split; [reflexivity|]. split; [apply num_char_not_ws, Hc|].
    apply num_char_not_letter, Hc.
  - eexists _, _. repeat split; try reflexivity; discriminate.
  - destruct items; eexists _, _; repeat split; try reflexivity; discriminate.
  - destruct members; eexists _, _; repeat split; try reflexivity; discriminate.
Qed.

Lemma skip_ws_head c s : is_ws c = false -> skip_ws (String c s) = String c s.
Proof. intros H. cbn. rewrite H. reflexivity. Qed.

Lemma parse_items_ok : forall xs x f indent indent0 rest,
  Forall parses (x :: xs) ->
  fold_right (fun y acc => numbers_ok y /\ acc) True (x :: xs) ->
  fold_right (fun y acc => S (size y) + acc) 0 (x :: xs) <= f ->
  parse_items f
    (nl indent ++ stringify_at indent x
       ++ join_tail indent (List.map (stringify_at indent) xs)
       ++ nl indent0 ++ String "]" rest)
  = Some (x :: xs, rest).
Proof.
  induction xs as [|y ys IH]; intros x f indent indent0 rest HP Hok Hsz;
    (destruct f as [|f']; [cbn in Hsz; lia|]);
    inversion HP as [|? ? Hx HP']; subst;
    cbn [JSON.parse_items]; rewrite parse_value_nl.
  - cbn [List.map join_tail append].
    rewrite (Hx indent f' (nl indent0 ++ String "]" rest)).
    + rewrite skip_ws_nl. reflexivity.
    + apply Hok.
    + cbn in Hsz. lia.
    + reflexivity.
  - cbn [List.map join_tail append]. rewrite !append_assoc.
    rewrite (Hx indent f').
    + cbn [skip_ws]. change (is_ws ",") with false. cbv iota.
      rewrite IH; [reflexivity | exact HP' | apply Hok | cbn in Hsz |- *; lia].
    + apply Hok.
    + cbn in Hsz. lia.
    + reflexivity.
Qed.

Ltac key_colon :=
  cbn [skip_ws]; change (is_ws dquote) with false; cbv iota;
  change (Ascii.eqb dquote dquote) with true; cbv iota;
  rewrite parse_chars_quote_chars;
  cbn [skip_ws]; change (is_ws ":") with false; cbv iota;
  rewrite parse_value_space.

Lemma parse_members_ok : forall ms k x f indent indent0 rest,
  Forall (fun kv => parses (snd kv)) ((k, x) :: ms) ->
  fold_right (fun kv acc => numbers_ok (snd kv) /\ acc) True ((k, x) :: ms) ->
  fold_right (fun kv acc => S (size (snd kv)) + acc) 0 ((k, x) :: ms) <= f ->
  parse_members f
    (nl indent ++ (quote k ++ ": " ++ stringify_at indent x)
       ++ join_tail indent
            (List.map (fun kv => quote (fst kv) ++ ": "
                                 ++ stringify_at indent (snd kv)) ms)
       ++ nl indent0 ++ String "}" rest)
  = Some ((k, x) :: ms, rest).
Proof.
  induction ms as [|[k' y] ms IH]; intros k x f indent indent0 rest HP Hok Hsz;
    (destruct f as [|f']; [cbn in Hsz; lia|]);
    inversion HP as [|? ? Hx HP']; subst; cbn [snd fst] in *;
    cbn [JSON.parse_members]; rewrite skip_ws_nl;
    unfold quote at 1; cbn [append]; rewrite !append_assoc; cbn [append].
  - cbn [List.map join_tail append].
    key_colon.
    rewrite (Hx indent f' (nl indent0 ++ String "}" rest)).
    + rewrite skip_ws_nl. reflexivity.
    + apply Hok.
    + cbn in Hsz. lia.
    + reflexivity.
  - cbn [List.map join_tail append fst snd].
    key_colon.
    rewrite !append_assoc. rewrite (Hx indent f').
    + cbn [skip_ws]. change (is_ws ",") with false. cbv iota.
      assert (Hsz' : fold_right (fun kv acc => S (size (snd kv)) + acc) 0
                       ((k', y) :: ms) <= f') by (cbn in Hsz |- *; lia).
      pose proof (IH k' y f' indent indent0 rest HP' (proj2 Hok) Hsz') as H.
      rewrite !append_assoc in H. cbn [append] in H.
      rewrite ?append_assoc. cbn [append]. rewrite H. reflexivity.
    + apply Hok.
    + cbn in Hsz. lia.
    + reflexivity.
Qed.

Lemma parse_value_bracket f r :
  parse_value (S f) (String "[" r) =
  match skip_ws r with
  | EmptyString => None
  | String d rest =>
      if Ascii.eqb d "]" then Some (Array [], rest)
      else
        match parse_items f r with
        | Some (l, rest') => Some (Array l, rest')
        | None => None
        end
  end.
Proof. reflexivity. Qed.

Lemma parse_value_brace f r :
  parse_value (S f) (String "{" r) =
  match skip_ws r with
  | EmptyString => None
  | String d rest =>
      if Ascii.eqb d "}" then Some (Object [], rest)
      else
        match parse_members f r with
        | Some (l, rest') => Some (Object l, rest')
        | None => None
        end
  end.
Proof. reflexivity. Qed.

(** Every value parses. *)
Theorem parse_stringify_at v : parses v.
Proof.
  induction v as [|b|q|s|items IH|members IH] using value_induction;
    intros indent fuel rest Hok Hsz Hend;
    (destruct fuel as [|f]; [cbn in Hsz; lia|]).
  - reflexivity.
  - destruct b; reflexivity.
  - destruct Hok as (Hrt & Hall & Hne).
    apply parse_value_number; assumption.
  - apply parse_value_string.
  - destruct items as [|x xs].
    + reflexivity.
    + cbn [JSON.stringify_at wrap List.map append]. rewrite !append_assoc.
      cbn [append].
      destruct (stringify_head x (indent + 2)) as (c & t & Hc & Hws & Hb & _);
        [apply Hok|].
      pose proof (parse_items_ok xs x f (indent + 2) indent rest IH Hok) as Hit.
      rewrite parse_value_bracket, skip_ws_nl, Hc. cbn [append].
      rewrite (skip_ws_head c _ Hws).
      replace (Ascii.eqb c "]") with false
        by (symmetry; apply Ascii.eqb_neq; exact Hb).
      rewrite Hc in Hit. cbn [append] in Hit.
      rewrite Hit; [reflexivity | cbn in Hsz |- *; lia].
  - destruct members as [|[k x] ms].
    + reflexivity.
    + cbn [JSON.stringify_at wrap List.map append fst snd]. rewrite !append_assoc.
      cbn [append].
      pose proof (parse_members_ok ms k x f (indent + 2) indent rest IH Hok) as Hit.
      rewrite !append_assoc in Hit. cbn [append] in Hit.
      rewrite parse_value_brace, skip_ws_nl.
      unfold quote at 1. cbn [append skip_ws].
      change (is_ws dquote) with false. cbv iota.
      change (Ascii.eqb dquote "}") with false. cbv iota.
      rewrite Hit; [reflexivity | cbn in Hsz |- *; lia].
Qed.

Lemma join_tail_length n parts :
  fold_right (fun p acc => S (String.length p) + acc) 0 parts
    <= String.length (join_tail n parts).
Proof.
  induction parts as [|p ps IH]; cbn [join_tail fold_right String.length].
  - lia.
  - rewrite !length_append. lia.
Qed.

Lemma wrap_length o c indent parts :
  S (fold_right (fun p acc => S (String.length p) + acc) 0 parts)
    <= String.length (wrap o c indent parts).
Proof.
  destruct parts as [|p ps]; cbn [wrap fold_right String.length].
  - lia.
  - rewrite !length_append. pose proof (join_tail_length (indent + 2) ps).
    unfold nl. cbn [String.length]. lia.
Qed.

Lemma size_le_length v : forall indent,
  numbers_ok v -> size v <= String.length (stringify_at indent v).
Proof.
  induction v as [|b|q|s|items IH|members IH] using value_induction;
    intros indent Hok; cbn [size JSON.stringify_at].
  - cbn. lia.
  - destruct b; cbn; lia.
  - destruct Hok as (_ & _ & Hne).
    destruct (Number_toString q); [congruence | cbn; lia].
  - unfold quote. cbn. lia.
  - etransitivity; [|apply wrap_length]. apply le_n_S.
    cbn [JSON.numbers_ok] in Hok.
    induction IH as [|x xs Hx _ IHxs]; cbn [fold_right List.map]; [lia|].
    destruct Hok as [Hokx Hoks].
    specialize (Hx (indent + 2) Hokx). specialize (IHxs Hoks). lia.
  - etransitivity; [|apply wrap_length]. apply le_n_S.
    cbn [JSON.numbers_ok] in Hok.
    induction IH as [|[k x] ms Hx _ IHms]; cbn [fold_right List.map fst snd];
      [lia|].
    destruct Hok as [Hokx Hoks]. cbn [snd] in *.
    specialize (Hx (indent + 2) Hokx). specialize (IHms Hoks).
    rewrite !length_append. lia.
Qed.

Lemma append_nil_r (s : string) : s ++ EmptyString = s.
Proof. induction s as [|c s IH]; cbn; [|rewrite IH]; reflexivity. Qed.

(** [JSON.parse(JSON.stringify(v, null, 2))] gives [v] back. *)
Theorem parse_stringify v : numbers_ok v -> parse (stringify v) = Some v.
Proof.
  intros Hok. unfold JSON.parse, JSON.stringify.
  pose proof (parse_stringify_at v 0 (S (String.length (stringify_at 0 v))) EmptyString
                Hok) as H.
  rewrite append_nil_r in H. rewrite H.
  - reflexivity.
  - pose proof (size_le_length v 0 Hok). lia.
  - exact I.
Qed.

End Codec.

End JSONFacts.

(** ** The usage hook *)

Module RealTimeUsageFacts.

Import UseRealTimeUsage.

Local Open Scope Q_scope.

Local Notation "x <- e ;; k" :=
  (match e with Some x => k | None => None end)
  (at level 60, e at next level, right associativity).

Lemma Qltb_true a b : Qltb a b = true <-> a < b.
Proof.
  unfold Qltb. rewrite negb_true_iff. split.
  - intros H. apply Qnot_le_lt. intros Hle.
    apply Qle_bool_iff in Hle. congruence.
  - intros H. destruct (Qle_bool b a) eqn:E; [|reflexivity].
    apply Qle_bool_iff in E. exfalso. exact (Qlt_not_le _ _ H E).
Qed.

Lemma trendOf_integers firstHalf secondHalf :
  trendOf firstHalf secondHalf =
    if (11 * firstHalf <? 10 * secondHalf)%nat then increasing
    else if (10 * secondHalf <? 9 * firstHalf)%nat then decreasing
    else stable.
Proof.
  unfold trendOf.
  replace (Qltb (Q_of_nat firstHalf * (11 # 10)) (Q_of_nat secondHalf))
    with (11 * firstHalf <? 10 * secondHalf)%nat.
  2:{ symmetry. apply eq_true_iff_eq. rewrite Qltb_true, Nat.ltb_lt.
      unfold Qlt, Q_of_nat. cbn. lia. }
  replace (Qltb (Q_of_nat secondHalf) (Q_of_nat firstHalf * (9 # 10)))
    with (10 * secondHalf <? 9 * firstHalf)%nat.
  2:{ symmetry. apply eq_true_iff_eq. rewrite Qltb_true, Nat.ltb_lt.
      unfold Qlt, Q_of_nat. cbn. lia. }
  reflexivity.
Qed.

(** On the sizes of the two slices of a window (the second is the first
    or one more) the computation on doubles and the one on rationals
    agree, for every size that is a double. *)
Lemma trendOf_doubles_agree firstHalf secondHalf :
  (Z.of_nat firstHalf < 2 ^ 53)%Z ->
  secondHalf = firstHalf \/ secondHalf = S firstHalf ->
  trendOf_doubles firstHalf secondHalf = trendOf firstHalf secondHalf.
Proof.
  intros Hsize Hsecond.
  destruct (Nat.lt_ge_cases firstHalf 10) as [Hsmall | Hlarge].
  - do 10 (destruct firstHalf as [|firstHalf];
           [destruct Hsecond; subst; vm_compute; reflexivity|]).
    lia.
  - rewrite trendOf_integers.
    replace (11 * firstHalf <? 10 * secondHalf)%nat with false
      by (symmetry; apply Nat.ltb_ge; lia).
    replace (10 * secondHalf <? 9 * firstHalf)%nat with false
      by (symmetry; apply Nat.ltb_ge; lia).
    unfold trendOf_doubles. cbn [js_mul].
    set (f := Q_of_nat firstHalf). set (s2 := Q_of_nat secondHalf).
    assert (Hf : f == inject_Z (Z.of_nat firstHalf)) by reflexivity.
    assert (Hf10 : 10 <= f).
    { unfold f, Q_of_nat. change 10 with (inject_Z 10). rewrite <- Zle_Qle. lia. }
    assert (Hs2 : f <= s2 /\ s2 <= f + 1).
    { unfold f, s2, Q_of_nat. change 1 with (inject_Z 1).
      rewrite <- inject_Z_plus, <- !Zle_Qle. lia. }
    assert (Hs1 : f + 1 == inject_Z (Z.of_nat firstHalf + 1)).
    { unfold f, Q_of_nat. rewrite inject_Z_plus. reflexivity. }
    destruct (Binary64Facts.binary64_exact_integer f _ Hf ltac:(lia))
      as (rf & Erf & Hrf).
    destruct (Binary64Facts.binary64_exact_integer (f + 1) _ Hs1 ltac:(lia))
      as (r1 & Er1 & Hr1).
    assert (H11 : (11 # 10) <= Binary64.nearest (11 # 10)) by (vm_compute; discriminate).
    assert (H09 : Binary64.nearest (9 # 10) <= 1) by (vm_compute; discriminate).
    assert (H09' : 0 <= Binary64.nearest (9 # 10)) by (vm_compute; discriminate).
    pose proof (Binary64Facts.binary64_monotone (f + 1)
                  (f * Binary64.nearest (11 # 10)) ltac:(nra)) as Hup.
    pose proof (Binary64Facts.binary64_monotone
                  (f * Binary64.nearest (9 # 10)) f ltac:(nra)) as Hdown.
    rewrite Er1 in Hup. rewrite Erf in Hdown.
    destruct (Binary64.binary64 (f * Binary64.nearest (11 # 10))) as [a| |[|]];
      cbn [num_le] in Hup; try contradiction.
    + cbn [number_ltb].
      replace (Qltb a s2) with false
        by (symmetry; apply not_true_is_false; rewrite Qltb_true; lra).
      destruct (Binary64.binary64 (f * Binary64.nearest (9 # 10))) as [b| |[|]];
        cbn [num_le] in Hdown; try contradiction; cbn [js_gt negb]; [|reflexivity].
      replace (Qltb s2 b) with false
        by (symmetry; apply not_true_is_false; rewrite Qltb_true; lra).
      reflexivity.
    + cbn [number_ltb].
      destruct (Binary64.binary64 (f * Binary64.nearest (9 # 10))) as [b| |[|]];
        cbn [num_le] in Hdown; try contradiction; cbn [js_gt negb]; [|reflexivity].
      replace (Qltb s2 b) with false
        by (symmetry; apply not_true_is_false; rewrite Qltb_true; lra).
      reflexivity.
Qed.

Lemma Q_of_nat_nonneg n : 0 <= Q_of_nat n.
Proof. unfold Q_of_nat. change 0 with (inject_Z 0). rewrite <- Zle_Qle. lia. Qed.

Lemma Date_of_integer (c : Z) :
  Date_of (Finite (inject_Z c))
  = if (Z.abs c <=? 8640000000000000)%Z then Some c else None.
Proof.
  unfold Date_of, truncate.
  replace (Qle_bool (Qabs (inject_Z c)) 8640000000000000)
    with (Z.abs c <=? 8640000000000000)%Z.
  - destruct (Z.abs c <=? 8640000000000000)%Z; [|reflexivity].
    rewrite Qfloor_Z, Qceiling_Z. destruct (Qle_bool 0 (inject_Z c)); reflexivity.
  - unfold Qle_bool, Qabs, inject_Z. cbn [Qnum Qden].
    rewrite !Z.mul_1_r. reflexivity.
Qed.

(** C8: the trend compares the numbers of calls in the two halves of the
    recent-call window.  The window is made of the calls of
    [recent_calls], in their order, whose timestamp is a date later than
    the cutoff, 24 hours before the clock (the cutoff being itself a
    date); it is split at its midpoint [floor(n / 2)].  The trend is
    'increasing' when the second half has more than 1.1 times the calls
    of the first, 'decreasing' when it has less than 0.9 times as many,
    and 'stable' otherwise. *)
Theorem trend_by_halves Date_parse getHours parseInt now u :
  exists inWindow : UsageCallRecord -> bool,
    (forall call,
       inWindow call = true <->
       exists t, Date_parse (timestamp call) = Some t /\
                 (now - 86400000 < t)%Z /\
                 (Z.abs (now - 86400000) <= 8640000000000000)%Z) /\
    let window := filter inWindow (recent_calls u) in
    let halfPoint := (List.length window / 2)%nat in
    let firstHalf := firstn halfPoint window in
    let secondHalf := skipn halfPoint window in
    let first := inject_Z (Z.of_nat (List.length firstHalf)) in
    let second := inject_Z (Z.of_nat (List.length secondHalf)) in
    let t := trend (calculateAnalytics Date_parse getHours parseInt now u) in
    window = firstHalf ++ secondHalf /\
    List.length firstHalf = halfPoint /\
    (t = increasing <-> (11 # 10) * first < second) /\
    (t = decreasing <-> second < (9 # 10) * first) /\
    (t = stable <-> (9 # 10) * first <= second /\ second <= (11 # 10) * first).
Proof.
  exists (within24h Date_parse now). split.
  - intros call. unfold within24h.
    change (now - 24 * 60 * 60 * 1000)%Z with (now - 86400000)%Z.
    rewrite Date_of_integer. unfold later.
    destruct (Date_parse (timestamp call)) as [t|].
    2:{ split; [discriminate | intros (t & H & _); discriminate]. }
    destruct (Z.abs (now - 86400000) <=? 8640000000000000)%Z eqn:E.
    + apply Z.leb_le in E. rewrite Z.ltb_lt. split.
      * intros H. exists t. auto.
      * intros (t' & Ht & H & _). injection Ht as <-. exact H.
    + apply Z.leb_gt in E. split; [discriminate|]. intros (_ & _ & _ & H). lia.
  - cbv zeta. unfold calculateAnalytics. cbn [trend]. unfold last24h, trendOf.
    set (window := filter (within24h Date_parse now) (recent_calls u)).
    set (halfPoint := (List.length window / 2)%nat).
    fold (Q_of_nat (List.length (firstn halfPoint window))).
    fold (Q_of_nat (List.length (skipn halfPoint window))).
    pose proof (Q_of_nat_nonneg (List.length (firstn halfPoint window))) as H1.
    pose proof (Q_of_nat_nonneg (List.length (skipn halfPoint window))) as H2.
    set (first := Q_of_nat (List.length (firstn halfPoint window))) in *.
    set (second := Q_of_nat (List.length (skipn halfPoint window))) in *.
    split; [symmetry; apply firstn_skipn|].
    split.
    { rewrite length_firstn. apply Nat.min_l. unfold halfPoint.
      apply Nat.Div0.div_le_upper_bound. lia. }
    destruct (Qltb (first * (11 # 10)) second) eqn:E1.
    + apply Qltb_true in E1.
      split; [split; [intros _; lra | reflexivity]|].
      split; [split; [discriminate | intros H; exfalso; lra]|].
      split; [discriminate | intros [_ H]; exfalso; lra].
    + assert (N1 : ~ first * (11 # 10) < second)
        by (intros H; apply Qltb_true in H; congruence).
      destruct (Qltb second (first * (9 # 10))) eqn:E2.
      * apply Qltb_true in E2.
        split; [split; [discriminate | intros H; exfalso; lra]|].
        split; [split; [intros _; lra | reflexivity]|].
        split; [discriminate | intros [H _]; exfalso; lra].
      * assert (N2 : ~ second < first * (9 # 10))
          by (intros H; apply Qltb_true in H; congruence).
        split; [split; [discriminate | intros H; exfalso; lra]|].
        split; [split; [discriminate | intros H; exfalso; lra]|].
        split; [intros _ | reflexivity].
        split; apply Qnot_lt_le; intros H; [apply N2 | apply N1]; lra.
Qed.

Lemma breakdown_of_to b : breakdown_of_json (breakdown_to_json b) = Some b.
Proof.
  unfold breakdown_of_json, breakdown_to_json.
  induction b as [|[k q] b IH]; cbn; [|rewrite IH]; reflexivity.
Qed.

Lemma call_of_to c :
  finite_double (layer c) -> finite_double (duration_ms c) ->
  call_of_json (call_to_json c) = Some c.
Proof.
  destruct c as [t a [l| |neg] [d| |neg'] ok [e|]]; cbn [finite_double layer duration_ms];
    intros H1 H2; try contradiction; reflexivity.
Qed.

Lemma calls_of_to l :
  Forall (fun call => finite_double (layer call) /\ finite_double (duration_ms call)) l ->
  calls_of_items (List.map call_to_json l) = Some l.
Proof.
  induction 1 as [|c l [H1 H2] Hl IH]; cbn [List.map calls_of_items];
    [reflexivity|].
  rewrite (call_of_to c H1 H2), IH. reflexivity.
Qed.

Lemma theme_of_to t : theme_of_json (theme_to_json t) = Some t.
Proof. destruct t as [v m [b|] [w|] st]; reflexivity. Qed.

(** Every logical field of a snapshot of finite numbers can be read back
    from the JSON value that the snapshot is. *)
Lemma of_to_json u : finite_numbers u -> of_json (to_json u) = Some u.
Proof.
  destruct u as [uid [mu| |n1] [du| |n2] [ml| |n3] [dl| |n4] [up| |n5]
                 lc ab lb rc ti th];
    unfold finite_numbers;
    cbn [finite_double monthly_usage daily_usage monthly_limit daily_limit
         usage_percentage agent_breakdown layer_breakdown recent_calls];
    intros (H1 & H2 & H3 & H4 & H5 & _ & _ & Hcalls); try contradiction.
  unfold of_json, to_json, string_field, number_field, field.
  cbn [find fst snd String.eqb Ascii.eqb Bool.eqb as_string as_number
       number_to_json
       user_id monthly_usage daily_usage monthly_limit daily_limit
       usage_percentage last_call_time agent_breakdown layer_breakdown
       recent_calls tier biblical_theme].
  rewrite !breakdown_of_to, (calls_of_to rc Hcalls), theme_of_to. reflexivity.
Qed.

(** What the runtime writes for a double is a number token that reads
    back as that double. *)
Lemma codec_ok_double q :
  Binary64.representable q ->
  JSON.codec_ok Binary64.Number_toString Binary64.StringToNumber q.
Proof.
  intros H. unfold JSON.codec_ok.
  split; [apply Binary64Facts.StringToNumber_Number_toString, H|].
  apply Binary64Facts.Number_toString_token, H.
Qed.

Lemma number_ok x :
  finite_double x ->
  JSON.numbers_ok Binary64.Number_toString Binary64.StringToNumber (number_to_json x).
Proof.
  destruct x as [q| |neg]; cbn [finite_double number_to_json JSON.numbers_ok];
    [apply codec_ok_double | contradiction | contradiction].
Qed.

Lemma breakdown_numbers_ok b :
  Forall (fun kv => Binary64.representable (snd kv)) b ->
  JSON.numbers_ok Binary64.Number_toString Binary64.StringToNumber
    (breakdown_to_json b).
Proof.
  unfold breakdown_to_json. cbn [JSON.numbers_ok].
  induction 1 as [|kv b Hkv Hb IH]; cbn [List.map fold_right snd]; [exact I|].
  split; [apply codec_ok_double, Hkv | exact IH].
Qed.

Lemma calls_numbers_ok l :
  Forall (fun call => finite_double (layer call) /\ finite_double (duration_ms call)) l ->
  JSON.numbers_ok Binary64.Number_toString Binary64.StringToNumber
    (JSON.Array (List.map call_to_json l)).
Proof.
  cbn [JSON.numbers_ok].
  induction 1 as [|c l [H1 H2] Hl IH]; cbn [List.map fold_right]; [exact I|].
  split; [|exact IH].
  unfold call_to_json, optional. cbn [JSON.numbers_ok].
  destruct (error_message c); cbn [app fold_right snd JSON.numbers_ok];
    repeat split; apply number_ok; assumption.
Qed.

Lemma to_json_numbers_ok u :
  finite_numbers u ->
  JSON.numbers_ok Binary64.Number_toString Binary64.StringToNumber (to_json u).
Proof.
  intros (H1 & H2 & H3 & H4 & H5 & Ha & Hl & Hcalls).
  unfold to_json. cbn [JSON.numbers_ok fold_right snd].
  repeat split; try (apply number_ok; assumption).
  - apply breakdown_numbers_ok, Ha.
  - apply breakdown_numbers_ok, Hl.
  - apply (calls_numbers_ok _ Hcalls).
  - unfold theme_to_json, optional.
    destruct (blessing (biblical_theme u)), (warning (biblical_theme u));
      cbn [app JSON.numbers_ok fold_right snd]; tauto.
Qed.

(** C9 (as amended): with a snapshot present all of whose numbers are
    finite, the structured export is a function of the snapshot alone (a
    string is all it produces), and parsing the exported string gives
    back every logical field of the snapshot held at export time.  The
    numbers are written and read as the runtime does it, by
    [Number::toString] and by the rounding of a JSON number to the
    nearest double. *)
Theorem export_json_round_trip s u :
  usage s = Some u ->
  finite_numbers u ->
  (v <- JSON.parse Binary64.StringToNumber
          (exportUsageData Binary64.Number_toString s json) ;;
   of_json v) = Some u /\
  (forall s', usage s' = usage s ->
     exportUsageData Binary64.Number_toString s' json
     = exportUsageData Binary64.Number_toString s json).
Proof.
  intros Hu Hfinite. split.
  - unfold exportUsageData. rewrite Hu.
    rewrite (JSONFacts.parse_stringify _ _ _ (to_json_numbers_ok u Hfinite)).
    apply of_to_json, Hfinite.
  - intros s' Hs'. unfold exportUsageData. rewrite Hs'. reflexivity.
Qed.

(** C9, a snapshot that does not come back: a monthly usage that
    overflowed to [Infinity] is exported as [null], so the parsed export
    holds [null] where the snapshot holds a number. *)
Lemma infinite_usage_exports_null :
  usage (holding overflowed_usage) = Some overflowed_usage /\
  (exists members,
     JSON.parse Binary64.StringToNumber
       (exportUsageData Binary64.Number_toString (holding overflowed_usage) json)
     = Some (JSON.Object members) /\
     field "monthly_usage" members = Some JSON.Null) /\
  (v <- JSON.parse Binary64.StringToNumber
          (exportUsageData Binary64.Number_toString (holding overflowed_usage) json) ;;
   of_json v) <> Some overflowed_usage.
Proof.
  split; [reflexivity|].
  assert (Hparse :
    JSON.parse Binary64.StringToNumber
      (exportUsageData Binary64.Number_toString (holding overflowed_usage) json)
    = Some (to_json overflowed_usage)).
  { apply JSONFacts.parse_stringify. vm_compute. repeat split; discriminate. }
  rewrite Hparse. split.
  - eexists. split; reflexivity.
  - vm_compute. discriminate.
Qed.

(** C9, witness: a snapshot with fractional numbers, exported and parsed
    back. *)
Lemma export_json_round_trip_witness :
  (v <- JSON.parse Binary64.StringToNumber
          (exportUsageData Binary64.Number_toString (holding sample_usage) json) ;;
   of_json v) = Some sample_usage.
Proof.
  refine (proj1 (export_json_round_trip (holding sample_usage) sample_usage
                   eq_refl _)).
  repeat (apply conj || apply Forall_cons || apply Forall_nil);
    vm_compute; reflexivity.
Defined.

(** *** Further facts about the usage hook *)

Lemma halves_of n : (n = 2 * (n / 2) + n mod 2 /\ n mod 2 < 2)%nat.
Proof.
  split; [apply Nat.div_mod_eq | apply Nat.mod_upper_bound; lia].
Qed.

(** X15: the trend is never 'decreasing', and it is 'increasing' exactly
    when the number of calls in the 24-hour window is odd and below 21;
    in every other case it is 'stable'.  (The window is cut at the middle
    of its own list, so the second half is the first half or one more.) *)
Theorem trend_never_decreasing Date_parse getHours parseInt now u :
  let n := List.length (last24h Date_parse now u) in
  let t := trend (calculateAnalytics Date_parse getHours parseInt now u) in
  t <> decreasing /\
  (t = increasing <-> Nat.odd n = true /\ (n < 21)%nat) /\
  (t = stable <-> Nat.odd n = false \/ (21 <= n)%nat).
Proof.
  cbv zeta. unfold calculateAnalytics. cbn [trend].
  rewrite trendOf_integers, length_firstn, length_skipn.
  set (n := List.length (last24h Date_parse now u)).
  destruct (halves_of n) as [Hn Hr].
  assert (Hmin : Nat.min (n / 2) n = (n / 2)%nat) by (apply Nat.min_l; lia).
  rewrite Hmin.
  assert (Hodd : Nat.odd n = true <-> (n mod 2 = 1)%nat).
  { rewrite Nat.odd_spec. split.
    - intros [m Hm]. lia.
    - intros H1. exists (n / 2)%nat. lia. }
  assert (Heven : Nat.odd n = false <-> (n mod 2 = 0)%nat).
  { destruct (Nat.odd n) eqn:E.
    - split; [discriminate|]. intros H0.
      pose proof (proj1 Hodd eq_refl). lia.
    - split; [|reflexivity]. intros _.
      destruct (Nat.eq_dec (n mod 2) 1) as [H1 | H1]; [|lia].
      apply Hodd in H1. discriminate. }
  destruct (11 * (n / 2) <? 10 * (n - n / 2))%nat eqn:E1.
  - apply Nat.ltb_lt in E1.
    split; [discriminate|]. split.
    + split; [intros _ | reflexivity]. split; [apply Hodd|]; lia.
    + split; [discriminate|]. rewrite Heven. lia.
  - apply Nat.ltb_ge in E1.
    replace (10 * (n - n / 2) <? 9 * (n / 2))%nat with false
      by (symmetry; apply Nat.ltb_ge; lia).
    split; [discriminate|]. split.
    + split; [discriminate|]. rewrite Hodd. lia.
    + split; [intros _ | reflexivity]. rewrite Heven. lia.
Qed.

Lemma filter_length_full {A} (f : A -> bool) (l : list A) :
  List.length (filter f l) = List.length l <-> (forall x, In x l -> f x = true).
Proof.
  induction l as [|a l IH]; cbn [filter List.length In].
  - split; [intros _ x [] | reflexivity].
  - pose proof (filter_length_le f l) as Hle.
    destruct (f a) eqn:E; cbn [List.length].
    + split.
      * intros H x [<- | Hx]; [exact E|]. apply IH; [lia | exact Hx].
      * intros H. f_equal. apply IH. intros x Hx. apply H. right. exact Hx.
    + split; [lia|]. intros H. specialize (H a (or_introl eq_refl)). congruence.
Qed.

Lemma Q_of_nat_le a b : (a <= b)%nat <-> Q_of_nat a <= Q_of_nat b.
Proof. unfold Q_of_nat. rewrite <- Zle_Qle. lia. Qed.

Lemma Q_of_nat_eq a b : a = b <-> Q_of_nat a == Q_of_nat b.
Proof. unfold Q_of_nat. rewrite inject_Z_injective. lia. Qed.

(** X16: the efficiency is always a number between 0 and 100, and it is
    100 exactly when every call of the 24-hour window succeeded (in
    particular when the window is empty). *)
Theorem efficiency_bounds Date_parse getHours parseInt now u :
  exists e,
    efficiency (calculateAnalytics Date_parse getHours parseInt now u) = Finite e /\
    0 <= e /\ e <= 100 /\
    (e == 100 <->
     forall call, In call (last24h Date_parse now u) -> success call = true).
Proof.
  unfold calculateAnalytics. cbn [efficiency].
  set (window := last24h Date_parse now u).
  set (ok := List.length (filter success window)).
  set (n := List.length window).
  assert (Hle : (ok <= n)%nat) by apply filter_length_le.
  destruct (0 <? Z.of_nat n)%Z eqn:E.
  - apply Z.ltb_lt in E.
    assert (Hn : 0 < Q_of_nat n).
    { unfold Q_of_nat. change 0 with (inject_Z 0). rewrite <- Zlt_Qlt. exact E. }
    assert (H0 : 0 <= Q_of_nat ok).
    { unfold Q_of_nat. change 0 with (inject_Z 0). rewrite <- Zle_Qle. lia. }
    assert (Hq : Q_of_nat ok <= Q_of_nat n) by (apply Q_of_nat_le; exact Hle).
    rewrite AgentStatusFacts.js_div_finite by lra. cbn [js_times].
    exists (Q_of_nat ok / Q_of_nat n * 100).
    assert (Hd0 : 0 <= Q_of_nat ok / Q_of_nat n)
      by (apply Qle_shift_div_l; [exact Hn | lra]).
    assert (Hd1 : Q_of_nat ok / Q_of_nat n <= 1)
      by (apply Qle_shift_div_r; [exact Hn | lra]).
    split; [reflexivity|]. split; [lra|]. split; [lra|].
    rewrite <- (filter_length_full success window). fold ok n.
    rewrite Q_of_nat_eq. split.
    + intros H100.
      assert (H1 : Q_of_nat ok / Q_of_nat n == 1) by lra.
      rewrite <- (Qmult_div_r (Q_of_nat ok) (Q_of_nat n)) by lra.
      rewrite H1. ring.
    + intros Heq. rewrite Heq.
      unfold Qdiv. rewrite Qmult_inv_r by lra. reflexivity.
  - apply Z.ltb_ge in E. exists 100.
    split; [reflexivity|]. split; [lra|]. split; [lra|].
    split; [intros _ | reflexivity].
    assert (Hnil : window = []) by (apply length_zero_iff_nil; fold n; lia).
    rewrite Hnil. intros call [].
Qed.

(** X17: dismissing a warning works by user id.  It removes every warning
    of that user and keeps the others in their order; so when all the
    warnings held belong to one user, dismissing any one of them empties
    the list, as [clearWarnings] does.  Dismissing twice is the same as
    once, and nothing else in the state changes. *)
Theorem dismissWarning_by_user warningId s :
  let s' := dismissWarning warningId s in
  (forall w, In w (quotaWarnings s') <->
             In w (quotaWarnings s) /\ w_user_id w <> warningId) /\
  (exists keep, quotaWarnings s' = filter keep (quotaWarnings s)) /\
  dismissWarning warningId s' = s' /\
  ((forall w, In w (quotaWarnings s) -> w_user_id w = warningId) ->
   s' = clearWarnings s) /\
  (usage s', analytics s', loading s', error s', lastUpdate s', isRealTime s')
  = (usage s, analytics s, loading s, error s, lastUpdate s, isRealTime s).
Proof.
  cbv zeta. unfold dismissWarning, clearWarnings.
  cbn [quotaWarnings usage analytics loading error lastUpdate isRealTime].
  set (keep := fun w => negb (String.eqb (w_user_id w) warningId)).
  assert (Hkeep : forall w, keep w = true <-> w_user_id w <> warningId).
  { intros w. unfold keep. rewrite negb_true_iff. apply String.eqb_neq. }
  split; [intros w; rewrite filter_In, Hkeep; tauto|].
  split; [exists keep; reflexivity|].
  split; [|split; [|reflexivity]].
  - f_equal.
    assert (Hidem : forall l, filter keep (filter keep l) = filter keep l).
    { induction l as [|a l IH]; cbn [filter]; [reflexivity|].
      destruct (keep a) eqn:E; cbn [filter]; [rewrite E, IH|]; [reflexivity | exact IH]. }
    apply Hidem.
  - intros Hall. f_equal.
    induction (quotaWarnings s) as [|a l IH]; cbn [filter]; [reflexivity|].
    replace (keep a) with false.
    + apply IH. intros w Hw. apply Hall. right. exact Hw.
    + symmetry. apply not_true_is_false. rewrite Hkeep.
      intros Hne. apply Hne. apply Hall. left. reflexivity.
Qed.












(** X19: [getUsageStatusMessage] returns the same message for every
    percentage and every tier.  The thresholds are the keys of an object,
    which are visited in ascending order, so the entry for 0 comes first
    and every percentage from 0 up reaches it; a negative percentage and
    NaN reach no entry and get the entry for 0 as the fallback. *)
Theorem getUsageStatusMessage_constant percentage tier :
  getUsageStatusMessage percentage tier
  = Some "Divine resources await your faithful use"%string.
Proof.
  unfold getUsageStatusMessage.
  change (Object_entries blessings)
    with [(0%Z, "Divine resources await your faithful use"%string);
          (50%Z, "Blessed abundance remains - stewardship is wise"%string);
          (75%Z, "Faithful usage continues - vigilance is prudent"%string);
          (90%Z, "Approaching the appointed limits - wisdom suggests preparation"%string)].
  cbn [firstReached].
  destruct percentage as [q | | [|]]; cbn [number_geb negb]; try reflexivity.
  destruct (Qle_bool (inject_Z 0) q) eqn:E0; [reflexivity|].
  assert (Hneg : q < 0).
  { apply Qnot_le_lt. intros H. apply Qle_bool_iff in H.
    change (inject_Z 0) with 0 in E0. congruence. }
  replace (Qle_bool (inject_Z 50) q) with false.
  2:{ symmetry. apply not_true_is_false. rewrite Qle_bool_iff.
      change (inject_Z 50) with 50. lra. }
  replace (Qle_bool (inject_Z 75) q) with false.
  2:{ symmetry. apply not_true_is_false. rewrite Qle_bool_iff.
      change (inject_Z 75) with 75. lra. }
  replace (Qle_bool (inject_Z 90) q) with false.
  2:{ symmetry. apply not_true_is_false. rewrite Qle_bool_iff.
      change (inject_Z 90) with 90. lra. }
  reflexivity.
Qed.

Lemma usage_act_keeps_loading Date_parse getHours parseInt enableAnalytics a sh :
  loading (fst (act Date_parse getHours parseInt enableAnalytics a sh)) = true \/
  loading (fst (act Date_parse getHours parseInt enableAnalytics a sh))
    = loading (fst sh).
Proof.
  destruct a as [clock m | | x | acts cs]; cbn [act fst].
  - right. unfold handleWebSocketMessage.
    destruct m as [[u|] | [w|] | [e|] | ]; try reflexivity.
    destruct (truthy e); reflexivity.
  - right. reflexivity.
  - right. reflexivity.
  - unfold refreshUsage. destruct acts as [actions|]; [|right; reflexivity].
    destruct (UseWebSocket.authenticated cs); [left | right]; reflexivity.
Qed.

(** X20: the loading flag of the usage hook is never taken back by the
    traffic.  [refreshUsage] made while authenticated sets it, and no
    inbound message of any type (not even the usage update that answers
    the request), no clearing or dismissing of warnings and no further
    refresh resets it.  Only the effect that runs when [authenticated]
    changes clears it. *)
Theorem refreshUsage_loading_stays Date_parse getHours parseInt enableAnalytics
    actions connectionState sh (script : list Action) :
  UseWebSocket.authenticated connectionState = true ->
  loading (fst (fold_left
                  (fun acc a => act Date_parse getHours parseInt enableAnalytics a acc)
                  script (refreshUsage (Some actions) connectionState sh))) = true /\
  loading (fst (effect_authenticated (Some actions) connectionState
                  (refreshUsage (Some actions) connectionState sh))) = false.
Proof.
  intros Hauth. split.
  - assert (Hinv : forall l acc, loading (fst acc) = true ->
              loading (fst (fold_left
                (fun acc a => act Date_parse getHours parseInt enableAnalytics a acc)
                l acc)) = true).
    { induction l as [|a l IH]; intros acc Hacc; cbn [fold_left]; [exact Hacc|].
      apply IH.
      destruct (usage_act_keeps_loading Date_parse getHours parseInt enableAnalytics a acc)
        as [H | H]; [exact H | rewrite H; exact Hacc]. }
    apply Hinv. unfold refreshUsage. rewrite Hauth. reflexivity.
  - unfold effect_authenticated. rewrite Hauth. reflexivity.
Qed.

(** Sorting by insertion, as [sort_desc] does it. *)

Lemma sort_desc_snoc {A} (lt : A -> A -> bool) (l : list A) (x : A) :
  sort_desc lt (l ++ [x]) = insert_desc lt x (sort_desc lt l).
Proof. unfold sort_desc. rewrite fold_left_app. reflexivity. Qed.

Lemma insert_desc_perm {A} (lt : A -> A -> bool) (x : A) (l : list A) :
  Permutation (insert_desc lt x l) (x :: l).
Proof.
  induction l as [|y r IH]; cbn [insert_desc]; [apply Permutation_refl|].
  destruct (lt y x); [apply Permutation_refl|].
  eapply Permutation_trans; [apply perm_skip, IH | apply perm_swap].
Qed.

Lemma sort_desc_perm {A} (lt : A -> A -> bool) (l : list A) :
  Permutation (sort_desc lt l) l.
Proof.
  induction l as [|x l IH] using rev_ind; [apply Permutation_refl|].
  rewrite sort_desc_snoc.
  eapply Permutation_trans; [apply insert_desc_perm|].
  eapply Permutation_trans; [apply perm_skip, IH|].
  apply Permutation_cons_append.
Qed.

Section Sorting.

Variable A : Type.
Variable lt : A -> A -> bool.
Hypothesis lt_asym : forall a b, lt a b = true -> lt b a = false.
Hypothesis lt_carry : forall x y z, lt y x = true -> lt y z = false -> lt x z = false.

Lemma insert_desc_sorted x l :
  StronglySorted (fun a b => lt a b = false) l ->
  StronglySorted (fun a b => lt a b = false) (insert_desc lt x l).
Proof.
  induction 1 as [|y r Hr IH Hy]; cbn [insert_desc].
  - constructor; constructor.
  - destruct (lt y x) eqn:E.
    + constructor; [constructor; assumption|].
      constructor; [apply lt_asym; exact E|].
      rewrite Forall_forall in Hy |- *. intros z Hz.
      apply (lt_carry x y z E). apply Hy. exact Hz.
    + constructor; [exact IH|].
      rewrite Forall_forall in Hy |- *. intros z Hz.
      apply (Permutation_in _ (insert_desc_perm lt x r)) in Hz.
      destruct Hz as [<- | Hz]; [exact E | apply Hy; exact Hz].
Qed.

Lemma sort_desc_sorted l :
  StronglySorted (fun a b => lt a b = false) (sort_desc lt l).
Proof.
  induction l as [|x l IH] using rev_ind; [constructor|].
  rewrite sort_desc_snoc. apply insert_desc_sorted. exact IH.
Qed.

End Sorting.

Lemma StronglySorted_app_cross {A} (R : A -> A -> Prop) (l1 l2 : list A) :
  StronglySorted R (l1 ++ l2) ->
  StronglySorted R l1 /\ forall a b, In a l1 -> In b l2 -> R a b.
Proof.
  induction l1 as [|x l1 IH]; cbn [app]; intros H.
  - split; [constructor | intros a b []].
  - inversion H as [|? ? Hs Hf]; subst. destruct (IH Hs) as [H1 Hc].
    rewrite Forall_forall in Hf. split.
    + constructor; [exact H1|]. rewrite Forall_forall. intros z Hz.
      apply Hf. apply in_or_app. left. exact Hz.
    + intros a b [<- | Ha] Hb; [apply Hf, in_or_app; right; exact Hb|].
      apply Hc; assumption.
Qed.

Lemma StronglySorted_map {A B} (R : A -> A -> Prop) (R' : B -> B -> Prop)
    (f : A -> B) (l : list A) :
  (forall a b, In a l -> In b l -> R a b -> R' (f a) (f b)) ->
  StronglySorted R l -> StronglySorted R' (List.map f l).
Proof.
  intros Himp H. induction H as [|x r Hr IH Hx]; cbn [List.map]; [constructor|].
  constructor.
  - apply IH. intros a b Ha Hb. apply Himp; right; assumption.
  - rewrite Forall_forall in Hx |- *. intros y Hy.
    apply in_map_iff in Hy. destruct Hy as (z & <- & Hz).
    apply Himp; [left; reflexivity | right; exact Hz | apply Hx; exact Hz].
Qed.

(** Counting per hour, as the [forEach] over the window does it. *)

Lemma bump_length i : forall counts, List.length (bump i counts) = List.length counts.
Proof.
  induction i as [|i IH]; intros [|c r]; cbn [bump List.length]; try reflexivity.
  rewrite IH. reflexivity.
Qed.

Lemma nth_bump i : forall counts h,
  nth h (bump i counts) 0%nat
  = (nth h counts 0 + if (i =? h) && (i <? List.length counts) then 1 else 0)%nat.
Proof.
  induction i as [|i IH]; intros [|c r] h; cbn [bump List.length].
  - rewrite andb_false_r. lia.
  - destruct h as [|h]; cbn [nth Nat.eqb andb]; [cbn; lia | lia].
  - replace (S i <? 0)%nat with false by reflexivity.
    rewrite andb_false_r. lia.
  - destruct h as [|h]; cbn [nth Nat.eqb andb]; [lia|].
    rewrite IH. change (S i <? S (List.length r))%nat with (i <? List.length r)%nat.
    reflexivity.
Qed.

Lemma hourCounts_spec Date_parse getHours (window : list UsageCallRecord) :
  forall counts,
  let counts' :=
    fold_left (fun counts call =>
                 match Date_parse (timestamp call) with
                 | Some t => bump (getHours t) counts
                 | None => counts
                 end) window counts in
  List.length counts' = List.length counts /\
  forall h, (h < List.length counts)%nat ->
    nth h counts' 0%nat
    = (nth h counts 0
       + List.length
           (filter (fun call =>
                      match hourOf Date_parse getHours call with
                      | Some h' => (h' =? h)%nat
                      | None => false
                      end) window))%nat.
Proof.
  induction window as [|call window IH]; intros counts; cbv zeta;
    cbn [fold_left filter List.length].
  - split; [reflexivity | intros h _; lia].
  - unfold hourOf at 1.
    destruct (Date_parse (timestamp call)) as [t|].
    + specialize (IH (bump (getHours t) counts)). cbv zeta in IH.
      destruct IH as [Hl Hn]. rewrite bump_length in Hl, Hn.
      split; [exact Hl|]. intros h Hh. rewrite (Hn h Hh), nth_bump.
      destruct (getHours t =? h)%nat eqn:E; cbn [andb List.length].
      * apply Nat.eqb_eq in E. subst h.
        replace (getHours t <? List.length counts)%nat with true
          by (symmetry; apply Nat.ltb_lt; exact Hh).
        lia.
      * lia.
    + apply IH.
Qed.

Lemma indexed_fst {A} (l : list A) : forall k,
  List.map fst (indexed k l) = seq k (List.length l).
Proof.
  induction l as [|x l IH]; intros k; cbn; [reflexivity|].
  rewrite IH. reflexivity.
Qed.

Lemma indexed_In (l : list nat) : forall k i c,
  In (i, c) (indexed k l) <->
  (k <= i < k + List.length l)%nat /\ nth (i - k) l 0%nat = c.
Proof.
  induction l as [|x l IH]; intros k i c; cbn [indexed In List.length].
  - split; [intros [] | lia].
  - rewrite IH. split.
    + intros [H | [Hr Hn]].
      * injection H as <- <-. split; [lia|]. rewrite Nat.sub_diag. reflexivity.
      * split; [lia|]. replace (i - k)%nat with (S (i - S k)) by lia. exact Hn.
    + intros [Hr Hn]. destruct (Nat.eq_dec i k) as [-> | Hne].
      * left. rewrite Nat.sub_diag in Hn. cbn in Hn. subst c. reflexivity.
      * right. split; [lia|].
        replace (i - k)%nat with (S (i - S k)) in Hn by lia. exact Hn.
Qed.

(** X21: the peak hours.  They are three different hours of the day,
    listed from the busiest on; every hour left out has at most as many
    calls in the 24-hour window as each of the three. *)
Theorem peakHours_are_peaks Date_parse getHours parseInt now u :
  let peaks := peakHours (calculateAnalytics Date_parse getHours parseInt now u) in
  let count := callsInHour Date_parse getHours now u in
  List.length peaks = 3%nat /\
  NoDup peaks /\
  (forall p, In p peaks -> (p < 24)%nat) /\
  (forall p h, In p peaks -> (h < 24)%nat -> ~ In h peaks ->
     (count h <= count p)%nat) /\
  StronglySorted (fun p q => (count q <= count p)%nat) peaks.
Proof.
  cbv zeta. unfold calculateAnalytics. cbn [peakHours].
  set (window := last24h Date_parse now u).
  destruct (hourCounts_spec Date_parse getHours window (repeat 0%nat 24))
    as [Hlen Hnth].
  cbv zeta in Hlen, Hnth. rewrite repeat_length in Hlen, Hnth.
  set (counts := fold_left _ window (repeat 0%nat 24)) in *.
  assert (Hcount : forall h, (h < 24)%nat ->
            nth h counts 0%nat = callsInHour Date_parse getHours now u h).
  { intros h Hh. rewrite (Hnth h Hh), nth_repeat. reflexivity. }
  set (lt := fun a b : nat * nat => (snd a <? snd b)%nat).
  set (sorted := sort_desc lt (indexed 0 counts)).
  assert (Hperm : Permutation sorted (indexed 0 counts)) by apply sort_desc_perm.
  assert (Hsorted : StronglySorted (fun a b => lt a b = false) sorted).
  { apply sort_desc_sorted; unfold lt; intros.
    - apply Nat.ltb_ge. apply Nat.ltb_lt in H. lia.
    - apply Nat.ltb_ge. apply Nat.ltb_lt in H. apply Nat.ltb_ge in H0. lia. }
  assert (Hin : forall i c, In (i, c) sorted ->
            (i < 24)%nat /\ c = callsInHour Date_parse getHours now u i).
  { intros i c Hic. apply (Permutation_in _ Hperm) in Hic.
    apply indexed_In in Hic. destruct Hic as [Hr Hn].
    rewrite Hlen in Hr. rewrite Nat.sub_0_r in Hn.
    split; [lia|]. rewrite <- Hn. apply Hcount. lia. }
  assert (Hfst : Permutation (List.map fst sorted) (seq 0 24)).
  { rewrite <- Hlen, <- indexed_fst. apply Permutation_map. exact Hperm. }
  assert (Hnd : NoDup (List.map fst sorted)).
  { apply (Permutation_NoDup (Permutation_sym Hfst)). apply seq_NoDup. }
  assert (Hsl : List.length sorted = 24%nat).
  { rewrite (Permutation_length Hperm), <- (length_map fst), indexed_fst,
      length_seq. exact Hlen. }
  pose proof (firstn_skipn 3 sorted) as Hsplit.
  rewrite <- Hsplit in Hsorted, Hnd.
  destruct (StronglySorted_app_cross _ _ _ Hsorted) as [Htop Hcross].
  rewrite map_app in Hnd.
  assert (Hsub : forall e, In e (firstn 3 sorted) -> In e sorted).
  { intros e He. rewrite <- Hsplit. apply in_or_app. left. exact He. }
  split; [rewrite length_map, length_firstn, Hsl; reflexivity|].
  split; [apply (NoDup_app_remove_r _ _ Hnd)|].
  split.
  { intros p Hp. apply in_map_iff in Hp. destruct Hp as ([i c] & <- & He).
    apply (Hin i c). apply Hsub. exact He. }
  split.
  - intros p h Hp Hh Hout.
    apply in_map_iff in Hp. destruct Hp as ([i c] & <- & He). cbn [fst].
    destruct (Hin i c (Hsub _ He)) as [_ Hc].
    assert (Hh' : In (h, nth h counts 0%nat) sorted).
    { apply (Permutation_in _ (Permutation_sym Hperm)). apply indexed_In.
      rewrite Hlen, Nat.sub_0_r. split; [lia | reflexivity]. }
    rewrite <- Hsplit in Hh'. apply in_app_or in Hh'.
    destruct Hh' as [Hl | Hr].
    + exfalso. apply Hout. apply in_map_iff.
      exists (h, nth h counts 0%nat). split; [reflexivity | exact Hl].
    + specialize (Hcross _ _ He Hr). unfold lt in Hcross. cbn [snd] in Hcross.
      apply Nat.ltb_ge in Hcross. rewrite (Hcount h Hh) in Hcross. lia.
  - apply (StronglySorted_map (fun a b => lt a b = false)); [|exact Htop].
    intros [i c] [j d] Ha Hb Hab. cbn [fst].
    destruct (Hin i c (Hsub _ Ha)) as [_ Hc].
    destruct (Hin j d (Hsub _ Hb)) as [_ Hd].
    unfold lt in Hab. cbn [snd] in Hab. apply Nat.ltb_ge in Hab. lia.
Qed.

Lemma sort_desc_head (entries : list (string * Q)) :
  entries <> [] ->
  exists l1 e l2 rest,
    entries = l1 ++ e :: l2 /\
    (forall x, In x l1 -> snd x < snd e) /\
    (forall x, In x l2 -> snd x <= snd e) /\
    sort_desc (fun a b => Qltb (snd a) (snd b)) entries = e :: rest.
Proof.
  induction entries as [|x l IH] using rev_ind; [congruence|]. intros _.
  rewrite sort_desc_snoc.
  destruct l as [|y l'].
  - exists [], x, [], []. cbn. repeat split; try reflexivity; intros ? [].
  - destruct IH as (l1 & e & l2 & rest & Hl & H1 & H2 & Hs); [discriminate|].
    rewrite Hs. cbn [insert_desc].
    destruct (Qltb (snd e) (snd x)) eqn:E.
    + apply Qltb_true in E.
      exists (y :: l'), x, [], (e :: rest).
      split; [reflexivity|]. split; [|split; [intros ? [] | reflexivity]].
      intros z Hz. rewrite Hl in Hz. apply in_app_or in Hz.
      destruct Hz as [Hz | [<- | Hz]].
      * specialize (H1 z Hz). lra.
      * exact E.
      * specialize (H2 z Hz). lra.
    + assert (Hle : snd x <= snd e).
      { apply Qnot_lt_le. intros Hlt. apply Qltb_true in Hlt. congruence. }
      exists l1, e, (l2 ++ [x]), (insert_desc (fun a b => Qltb (snd a) (snd b)) x rest).
      split; [rewrite Hl, <- app_assoc; reflexivity|].
      split; [exact H1|]. split; [|reflexivity].
      intros z Hz. apply in_app_or in Hz.
      destruct Hz as [Hz | [<- | []]]; [apply H2; exact Hz | exact Hle].
Qed.

(** X22: the most used agent is the key of the first entry of the agent
    breakdown whose count is the largest: every entry before it has a
    strictly smaller count and every entry after it has at most the same.
    On an empty breakdown, and when that key is the empty string, it is
    'Unknown'. *)
Theorem mostUsedAgent_first_maximum Date_parse getHours parseInt now u :
  let found := mostUsedAgent (calculateAnalytics Date_parse getHours parseInt now u) in
  (agent_breakdown u = [] -> found = "Unknown"%string) /\
  (agent_breakdown u <> [] ->
   exists before k v after,
     agent_breakdown u = before ++ (k, v) :: after /\
     (forall e, In e before -> snd e < v) /\
     (forall e, In e after -> snd e <= v) /\
     found = if truthy k then k else "Unknown"%string).
Proof.
  cbv zeta. unfold calculateAnalytics. cbn [mostUsedAgent]. unfold mostUsed.
  split.
  - intros ->. reflexivity.
  - intros Hne.
    destruct (sort_desc_head (agent_breakdown u) Hne)
      as (l1 & [k v] & l2 & rest & Hl & H1 & H2 & Hs).
    exists l1, k, v, l2. rewrite Hs. cbn [snd] in H1, H2.
    split; [exact Hl|]. split; [exact H1|]. split; [exact H2 | reflexivity].
Qed.


Lemma refreshUsage_loading_stays_witness :
  loading (fst (fold_left
                  (fun acc a => act millis_parse utc_hours no_parseInt true a acc)
                  [do_message (fun _ => 1700000000000%Z)
                     (in_usage_update (Some demo_usage));
                   do_clearWarnings]
                  (refreshUsage (Some demo_actions) UseWebSocket.r_authenticated
                     (initialState, UseWebSocket.h_connected)))) = true.
Proof.
  exact (proj1 (refreshUsage_loading_stays millis_parse utc_hours no_parseInt true
                  demo_actions UseWebSocket.r_authenticated
                  (initialState, UseWebSocket.h_connected)
                  [do_message (fun _ => 1700000000000%Z)
                     (in_usage_update (Some demo_usage));
                   do_clearWarnings]
                  eq_refl)).
Defined.

End RealTimeUsageFacts.

(** ** Alerts and warnings across the two consumers *)

Module AlertFacts.

Import UseAgentStatus.





End AlertFacts.

(** * Facts about the subscription panel *)

Module ConnectionManagerFacts.

Import UseWebSocket ConnectionManager.

Local Open Scope Z_scope.

Lemma includes_In l s : includes l s = true <-> In s l.
Proof.
  unfold includes. destruct (in_dec SubscriptionType_eq_dec s l); split;
    intros H; try reflexivity; try assumption; try discriminate; contradiction.
Qed.

Lemma includes_not_In l s : includes l s = false <-> ~ In s l.
Proof.
  unfold includes. destruct (in_dec SubscriptionType_eq_dec s l); split;
    intros H; try reflexivity; try assumption; try discriminate; contradiction.
Qed.

Lemma differs_spec s t : differs s t = true <-> s <> t.
Proof.
  unfold differs. destruct (SubscriptionType_eq_dec s t); split; intros H;
    try reflexivity; try assumption; try discriminate; contradiction.
Qed.

Lemma filter_NoDup {A} (f : A -> bool) (l : list A) :
  NoDup l -> NoDup (filter f l).
Proof.
  induction 1 as [|a l Ha Hl IH]; cbn; [constructor|].
  destruct (f a); [constructor|]; [|exact IH | exact IH].
  rewrite filter_In. tauto.
Qed.

Lemma filter_id {A} (f : A -> bool) (l : list A) :
  (forall x, In x l -> f x = true) -> filter f l = l.
Proof.
  induction l as [|a l IH]; intros H; cbn; [reflexivity|].
  rewrite (H a) by (left; reflexivity). f_equal. apply IH.
  intros x Hx. apply H. right. exact Hx.
Qed.

Lemma filter_nil {A} (f : A -> bool) (l : list A) :
  (forall x, In x l -> f x = false) -> filter f l = [].
Proof.
  induction l as [|a l IH]; intros H; cbn; [reflexivity|].
  rewrite (H a) by (left; reflexivity). apply IH.
  intros x Hx. apply H. right. exact Hx.
Qed.

(** X8: ticking a box of the panel.  On a selection without duplicates the
    toggled topic changes sides, every other topic stays where it was, the
    selection stays without duplicates, and ticking the same box twice
    gives back the same set of topics (exactly the same list when the
    topic was not selected). *)
Theorem handleSubscriptionToggle_flips subscription m :
  NoDup (selectedSubscriptions m) ->
  let sel := selectedSubscriptions m in
  let sel' := selectedSubscriptions (handleSubscriptionToggle subscription m) in
  let sel'' := selectedSubscriptions
      (handleSubscriptionToggle subscription
         (handleSubscriptionToggle subscription m)) in
  NoDup sel' /\
  (In subscription sel' <-> ~ In subscription sel) /\
  (forall t, t <> subscription -> (In t sel' <-> In t sel)) /\
  Permutation sel'' sel /\
  (~ In subscription sel -> sel'' = sel) /\
  activeSubscriptions (handleSubscriptionToggle subscription m)
    = activeSubscriptions m.
Proof.
  intros Hnd. cbv zeta. unfold handleSubscriptionToggle.
  cbn [selectedSubscriptions activeSubscriptions].
  set (sel := selectedSubscriptions m) in *.
  destruct (includes sel subscription) eqn:Ei.
  - apply includes_In in Ei.
    assert (Hout : ~ In subscription (filter (fun s => differs s subscription) sel)).
    { rewrite filter_In, differs_spec. tauto. }
    replace (includes (filter (fun s => differs s subscription) sel) subscription)
      with false by (symmetry; apply includes_not_In; exact Hout).
    split; [apply filter_NoDup; exact Hnd|].
    split; [tauto|].
    split; [intros t Ht; rewrite filter_In, differs_spec; tauto|].
    split; [|tauto].
    apply NoDup_Permutation; [| exact Hnd |].
    + apply NoDup_app; [apply filter_NoDup; exact Hnd | repeat constructor; intros []|].
      intros x Hx [<- | []]. contradiction.
    + intros x. rewrite in_app_iff, filter_In, differs_spec. cbn.
      destruct (SubscriptionType_eq_dec x subscription) as [-> | Hne];
        intuition congruence.
  - apply includes_not_In in Ei.
    replace (includes (sel ++ [subscription]) subscription) with true
      by (symmetry; apply includes_In, in_or_app; right; left; reflexivity).
    assert (Hback : filter (fun s => differs s subscription) (sel ++ [subscription]) = sel).
    { rewrite filter_app. cbn. unfold differs at 2.
      destruct (SubscriptionType_eq_dec subscription subscription); [|contradiction].
      rewrite app_nil_r. apply filter_id. intros x Hx. apply differs_spec.
      intros ->. contradiction. }
    split.
    { apply NoDup_app; [exact Hnd | repeat constructor; intros []|].
      intros x Hx [<- | []]. contradiction. }
    split; [rewrite in_app_iff; cbn; tauto|].
    split; [intros t Ht; rewrite in_app_iff; cbn; split;
            [intros [H | [H | []]]; [exact H | congruence] | tauto]|].
    rewrite Hback. split; [apply Permutation_refl|]. split; reflexivity.
Qed.

Lemma toSubscribe_spec m t :
  In t (toSubscribe m) <->
  In t (selectedSubscriptions m) /\ ~ In t (activeSubscriptions m).
Proof.
  unfold toSubscribe. rewrite filter_In, Bool.negb_true_iff, includes_not_In.
  tauto.
Qed.

Lemma toUnsubscribe_spec m t :
  In t (toUnsubscribe m) <->
  In t (activeSubscriptions m) /\ ~ In t (selectedSubscriptions m).
Proof.
  unfold toUnsubscribe. rewrite filter_In, Bool.negb_true_iff, includes_not_In.
  tauto.
Qed.

Section Apply.

Variable opts : UseWebSocketOptions.
Variable Date_now : nat -> Z.
Variable Math_random : nat -> string.
Variable toISOString : Z -> string.
Variable emit_throws : nat -> WebSocketMessage -> bool.
Variable io_throws : option string.

Local Abbreviation actions :=
  (UseWebSocket.actions opts Date_now Math_random toISOString emit_throws io_throws).
Local Abbreviation sendMessage :=
  (UseWebSocket.sendMessage Date_now Math_random toISOString emit_throws).
Local Abbreviation fullMessage :=
  (UseWebSocket.fullMessage Date_now Math_random toISOString).

Lemma send_topics r t topics h s :
  socketRef h = Some s -> connected r = true ->
  (forall e, emit_throws (sock_id s) e = false) ->
  let h' := sendMessage r (partial t (Some (PSubscriptions topics))) h in
  socketRef h' = Some s /\
  messageQueueRef h' = messageQueueRef h /\
  exists e, emitted (trace h') = emitted (trace h) ++ [e] /\
            carried e = (Some t, Some (PSubscriptions topics)).
Proof.
  intros Hs Hc Hok. cbv zeta.
  set (pm := partial t _).
  destruct (WebSocketFacts.sendMessage_cells Date_now Math_random toISOString
              emit_throws r pm h) as (_ & S2 & _).
  destruct (WebSocketFacts.sendMessage_sent Date_now Math_random toISOString
              emit_throws r pm h s Hs Hc (Hok _)) as [Hq Ht].
  pose proof (WebSocketFacts.fullMessage_fields Date_now Math_random toISOString
                pm h) as [Hty Hd]. cbv zeta in Hty, Hd.
  split; [rewrite S2; exact Hs|]. split; [exact Hq|].
  exists (fst (fullMessage pm h)). split.
  - rewrite Ht, WebSocketFacts.emitted_app. reflexivity.
  - unfold carried. rewrite Hty, Hd. reflexivity.
Qed.

(** X9: the Apply button (enabled only while authenticated), on a
    connected socket whose emit does not throw.  It puts on the wire the
    difference between the boxes ticked and the active topics and nothing
    else: first one subscribe envelope with the topics ticked and not
    active, if there are any, then one unsubscribe envelope with the
    topics active and not ticked, if there are any; the two lists share no
    topic, and replacing the active topics by the first list minus the
    second gives the ticked ones, which become the active list.  When the
    ticked and the active topics are the same set, nothing is sent. *)
Theorem applySubscriptions_sends_difference r m h s :
  socketRef h = Some s -> connected r = true -> authenticated r = true ->
  (forall e, emit_throws (sock_id s) e = false) ->
  let result := applySubscriptions (actions r) m h in
  fst result = selectedSubscriptions m /\
  messageQueueRef (snd result) = messageQueueRef h /\
  (exists sent,
     emitted (trace (snd result)) = emitted (trace h) ++ sent /\
     map carried sent
       = announce MT_subscribe (toSubscribe m)
         ++ announce MT_unsubscribe (toUnsubscribe m)) /\
  (forall t, In t (toSubscribe m) -> ~ In t (toUnsubscribe m)) /\
  (forall t, In t (selectedSubscriptions m) <->
             (In t (activeSubscriptions m) /\ ~ In t (toUnsubscribe m))
             \/ In t (toSubscribe m)) /\
  ((forall t, In t (selectedSubscriptions m) <-> In t (activeSubscriptions m)) ->
     snd result = h).
Proof.
  intros Hs Hc Ha Hok. cbv zeta.
  split; [reflexivity|].
  assert (Hsets :
    (forall t, In t (toSubscribe m) -> ~ In t (toUnsubscribe m)) /\
    (forall t, In t (selectedSubscriptions m) <->
               (In t (activeSubscriptions m) /\ ~ In t (toUnsubscribe m))
               \/ In t (toSubscribe m))).
  { split; intros t; rewrite ?toSubscribe_spec, ?toUnsubscribe_spec; [tauto|].
    destruct (in_dec SubscriptionType_eq_dec t (activeSubscriptions m));
      destruct (in_dec SubscriptionType_eq_dec t (selectedSubscriptions m));
      tauto. }
  destruct Hsets as [Hdis Hrec].
  assert (Hsame : (forall t, In t (selectedSubscriptions m)
                             <-> In t (activeSubscriptions m)) ->
                  toSubscribe m = [] /\ toUnsubscribe m = []).
  { intros Heq. split; apply filter_nil; intros x Hx;
      apply Bool.negb_false_iff, includes_In, Heq; exact Hx. }
  unfold applySubscriptions, UseWebSocket.actions.
  cbn [snd fst act_subscribe act_unsubscribe].
  unfold UseWebSocket.subscribe, UseWebSocket.unsubscribe. rewrite Ha.
  split; [|split; [|split; [exact Hdis | split; [exact Hrec|]]]].
  - destruct (toSubscribe m) as [|a sub]; destruct (toUnsubscribe m) as [|b unsub];
      cbn [List.length Z.of_nat Z.ltb Z.compare].
    + reflexivity.
    + replace (0 <? Z.of_nat (List.length (b :: unsub))) with true
        by (symmetry; apply Z.ltb_lt; cbn [List.length]; lia).
      apply (send_topics r MT_unsubscribe (b :: unsub) h s Hs Hc Hok).
    + replace (0 <? Z.of_nat (List.length (a :: sub))) with true
        by (symmetry; apply Z.ltb_lt; cbn [List.length]; lia).
      apply (send_topics r MT_subscribe (a :: sub) h s Hs Hc Hok).
    + replace (0 <? Z.of_nat (List.length (a :: sub))) with true
        by (symmetry; apply Z.ltb_lt; cbn [List.length]; lia).
      replace (0 <? Z.of_nat (List.length (b :: unsub))) with true
        by (symmetry; apply Z.ltb_lt; cbn [List.length]; lia).
      destruct (send_topics r MT_subscribe (a :: sub) h s Hs Hc Hok)
        as (Hs1 & Hq1 & _).
      destruct (send_topics r MT_unsubscribe (b :: unsub) _ s Hs1 Hc Hok)
        as (_ & Hq2 & _).
      rewrite Hq2. exact Hq1.
  - destruct (toSubscribe m) as [|a sub]; destruct (toUnsubscribe m) as [|b unsub];
      cbn [List.length Z.of_nat Z.ltb Z.compare announce app].
    + exists []. rewrite app_nil_r. split; reflexivity.
    + replace (0 <? Z.of_nat (List.length (b :: unsub))) with true
        by (symmetry; apply Z.ltb_lt; cbn [List.length]; lia).
      destruct (send_topics r MT_unsubscribe (b :: unsub) h s Hs Hc Hok)
        as (_ & _ & e & He & Hcar).
      exists [e]. split; [exact He | cbn; rewrite Hcar; reflexivity].
    + replace (0 <? Z.of_nat (List.length (a :: sub))) with true
        by (symmetry; apply Z.ltb_lt; cbn [List.length]; lia).
      destruct (send_topics r MT_subscribe (a :: sub) h s Hs Hc Hok)
        as (_ & _ & e & He & Hcar).
      exists [e]. split; [exact He | cbn; rewrite Hcar; reflexivity].
    + replace (0 <? Z.of_nat (List.length (a :: sub))) with true
        by (symmetry; apply Z.ltb_lt; cbn [List.length]; lia).
      replace (0 <? Z.of_nat (List.length (b :: unsub))) with true
        by (symmetry; apply Z.ltb_lt; cbn [List.length]; lia).
      destruct (send_topics r MT_subscribe (a :: sub) h s Hs Hc Hok)
        as (Hs1 & _ & e1 & He1 & Hcar1).
      destruct (send_topics r MT_unsubscribe (b :: unsub) _ s Hs1 Hc Hok)
        as (_ & _ & e2 & He2 & Hcar2).
      exists [e1; e2]. split.
      * rewrite He2, He1, <- app_assoc. reflexivity.
      * cbn. rewrite Hcar1, Hcar2. reflexivity.
  - intros Heq. destruct (Hsame Heq) as [-> ->]. reflexivity.
Qed.

End Apply.

Lemma handleSubscriptionToggle_flips_witness :
  selectedSubscriptions
    (handleSubscriptionToggle usage_updates
       (handleSubscriptionToggle usage_updates initialPanel))
  = selectedSubscriptions initialPanel.
Proof.
  refine (proj1 (proj2 (proj2 (proj2 (proj2
            (handleSubscriptionToggle_flips usage_updates initialPanel _))))) _).
  - repeat constructor. intros [].
  - intros [H | []]. discriminate H.
Defined.

Lemma applySubscriptions_sends_difference_witness :
  snd (applySubscriptions
         (actions demo_opts demo_now demo_random demo_iso never_throws None
            r_authenticated)
         initialPanel h_connected) = h_connected.
Proof.
  refine (proj2 (proj2 (proj2 (proj2 (proj2
            (applySubscriptions_sends_difference demo_opts demo_now demo_random
               demo_iso never_throws None r_authenticated initialPanel
               h_connected
               {| sock_id := 0%nat; sock_connected := true;
                  sock_render := initialState |}
               eq_refl eq_refl eq_refl _))))) _).
  - intros e. reflexivity.
  - intros t. reflexivity.
Defined.

End ConnectionManagerFacts.

(** * Facts about the portal's notifications *)

Module RealTimePortalFacts.

Import RealTimePortal.

Lemma firstn_over {A} (n : nat) (l : list A) (x : A) (rest : list A) :
  firstn (S n) (l ++ x :: firstn n rest) = firstn (S n) (l ++ x :: rest).
Proof.
  rewrite !firstn_app. f_equal.
  destruct (S n - List.length l)%nat as [|k] eqn:E; [reflexivity|].
  cbn [firstn]. f_equal. rewrite firstn_firstn. f_equal. lia.
Qed.

Lemma In_firstn {A} (n : nat) (l : list A) (x : A) :
  In x (firstn n l) -> In x l.
Proof.
  intros H. rewrite <- (firstn_skipn n l). apply in_or_app. left. exact H.
Qed.

Lemma addNotification_length now random stamp notification s :
  (List.length (notifications s) <= 10)%nat ->
  (List.length (notifications (addNotification now random stamp notification s))
   <= 10)%nat.
Proof.
  intros _. cbn [addNotification set_notifications notifications List.length].
  rewrite length_firstn. lia.
Qed.

Lemma arrivals_notifications (arrivals : list Arrival) : forall s,
  (List.length (notifications s) <= 10)%nat ->
  notifications (fold_left (fun acc a => arrive a acc) arrivals s)
  = firstn 10 (rev (List.map arrived arrivals) ++ notifications s).
Proof.
  induction arrivals as [|a arrivals IH]; intros s Hs;
    cbn [fold_left List.map rev app].
  - rewrite firstn_all2; [reflexivity | exact Hs].
  - destruct a as [[[now random] stamp] notification].
    rewrite IH by (apply addNotification_length; exact Hs).
    rewrite <- app_assoc. cbn [app].
    cbn [arrive arrived addNotification set_notifications notifications].
    apply (firstn_over 9).
Qed.

(** X23: the notification list holds the ten newest arrivals, newest
    first.  After any number of arrivals it is the first ten of the new
    notifications, in reverse order of arrival, followed by the old ones;
    so once ten have arrived nothing of what was held before is left,
    acknowledged or not. *)
Theorem notifications_newest_ten (arrivals : list Arrival) s :
  (List.length (notifications s) <= 10)%nat ->
  let s' := fold_left (fun acc a => arrive a acc) arrivals s in
  notifications s'
    = firstn 10 (rev (List.map arrived arrivals) ++ notifications s) /\
  (10 <= List.length arrivals ->
   notifications s' = firstn 10 (rev (List.map arrived arrivals)))%nat /\
  Forall (fun n => acknowledged n = false)
         (firstn (List.length arrivals) (notifications s')).
Proof.
  intros Hs. cbv zeta. rewrite (arrivals_notifications arrivals s Hs).
  split; [reflexivity|]. split.
  - intros Hten. rewrite firstn_app.
    replace (10 - List.length (rev (List.map arrived arrivals)))%nat with 0%nat
      by (rewrite length_rev, length_map; lia).
    cbn [firstn]. apply app_nil_r.
  - rewrite firstn_firstn, firstn_app.
    replace (Nat.min (List.length arrivals) 10 - List.length (rev (List.map arrived arrivals)))%nat
      with 0%nat by (rewrite length_rev, length_map; lia).
    cbn [firstn]. rewrite app_nil_r.
    apply Forall_forall. intros n Hn. apply In_firstn in Hn.
    apply in_rev, in_map_iff in Hn.
    destruct Hn as ([[[now random] stamp] notification] & <- & _). reflexivity.
Qed.

Section Bounded.

Variable toFixed1 : Q -> string.

Lemma act_length a s :
  (List.length (notifications s) <= 10)%nat ->
  (List.length (notifications (act toFixed1 a s)) <= 10)%nat.
Proof.
  intros Hs.
  assert (Hadd : forall now random stamp d s0,
            notifications s0 = notifications s ->
            (List.length (notifications (addNotification now random stamp d s0))
             <= 10)%nat).
  { intros now random stamp d s0 H0. apply addNotification_length.
    rewrite H0. exact Hs. }
  destruct a as [now random stamp d | id0 | | clock random m]; cbn [act].
  - apply addNotification_length. exact Hs.
  - cbn [acknowledgeNotification set_notifications notifications].
    rewrite length_map. exact Hs.
  - cbn. lia.
  - unfold handleWebSocketMessage.
    destruct m as [[d|] | [agents|] | [d|] | err | ]; cbn [fst];
      try (apply Hadd; reflexivity); try exact Hs.
    destruct (0 <? Z.of_nat (List.length _))%Z; cbn [fst];
      [apply Hadd; reflexivity | exact Hs].
Qed.

(** X24: the portal never holds more than ten notifications.  From a
    state with at most ten, whatever is done (notifications added,
    acknowledged or cleared, inbound messages of any type handled, also
    those on which the handler throws), the list keeps at most ten
    entries, so at most ten are unacknowledged. *)
Theorem portal_notifications_bounded (script : list (Action)) s :
  (List.length (notifications s) <= 10)%nat ->
  let s' := fold_left (fun acc a => act toFixed1 a acc) script s in
  (List.length (notifications s') <= 10)%nat /\
  (List.length (unacknowledgedNotifications s') <= 10)%nat.
Proof.
  intros Hs. cbv zeta.
  assert (Hinv : (List.length (notifications
                    (fold_left (fun acc a => act toFixed1 a acc) script s)) <= 10)%nat).
  { revert s Hs. induction script as [|a script IH]; intros s Hs; cbn [fold_left];
      [exact Hs|]. apply IH. apply act_length. exact Hs. }
  split; [exact Hinv|].
  unfold unacknowledgedNotifications.
  eapply Nat.le_trans; [apply filter_length_le | exact Hinv].
Qed.

End Bounded.

Lemma notifications_newest_ten_witness :
  notifications
    (fold_left (fun acc a => arrive a acc)
       [(1700000000000%Z, "a"%string, 1700000000000%Z,
         {| d_type := "info"; d_title := "t"; d_message := "m";
            d_biblicalContext := None |})]
       initialState)
  = [newNotification 1700000000000 "a" 1700000000000
       {| d_type := "info"; d_title := "t"; d_message := "m";
          d_biblicalContext := None |}].
Proof.
  refine (proj1 (notifications_newest_ten
                   [(1700000000000%Z, "a"%string, 1700000000000%Z,
                     {| d_type := "info"; d_title := "t"; d_message := "m";
                        d_biblicalContext := None |})]
                   initialState _)).
  cbn. lia.
Defined.

Lemma portal_notifications_bounded_witness :
  (List.length (notifications
     (fold_left (fun acc a => act plain_toFixed1 a acc)
        [do_message (fun _ => 1700000000000%Z) "a" (in_error None);
         do_message (fun _ => 1700000000000%Z) "b" (in_quota_warning None)]
        initialState)) <= 10)%nat.
Proof.
  refine (proj1 (portal_notifications_bounded plain_toFixed1
                   [do_message (fun _ => 1700000000000%Z) "a" (in_error None);
                    do_message (fun _ => 1700000000000%Z) "b" (in_quota_warning None)]
                   initialState _)).
  cbn. lia.
Defined.

End RealTimePortalFacts.
